(** * ufo2ft: the TrueType instruction compiler

    A shallow embedding of [Lib/ufo2ft/instructionCompiler.py] and the
    properties of its format guard, per-glyph program compiler, composite
    flag resolver, control-value table builder and [maxp] update.

    Python objects that the compiler mutates in place (the compiled glyphs,
    the [maxp] table, the tables of the output font, the logger) live in a
    [World]; every method is a computation in a state-and-exception monad
    over it, so that the state a raised exception leaves behind is part of
    the model. *)

From stdpp Require Import gmap strings list fin_maps pretty.
From Stdlib Require Import ZArith Lia Ascii.

Local Open Scope string_scope.
Set Warnings "-register-all".

(** ** Property-list values

    The [lib] dictionaries of a UFO hold property-list data.  Dictionaries
    are association lists in insertion order, the order [dict.items()]
    yields. *)

Inductive pyval : Type :=
| PyNone
| PyBool (b : bool)
| PyInt (n : Z)
| PyStr (s : string)
| PyDict (d : list (string * pyval)).

Abbreviation pydict := (list (string * pyval)).

(** [type(v).__name__] *)
Definition type_name (v : pyval) : string :=
  match v with
  | PyNone => "NoneType"
  | PyBool _ => "bool"
  | PyInt _ => "int"
  | PyStr _ => "str"
  | PyDict _ => "dict"
  end.

(** Truth value of [v] in a condition ([if v:], [not v]). *)
Definition truthy (v : pyval) : bool :=
  match v with
  | PyNone => false
  | PyBool b => b
  | PyInt n => negb (n =? 0)%Z
  | PyStr s => negb (String.eqb s "")
  | PyDict d => match d with [] => false | _ => true end
  end.

(** [v is None] *)
Definition is_None (v : pyval) : bool :=
  match v with PyNone => true | _ => false end.

(** [d[k]] on a dictionary, [None] standing for [KeyError]. *)
Fixpoint dict_lookup (k : string) (d : pydict) : option pyval :=
  match d with
  | [] => None
  | (k', v) :: d' => if String.eqb k k' then Some v else dict_lookup k d'
  end.

(** [k in d] *)
Definition dict_mem (k : string) (d : pydict) : bool :=
  match dict_lookup k d with Some _ => true | None => false end.

(** [d.get(k, dflt)] *)
Definition dict_get (d : pydict) (k : string) (dflt : pyval) : pyval :=
  match dict_lookup k d with Some v => v | None => dflt end.

(** [needle in hay] on two strings: substring search. *)
Definition str_contains (needle hay : string) : bool :=
  match String.index 0 needle hay with Some _ => true | None => false end.

(** ** Exceptions and diagnostics *)

Inductive exn : Type :=
| TypeError (msg : string)
| NotImplementedError (msg : string)
| AttributeError (msg : string)
| KeyError (key : string)
| IndexError
| ValueError (msg : string)
| OverflowError
| AssertionError
| tt_instructions_error
| MissingComponentError (name : string)
| RecursionError.

Inductive level : Type := DEBUG | INFO | WARNING | ERROR.

(** ** Compiled font objects (fontTools) *)

(** [ttProgram.Program]: a fresh [Program()] has neither assembly nor
    bytecode; [fromAssembly] stores the text, [fromBytecode] the bytes. *)
Inductive Program : Type :=
| Program_new
| Program_assembly (asm : string)
| Program_bytecode (bc : list Byte.byte).

(** [Program.__bool__]: there is assembly of positive length or bytecode of
    positive length.  The assembly stored from a string has positive length
    exactly when the string is not empty. *)
Definition Program_bool (p : Program) : bool :=
  match p with
  | Program_new => false
  | Program_assembly asm => negb (String.eqb asm "")
  | Program_bytecode bc => match bc with [] => false | _ => true end
  end.

(** Component flags of [fontTools.ttLib.tables._g_l_y_f]. *)
Definition ROUND_XY_TO_GRID : Z := 0x0004.
Definition USE_MY_METRICS : Z := 0x0200.
Definition OVERLAP_COMPOUND : Z := 0x0400.

Record GlyphComponent : Type := mkGlyphComponent {
  glyphName : string;
  x : Z;
  y : Z;
  flags : Z
}.

Inductive Geometry : Type :=
| Outline (coordinates : list (Z * Z * bool)) (endPtsOfContours : list nat)
| Components (components : list GlyphComponent).

(** A glyph of the [glyf] table; [program = None] is a glyph object without
    a [program] attribute. *)
Record TTGlyph : Type := mkTTGlyph {
  geometry : Geometry;
  program : option Program
}.

Definition isComposite (g : TTGlyph) : bool :=
  match geometry g with Components _ => true | Outline _ _ => false end.

(** The [cvt ] table object; [values] is absent until assigned. *)
Record table__c_v_t : Type := mk_cvt { values : option (list Z) }.

(** The output font: the tables the instruction compiler reads and writes.
    [glyf] maps glyph names to glyph objects, and a glyph object is
    referred to by its name in this table; [maxp] maps attribute names of
    the [maxp] table to their values; [programs] holds the programs of the
    [fpgm] and [prep] tables by tag. *)
Record TTFont : Type := mkTTFont {
  glyf : gmap string TTGlyph;
  hmtx : gmap string (Z * Z);
  maxp : gmap string pyval;
  programs : gmap string Program;
  cvt : option table__c_v_t
}.

Record World : Type := mkWorld {
  otf : TTFont;
  log : list (level * string)
}.

(** ** The font source (UFO) *)

Record Component : Type := mkComponent {
  baseGlyph : string;
  identifier : option string
}.

Record Glyph : Type := mkGlyph {
  name : string;
  lib : pydict;
  components : list Component
}.

Record Font : Type := mkFont {
  font_lib : pydict;
  glyphs : gmap string Glyph
}.

(** Modelled from the spec: [ufo2ft.constants] is not among the sources; the
    lib keys are the strings the repository's tests spell out for the
    per-component metadata ([roundOffsetToGrid], [useMyMetrics]), the
    glyph-level overlap flag and the hint records. *)
Definition OBJECT_LIBS_KEY : string := "public.objectLibs".
Definition TRUETYPE_INSTRUCTIONS_KEY : string := "public.truetype.instructions".
Definition TRUETYPE_METRICS_KEY : string := "public.truetype.useMyMetrics".
Definition TRUETYPE_OVERLAP_KEY : string := "public.truetype.overlap".
Definition TRUETYPE_ROUND_KEY : string := "public.truetype.roundOffsetToGrid".

(** ** The monad: state passing over [World], with exceptions

    A raised exception keeps the state reached so far. *)

Definition M (A : Type) : Type := World -> (exn + A) * World.

Definition ret {A} (a : A) : M A := fun w => (inr a, w).

Definition raise {A} (e : exn) : M A := fun w => (inl e, w).

Definition bind {A B} (m : M A) (k : A -> M B) : M B :=
  fun w =>
    match m w with
    | (inl e, w') => (inl e, w')
    | (inr a, w') => k a w'
    end.

Notation "x <- m ;; k" := (bind m (fun x => k))
  (at level 100, m at next level, right associativity).
Notation "m ;; k" := (bind m (fun _ => k))
  (at level 100, right associativity).

Definition get_otf : M TTFont := fun w => (inr (otf w), w).

Definition put_otf (f : TTFont) : M unit :=
  fun w => (inr tt, mkWorld f (log w)).

(** [logger.<lvl>(msg)] *)
Definition logger (lvl : level) (msg : string) : M unit :=
  fun w => (inr tt, mkWorld (otf w) (log w ++ [(lvl, msg)])).

(** [obj.get(k, dflt)]: only dictionaries have the method. *)
Definition py_get (obj : pyval) (k : string) (dflt : pyval) : M pyval :=
  match obj with
  | PyDict d => ret (dict_get d k dflt)
  | v => raise (AttributeError
           ("'" +:+ type_name v +:+ "' object has no attribute 'get'"))
  end.

(** [k in obj] *)
Definition py_in (k : string) (obj : pyval) : M bool :=
  match obj with
  | PyDict d => ret (dict_mem k d)
  | PyStr s => ret (str_contains k s)
  | v => raise (TypeError
           ("argument of type '" +:+ type_name v +:+ "' is not iterable"))
  end.

(** [obj[k]] with a string key *)
Definition py_getitem (obj : pyval) (k : string) : M pyval :=
  match obj with
  | PyDict d =>
      match dict_lookup k d with
      | Some v => ret v
      | None => raise (KeyError k)
      end
  | PyStr _ => raise (TypeError "string indices must be integers")
  | v => raise (TypeError
           ("'" +:+ type_name v +:+ "' object is not subscriptable"))
  end.

(** Lifting of a pure fallible result. *)
Definition lift {A} (r : exn + A) : M A :=
  match r with inl e => raise e | inr a => ret a end.

(** *** Access to the compiled glyph objects *)

(** The glyph object behind the reference [ttglyph]; reading attribute
    [attr] of something that is not a glyph object fails. *)
Definition deref (ttglyph : string) (attr : string) : M TTGlyph :=
  f <- get_otf ;;
  match glyf f !! ttglyph with
  | Some g => ret g
  | None => raise (AttributeError
              ("'NoneType' object has no attribute '" +:+ attr +:+ "'"))
  end.

Definition set_glyf (m : gmap string TTGlyph) (f : TTFont) : TTFont :=
  mkTTFont m (hmtx f) (maxp f) (programs f) (cvt f).

(** [ttglyph.program = p] and [delattr(ttglyph, "program")] *)
Definition with_program (p : option Program) (g : TTGlyph) : TTGlyph :=
  mkTTGlyph (geometry g) p.

Definition set_program (ttglyph : string) (p : option Program) : M unit :=
  f <- get_otf ;;
  put_otf (set_glyf (alter (with_program p) ttglyph (glyf f)) f).

(** In-place update of [ttglyph.components[i].flags]. *)
Definition with_flags (h : Z -> Z) (c : GlyphComponent) : GlyphComponent :=
  mkGlyphComponent (glyphName c) (x c) (y c) (h (flags c)).

Definition update_component (i : nat) (h : Z -> Z) (g : TTGlyph) : TTGlyph :=
  match geometry g with
  | Components cs => mkTTGlyph (Components (alter (with_flags h) i cs)) (program g)
  | Outline _ _ => g
  end.

Definition upd_flags (ttglyph : string) (i : nat) (h : Z -> Z) (f : TTFont)
  : TTFont :=
  set_glyf (alter (update_component i h) ttglyph (glyf f)) f.

Definition update_flags (ttglyph : string) (i : nat) (h : Z -> Z) : M unit :=
  f <- get_otf ;;
  put_otf (upd_flags ttglyph i h f).

(** [c.flags |= mask] and [c.flags &= ~mask] *)
Definition set_flag (ttglyph : string) (i : nat) (mask : Z) : M unit :=
  update_flags ttglyph i (fun fl => Z.lor fl mask).

Definition clear_flag (ttglyph : string) (i : nat) (mask : Z) : M unit :=
  update_flags ttglyph i (fun fl => Z.land fl (Z.lnot mask)).

(** [Program.fromAssembly]: text is stored, anything else is refused. *)
Definition fromAssembly (asm : pyval) : exn + Program :=
  match asm with
  | PyStr s => inr (Program_assembly s)
  | v => inl (TypeError ("expected str or List[str], got " +:+ type_name v))
  end.

(** One item of [array.array("h", ...)]: a signed 16-bit integer. *)
Definition array_h_item (v : pyval) : exn + Z :=
  match v with
  | PyInt n =>
      if ((-32768 <=? n) && (n <=? 32767))%Z then inr n else inl OverflowError
  | PyBool b => inr (Z.b2z b)
  | v => inl (TypeError
           ("'" +:+ type_name v +:+ "' object cannot be interpreted as an integer"))
  end.

Fixpoint array_h (l : list pyval) : exn + list Z :=
  match l with
  | [] => inr []
  | v :: l' =>
      match array_h_item v with
      | inl e => inl e
      | inr n =>
          match array_h l' with
          | inl e => inl e
          | inr ns => inr (n :: ns)
          end
      end
  end.

(** [max(l)] on integers *)
Definition py_max (l : list Z) : exn + Z :=
  match l with
  | [] => inl (ValueError "max() arg is an empty sequence")
  | n :: l' => inr (foldl Z.max n l')
  end.

(** [if use_my_metrics_comp:] on an optional identifier *)
Definition id_truthy (o : option string) : bool :=
  match o with
  | None => false
  | Some s => negb (String.eqb s "")
  end.

(** ** The instruction compiler *)

Section InstructionCompiler.

(** [self.ufo] and [self.autoUseMyMetrics] *)
Variable ufo : Font.
Variable autoUseMyMetrics : bool.

(** The collaborators from fontTools and the Python runtime:
    [HashPointPen(width, otf.getGlyphSet())] fed by
    [ttglyph.drawPoints(pen, otf["glyf"])], which gives the hash or the
    exception that drawing the glyph raises ([MissingComponentError] for a
    component that the glyph set does not have); the assembler behind
    [Program.getBytecode] ([None] when it rejects the text); and [int] on a
    string ([None] for [ValueError]). *)
Variable HashPointPen_hash : Z -> TTFont -> TTGlyph -> exn + string.
Variable assemble : string -> option (list Byte.byte).
Variable int : string -> option Z.

Definition _check_glyph_hash (glyph : Glyph) (ttglyph : string)
    (glyph_hash : pyval) : M bool :=
  f <- get_otf ;;
  metrics <- match hmtx f !! name glyph with
             | Some m => ret m
             | None => raise (KeyError (name glyph))
             end ;;
  let ttwidth := fst metrics in
  g <- deref ttglyph "drawPoints" ;;
  hash <- lift (HashPointPen_hash ttwidth f g) ;;
  if is_None glyph_hash then
    logger ERROR ("Glyph hash missing, glyph '" +:+ name glyph +:+
                  "' will have no instructions in font.") ;;
    ret false
  else if match glyph_hash with
          | PyStr s => negb (String.eqb s hash)
          | _ => true
          end then
    logger ERROR ("Glyph hash mismatch, glyph '" +:+ name glyph +:+
                  "' will have no instructions in font.") ;;
    ret false
  else ret true.

Definition _check_tt_data_format (ttdata : pyval) (name : string) : M unit :=
  formatVersion <- py_get ttdata "formatVersion" PyNone ;;
  match formatVersion with
  | PyStr s =>
      if negb (String.eqb s "1") then
        raise (NotImplementedError
                 ("Unknown formatVersion " +:+ s +:+
                  " for instructions in " +:+ name +:+ "."))
      else ret tt
  | v =>
      raise (TypeError
               ("Illegal type '" +:+ type_name v +:+
                "' instead of 'str' for formatVersion for instructions in "
                +:+ name +:+ "."))
  end.

Definition set_table_program (table_tag : string) (p : Program) : M unit :=
  f <- get_otf ;;
  put_otf (mkTTFont (glyf f) (hmtx f) (maxp f)
             (<[table_tag := p]> (programs f)) (cvt f)).

Definition _compile_program (key table_tag : string) : M unit :=
  if negb (String.eqb table_tag "prep" || String.eqb table_tag "fpgm") then
    raise AssertionError
  else
    let ttdata := dict_get (font_lib ufo) TRUETYPE_INSTRUCTIONS_KEY PyNone in
    if truthy ttdata then
      _check_tt_data_format ttdata ("lib key '" +:+ key +:+ "'") ;;
      asm <- py_get ttdata key PyNone ;;
      if is_None asm then ret tt
      else if negb (truthy asm) then
        logger DEBUG ("Assembly for table '" +:+ table_tag +:+
                      "' is empty, table not added to font.")
      else
        set_table_program table_tag Program_new ;;
        p <- lift (fromAssembly asm) ;;
        set_table_program table_tag p
    else ret tt.

Definition _compile_tt_glyph_program (glyph : Glyph) (ttglyph : string)
    (ttdata : pyval) : M unit :=
  _check_tt_data_format ttdata ("glyph '" +:+ name glyph +:+ "'") ;;
  glyph_hash <- py_get ttdata "id" PyNone ;;
  ok <- _check_glyph_hash glyph ttglyph glyph_hash ;;
  if negb ok then ret tt
  else
    asm <- py_get ttdata "assembly" PyNone ;;
    if is_None asm then
      logger ERROR ("Glyph assembly missing, glyph '" +:+ name glyph +:+
                    "' will have no instructions in font.")
    else if negb (truthy asm) then
      logger DEBUG ("Glyph '" +:+ name glyph +:+ "' has no instructions.")
    else
      set_program ttglyph (Some Program_new) ;;
      p <- lift (fromAssembly asm) ;;
      set_program ttglyph (Some p).

(** The loop of [_set_composite_flags], for component [i] of the compiled
    glyph, in three parts: the condition of the [elif], its body, and the
    block of the overlap flag. *)

(** [OBJECT_LIBS_KEY in glyph.lib and ufo_component_id in
    glyph.lib[OBJECT_LIBS_KEY] and (TRUETYPE_ROUND_KEY in ... or
    TRUETYPE_METRICS_KEY in ...)] *)
Definition has_component_lib (glyph : Glyph) (ufo_component_id : string)
  : M bool :=
  let object_libs := dict_get (lib glyph) OBJECT_LIBS_KEY PyNone in
  if dict_mem OBJECT_LIBS_KEY (lib glyph) then
    listed <- py_in ufo_component_id object_libs ;;
    if listed then
      entry <- py_getitem object_libs ufo_component_id ;;
      rounds <- py_in TRUETYPE_ROUND_KEY entry ;;
      if rounds then ret true
      else py_in TRUETYPE_METRICS_KEY entry
    else ret false
  else ret false.

(** The body of the [elif]; the result is the new value of
    [use_my_metrics_comp]. *)
Definition component_lib_flags (glyph : Glyph) (ttglyph : string) (i : nat)
    (use_my_metrics_comp : option string) (ufo_component_id : string)
  : M (option string) :=
  let object_libs := dict_get (lib glyph) OBJECT_LIBS_KEY PyNone in
  component_lib <- py_getitem object_libs ufo_component_id ;;
  round <- py_get component_lib TRUETYPE_ROUND_KEY (PyBool true) ;;
  (if truthy round then
     logger INFO "    ROUND_XY_TO_GRID" ;;
     set_flag ttglyph i ROUND_XY_TO_GRID
   else clear_flag ttglyph i ROUND_XY_TO_GRID) ;;
  metrics <-
    (if negb autoUseMyMetrics then
       m <- py_get component_lib TRUETYPE_METRICS_KEY (PyBool false) ;;
       ret (truthy m)
     else ret false) ;;
  if metrics then
    clear_flag ttglyph i USE_MY_METRICS ;;
    if id_truthy use_my_metrics_comp then
      logger WARNING
        ("Ignoring USE_MY_METRICS flag on component '" +:+
         ufo_component_id +:+ "' because it has been set on component '"
         +:+ default "" use_my_metrics_comp +:+ "' already in glyph "
         +:+ name glyph +:+ ".") ;;
      ret use_my_metrics_comp
    else
      set_flag ttglyph i USE_MY_METRICS ;;
      ret (Some ufo_component_id)
  else ret use_my_metrics_comp.

(** [if i == 0 and TRUETYPE_OVERLAP_KEY in glyph.lib: ...] *)
Definition overlap_compound_flag (glyph : Glyph) (ttglyph : string) (i : nat)
  : M unit :=
  if Nat.eqb i 0 && dict_mem TRUETYPE_OVERLAP_KEY (lib glyph) then
    if truthy (dict_get (lib glyph) TRUETYPE_OVERLAP_KEY (PyBool false)) then
      set_flag ttglyph i OVERLAP_COMPOUND
    else clear_flag ttglyph i OVERLAP_COMPOUND
  else ret tt.

(** One turn of the loop; the result is the new value of
    [use_my_metrics_comp]. *)
Definition component_flags (glyph : Glyph) (ttglyph : string) (i : nat)
    (use_my_metrics_comp : option string) : M (option string) :=
  uc <- match components glyph !! i with
        | Some uc => ret uc
        | None => raise IndexError
        end ;;
  claimed <-
    match identifier uc with
    | None =>
        set_flag ttglyph i ROUND_XY_TO_GRID ;;
        ret use_my_metrics_comp
    | Some ufo_component_id =>
        has_lib <- has_component_lib glyph ufo_component_id ;;
        if has_lib then
          component_lib_flags glyph ttglyph i use_my_metrics_comp
            ufo_component_id
        else ret use_my_metrics_comp
    end ;;
  overlap_compound_flag glyph ttglyph i ;;
  ret claimed.

(** [for i, c in enumerate(ttglyph.components)], from index [i] on, [cs]
    being the components still to visit. *)
Fixpoint flags_loop (glyph : Glyph) (ttglyph : string) (i : nat)
    (cs : list GlyphComponent) (use_my_metrics_comp : option string) : M unit :=
  match cs with
  | [] => ret tt
  | _ :: cs' =>
      claimed <- component_flags glyph ttglyph i use_my_metrics_comp ;;
      flags_loop glyph ttglyph (S i) cs' claimed
  end.

Definition _set_composite_flags (glyph : Glyph) (ttglyph : string) : M unit :=
  g <- deref ttglyph "components" ;;
  match geometry g with
  | Outline _ _ =>
      raise (AttributeError "'Glyph' object has no attribute 'components'")
  | Components cs =>
      if negb (Nat.eqb (length cs) (length (components glyph))) then
        logger ERROR
          ("Number of components differ between UFO and TTF in glyph '" +:+
           name glyph +:+ "' (" +:+ pretty (length (components glyph)) +:+
           " vs. " +:+ pretty (length cs) +:+
           ", not setting component flags fromUFO. They may still be set heuristically.")
      else flags_loop glyph ttglyph 0 cs None
  end.

Definition compileGlyphInstructions (ttGlyph : string) (name : string) : M unit :=
  match glyphs ufo !! name with
  | None =>
      logger INFO ("Skipping compilation of instructions for glyph '" +:+ name
                   +:+ "' because it is not in the input UFO.")
  | Some glyph =>
      let ttdata := dict_get (lib glyph) TRUETYPE_INSTRUCTIONS_KEY PyNone in
      (if negb (is_None ttdata) then
         _compile_tt_glyph_program glyph ttGlyph ttdata
       else ret tt) ;;
      g <- deref ttGlyph "isComposite" ;;
      if isComposite g then
        (match program g with
         | Some p =>
             if negb (Program_bool p) then
               logger DEBUG ("Removing empty program from composite glyph '"
                             +:+ name +:+ "'") ;;
               set_program ttGlyph None
             else ret tt
         | None => ret tt
         end) ;;
        _set_composite_flags glyph ttGlyph
      else ret tt
  end.

(** [setattr(maxp, name, value)] *)
Definition setattr_maxp (name : string) (value : pyval) : M unit :=
  f <- get_otf ;;
  put_otf (mkTTFont (glyf f) (hmtx f) (<[name := value]> (maxp f))
             (programs f) (cvt f)).

(** The capacity fields copied from the font-level record, in the order
    of the source. *)
Definition maxp_names : list string :=
  [ "maxStorage"; "maxFunctionDefs"; "maxInstructionDefs";
    "maxStackElements"; "maxZones"; "maxTwilightPoints" ].

Fixpoint copy_maxp (ttdata : pyval) (names : list string) : M unit :=
  match names with
  | [] => ret tt
  | name :: names' =>
      value <- py_get ttdata name PyNone ;;
      (if negb (is_None value) then setattr_maxp name value else ret tt) ;;
      copy_maxp ttdata names'
  end.

(** [Program.getBytecode]: assembles on demand; a program without
    assembly and without bytecode assembles to no bytes.  (The assembled
    bytes are cached in the object; its truth value and its bytecode stay
    what they were.) *)
Definition getBytecode (p : Program) : exn + list Byte.byte :=
  match p with
  | Program_new => inr []
  | Program_assembly asm =>
      match assemble asm with
      | Some bc => inr bc
      | None => inl tt_instructions_error
      end
  | Program_bytecode bc => inr bc
  end.

(** [[len(g.program.getBytecode()) for g in gs if hasattr(g, "program")]] *)
Fixpoint program_sizes (gs : list TTGlyph) : exn + list nat :=
  match gs with
  | [] => inr []
  | g :: gs' =>
      match program g with
      | None => program_sizes gs'
      | Some p =>
          match getBytecode p with
          | inl e => inl e
          | inr bc =>
              match program_sizes gs' with
              | inl e => inl e
              | inr sizes => inr (length bc :: sizes)
              end
          end
      end
  end.

(** The glyph objects of [otf["glyf"].glyphs.values()].  The order of the
    visit only decides which of several failing programs raises first. *)
Definition glyf_values (f : TTFont) : list TTGlyph :=
  snd <$> map_to_list (glyf f).

Definition update_maxp : M unit :=
  let ttdata := dict_get (font_lib ufo) TRUETYPE_INSTRUCTIONS_KEY PyNone in
  (if truthy ttdata then copy_maxp ttdata maxp_names else ret tt) ;;
  f <- get_otf ;;
  sizes <- lift (program_sizes (glyf_values f)) ;;
  setattr_maxp "maxSizeOfInstructions" (PyInt (Z.of_nat (max_list sizes))).

(** [{int(k): v for k, v in cvt_dict.items()}]: a later item replaces an
    earlier one with the same integer key. *)
Fixpoint int_keys (items : pydict) (acc : gmap Z pyval)
  : exn + gmap Z pyval :=
  match items with
  | [] => inr acc
  | (k, v) :: items' =>
      match int k with
      | None => inl (ValueError
                  ("invalid literal for int() with base 10: '" +:+ k +:+ "'"))
      | Some n => int_keys items' (<[n := v]> acc)
      end
  end.

(** [cvt_dict.keys()] *)
Definition int_dict_keys (m : gmap Z pyval) : list Z :=
  fst <$> map_to_list m.

Definition setupTable_cvt : M unit :=
  let ttdata := dict_get (font_lib ufo) TRUETYPE_INSTRUCTIONS_KEY PyNone in
  cvts <-
    (if truthy ttdata then
       _check_tt_data_format ttdata "key 'controlValue'" ;;
       cvt_dict <- py_get ttdata "controlValue" PyNone ;;
       if truthy cvt_dict then
         items <- match cvt_dict with
                  | PyDict d => ret d
                  | v => raise (AttributeError
                           ("'" +:+ type_name v +:+
                            "' object has no attribute 'items'"))
                  end ;;
         cvt_dict <- lift (int_keys items ∅) ;;
         max_cvt <- lift (py_max (int_dict_keys cvt_dict)) ;;
         ret ((fun i => default (PyInt 0) (cvt_dict !! i))
                <$> seqZ 0 (max_cvt + 1))
       else ret []
     else ret []) ;;
  match cvts with
  | [] => ret tt
  | _ =>
      f <- get_otf ;;
      put_otf (mkTTFont (glyf f) (hmtx f) (maxp f) (programs f)
                 (Some (mk_cvt None))) ;;
      vals <- lift (array_h cvts) ;;
      f <- get_otf ;;
      put_otf (mkTTFont (glyf f) (hmtx f) (maxp f) (programs f)
                 (Some (mk_cvt (Some vals))))
  end.

Definition setupTable_fpgm : M unit := _compile_program "fontProgram" "fpgm".

Definition setupTable_prep : M unit :=
  _compile_program "controlValueProgram" "prep".

End InstructionCompiler.


(** ** Collaborators for concrete runs *)

(** [int] on ASCII text: blanks around (tab to carriage return, and the
    space), an optional sign, decimal digits with single underscores
    between them. *)
Definition is_space (c : Ascii.ascii) : bool :=
  let n := Ascii.nat_of_ascii c in
  (Nat.leb 9 n && Nat.leb n 13) || Nat.eqb n 32.

Definition digit_of (c : Ascii.ascii) : option Z :=
  let n := Ascii.nat_of_ascii c in
  if Nat.leb 48 n && Nat.leb n 57 then Some (Z.of_nat (n - 48)) else None.

Fixpoint lstrip (l : list Ascii.ascii) : list Ascii.ascii :=
  match l with
  | c :: l' => if is_space c then lstrip l' else l
  | [] => []
  end.

Fixpoint int_digits (acc : Z) (after_digit : bool) (l : list Ascii.ascii) : option Z :=
  match l with
  | [] => if after_digit then Some acc else None
  | c :: l' =>
      if Ascii.eqb c "_"%char then
        if after_digit then int_digits acc false l' else None
      else
        match digit_of c with
        | Some n => int_digits (10 * acc + n)%Z true l'
        | None => None
        end
  end.

Definition int_ascii (s : string) : option Z :=
  let l := lstrip (rev (lstrip (rev (String.list_ascii_of_string s)))) in
  match l with
  | c :: l' =>
      if Ascii.eqb c "-"%char then Z.opp <$> int_digits 0 false l'
      else if Ascii.eqb c "+"%char then int_digits 0 false l'
      else int_digits 0 false l
  | [] => None
  end.

(** A fragment of the assembler: blank text, and the texts [SVTCA[arg]]
    and [IUP[arg]] of one instruction with one argument bit. *)

(** White space of the assembler's tokens and of [str.strip]. *)
Definition is_white (c : Ascii.ascii) : bool :=
  let n := Ascii.nat_of_ascii c in
  (Nat.leb 9 n && Nat.leb n 13) || (Nat.leb 28 n && Nat.leb n 32).

Fixpoint lstrip_white (l : list Ascii.ascii) : list Ascii.ascii :=
  match l with
  | c :: l' => if is_white c then lstrip_white l' else l
  | [] => []
  end.

(** The argument of a text [mnemonic[arg]], for [arg] without a closing
    bracket and without a line feed. *)
Definition instruction_arg (mnemonic asm : string) : option (list Ascii.ascii) :=
  let p := String.list_ascii_of_string (mnemonic +:+ "[") in
  let l := String.list_ascii_of_string asm in
  if bool_decide (take (length p) l = p) then
    match rev (drop (length p) l) with
    | c :: body =>
        if Ascii.eqb c "]"%char
           && forallb (fun b => negb (Ascii.eqb b "]"%char)
                                && negb (Nat.eqb (Ascii.nat_of_ascii b) 10)) body
        then Some (rev body)
        else None
    | [] => None
    end
  else None.

(** The value of an argument of one bit: the stripped argument is one
    character, which counts as 0 when it is the digit 0 and as 1
    otherwise; [None] for any other number of argument bits. *)
Definition argument_bit (arg : list Ascii.ascii) : option bool :=
  match lstrip_white (rev (lstrip_white (rev arg))) with
  | [c] => Some (negb (Ascii.eqb c "0"%char))
  | _ => None
  end.

(** Blank text assembles to no bytes; [SVTCA] is opcode 0x00 and [IUP]
    opcode 0x30, the argument bit added; a wrong number of argument bits is
    rejected.  Every other text is outside the fragment, and answered by
    [None] as well. *)
Definition assemble_one (asm : string) : option (list Byte.byte) :=
  if forallb is_white (String.list_ascii_of_string asm) then Some []
  else
    match instruction_arg "SVTCA" asm with
    | Some arg =>
        (fun b : bool => [if b then Byte.x01 else Byte.x00]) <$> argument_bit arg
    | None =>
        match instruction_arg "IUP" asm with
        | Some arg =>
            (fun b : bool => [if b then Byte.x31 else Byte.x30])
              <$> argument_bit arg
        | None => None
        end
    end.

(** A stand-in for the hash pen.  Drawing a composite draws its
    components through the glyph set in turn: a component whose glyph has
    no advance width or no outline in the font, or whose own drawing ends
    in a key error, raises [MissingComponentError] with the name of that
    component; components that go round in a circle exhaust the recursion
    ([fuel] is the depth left). *)
Fixpoint drawPoints (fuel : nat) (f : TTFont) (g : TTGlyph) : exn + unit :=
  match geometry g with
  | Outline _ _ => inr tt
  | Components cs =>
      match fuel with
      | 0 => inl RecursionError
      | S fuel' =>
          foldl (fun (drawn : exn + unit) (c : GlyphComponent) =>
                   match drawn with
                   | inl e => inl e
                   | inr _ =>
                       match hmtx f !! glyphName c, glyf f !! glyphName c with
                       | Some _, Some g' =>
                           match drawPoints fuel' f g' with
                           | inl (MissingComponentError _) | inl (KeyError _) =>
                               inl (MissingComponentError (glyphName c))
                           | drawn' => drawn'
                           end
                       | _, _ => inl (MissingComponentError (glyphName c))
                       end
                   end) (inr tt) cs
      end
  end.

(** The hash of the stand-in tells glyphs apart by advance width and by
    kind. *)
Definition hash_by_width (width : Z) (f : TTFont) (g : TTGlyph) : exn + string :=
  match drawPoints (S (size (glyf f))) f g with
  | inl e => inl e
  | inr _ => inr ("w" +:+ pretty width +:+ (if isComposite g then "c" else "s"))
  end.

(** ** Sample fonts *)

(** A compiled font with a simple glyph ["a"] and a composite ["h"] of two
    components, each glyph carrying the empty program the glyph pen
    leaves. *)
Definition sample_glyf : gmap string TTGlyph :=
  {[ "a" := mkTTGlyph (Outline [(0, 0, true); (100, 0, true); (50, 80, true)]%Z [2])
              (Some (Program_bytecode []));
     "h" := mkTTGlyph (Components [mkGlyphComponent "a" 0 0 0;
                                   mkGlyphComponent "a" 120 0 0])
              (Some (Program_bytecode [])) ]}.

Definition sample_otf : TTFont :=
  mkTTFont sample_glyf {[ "a" := (500, 40)%Z; "h" := (600, 40)%Z ]}
    {[ "maxZones" := PyInt 1; "maxSizeOfInstructions" := PyInt 0 ]} ∅ None.

Definition sample_world : World := mkWorld sample_otf [].

(** A source font from its hint record and its glyphs. *)
Definition font_of (record : option pyval) (gs : list Glyph) : Font :=
  mkFont (match record with
          | Some r => [(TRUETYPE_INSTRUCTIONS_KEY, r)]
          | None => []
          end)
         (list_to_map ((fun g => (name g, g)) <$> gs)).

(** A source glyph from its hint record, its other lib entries and the
    identifiers of its components. *)
Definition glyph_of (nm : string) (record : option pyval) (more : pydict)
    (ids : list (option string)) : Glyph :=
  mkGlyph nm
    (match record with
     | Some r => (TRUETYPE_INSTRUCTIONS_KEY, r) :: more
     | None => more
     end)
    (mkComponent "a" <$> ids).

(** A source font whose version-1 hint record holds the control values
    [cv]. *)
Definition cvt_font (cv : pydict) : Font :=
  font_of (Some (PyDict [("formatVersion", PyStr "1");
                         ("controlValue", PyDict cv)])) [].

Definition cvt_example : pydict :=
  [("1", PyInt 500); ("2", PyInt 750); ("3", PyInt (-250))].

(** A source font that authors every capacity field, the derived one
    included, and a compiled font whose glyph ["a"] has a program of one
    instruction. *)
Definition limits_font : Font :=
  font_of (Some (PyDict [("formatVersion", PyStr "1");
                         ("maxStorage", PyInt 1);
                         ("maxFunctionDefs", PyInt 1);
                         ("maxInstructionDefs", PyInt 1);
                         ("maxStackElements", PyInt 1);
                         ("maxSizeOfInstructions", PyInt 9);
                         ("maxZones", PyInt 2);
                         ("maxTwilightPoints", PyInt 1)])) [].

Definition hinted_glyf : gmap string TTGlyph :=
  {[ "a" := mkTTGlyph (Outline [(0, 0, true); (100, 0, true); (50, 80, true)]%Z [2])
              (Some (Program_assembly "IUP[1]"));
     "h" := mkTTGlyph (Components [mkGlyphComponent "a" 0 0 0;
                                   mkGlyphComponent "a" 120 0 0])
              None ]}.

Definition hinted_world : World :=
  mkWorld (set_glyf hinted_glyf sample_otf) [].

(** A glyph-level record. *)
Definition glyph_record (version : pyval) (id assembly : string) : pyval :=
  PyDict [("formatVersion", version); ("id", PyStr id);
          ("assembly", PyStr assembly)].

(** The source glyph ["a"] with a version-1 record whose hash is the one
    [hash_by_width] computes for the compiled ["a"]. *)
Definition hinted_a : Glyph :=
  glyph_of "a" (Some (glyph_record (PyStr "1") "w500s" "IUP[1]")) [] [].

(** The source glyph ["h"] with a version-1 record whose hash is the one
    [hash_by_width] computes for the compiled composite ["h"], once with a
    program of one instruction and once with an assembly of one space. *)
Definition hinted_h : Glyph :=
  glyph_of "h" (Some (glyph_record (PyStr "1") "w600c" "SVTCA[0]")) []
    [None; None].

Definition blank_h : Glyph :=
  glyph_of "h" (Some (glyph_record (PyStr "1") "w600c" " ")) [] [None; None].

(** The per-component metadata in which every listed component requests
    USE_MY_METRICS. *)
Definition metrics_libs (ids : list string) : pydict :=
  [(OBJECT_LIBS_KEY,
    PyDict ((fun id => (id, PyDict [(TRUETYPE_METRICS_KEY, PyBool true)]))
              <$> ids))].

(** ** Vocabulary of the specification *)

(** The two hard failures of the Format Guard, by kind. *)
Definition is_FormatError (e : exn) : bool :=
  match e with TypeError _ => true | _ => false end.

Definition is_UnsupportedVersionError (e : exn) : bool :=
  match e with NotImplementedError _ => true | _ => false end.

(** A record's declared version is the supported one. *)
Definition supported_version (d : pydict) : Prop :=
  dict_lookup "formatVersion" d = Some (PyStr "1").

(** The value a control-value mapping gives index [i]: that of the last
    item whose key denotes [i]. *)
Fixpoint cvt_entry (int : string -> option Z) (i : Z) (cv : pydict)
  : option pyval :=
  match cv with
  | [] => None
  | (k, v) :: cv' =>
      match cvt_entry int i cv' with
      | Some v' => Some v'
      | None => if decide (int k = Some i) then Some v else None
      end
  end.

(** [mx] is the largest index a key of the mapping denotes. *)
Definition is_max_key (int : string -> option Z) (cv : pydict) (mx : Z) : Prop :=
  is_Some (cvt_entry int mx cv) /\
  forall i, is_Some (cvt_entry int i cv) -> (i <= mx)%Z.

(** Every key is the text of an integer and every value is a signed 16-bit
    integer. *)
Definition cvt_entries_valid (int : string -> option Z) (cv : pydict) : Prop :=
  Forall (fun kv => is_Some (int (fst kv)) /\
                    exists z, snd kv = PyInt z /\ (-32768 <= z <= 32767)%Z) cv.

Definition int_value (v : pyval) : Z :=
  match v with PyInt z => z | _ => 0%Z end.

(** The output font with its control-value table replaced. *)
Definition with_cvt (t : option table__c_v_t) (f : TTFont) : TTFont :=
  mkTTFont (glyf f) (hmtx f) (maxp f) (programs f) t.

(** The table the builder writes for a mapping whose largest index is [mx]. *)
Definition cvt_values (int : string -> option Z) (cv : pydict) (mx : Z) : list Z :=
  (fun i => int_value (default (PyInt 0) (cvt_entry int i cv))) <$> seqZ 0 (mx + 1).

(** The output font with the attributes of its [maxp] table replaced. *)
Definition with_maxp (m : gmap string pyval) (f : TTFont) : TTFont :=
  mkTTFont (glyf f) (hmtx f) m (programs f) (cvt f).

(** The value a hint record authors for field [n], if any. *)
Definition authored_field (record : pyval) (n : string) : option pyval :=
  match record with
  | PyDict d =>
      match dict_lookup n d with
      | Some PyNone | None => None
      | Some v => Some v
      end
  | _ => None
  end.

(** [size] is the largest bytecode length among the glyph programs of the
    font, and 0 when no glyph has a program. *)
Definition is_max_program_size (assemble : string -> option (list Byte.byte))
    (f : TTFont) (size : nat) : Prop :=
  (forall k g p bc,
      glyf f !! k = Some g -> program g = Some p ->
      getBytecode assemble p = inr bc -> length bc <= size) /\
  ((exists k g p bc,
       glyf f !! k = Some g /\ program g = Some p /\
       getBytecode assemble p = inr bc /\ length bc = size) \/
   (size = 0 /\ forall k g, glyf f !! k = Some g -> program g = None)).

(** [flags & mask] is not zero. *)
Definition has_flag (mask fl : Z) : bool := negb (Z.land fl mask =? 0)%Z.

(** The flags of component [j] of the compiled glyph [ttglyph]. *)
Definition flags_at (f : TTFont) (ttglyph : string) (j : nat) : option Z :=
  match glyf f !! ttglyph with
  | Some g =>
      match geometry g with
      | Components cs => flags <$> cs !! j
      | Outline _ _ => None
      end
  | None => None
  end.

(** The glyph-level overlap flag, when the glyph's metadata carries one. *)
Definition overlap_flag (glyph : Glyph) : option bool :=
  truthy <$> dict_lookup TRUETYPE_OVERLAP_KEY (lib glyph).

(** The metadata recorded for component [j] under its identifier. *)
Definition component_lib (glyph : Glyph) (j : nat) : option pydict :=
  match components glyph !! j with
  | Some uc =>
      match identifier uc with
      | Some id =>
          match dict_lookup OBJECT_LIBS_KEY (lib glyph) with
          | Some (PyDict libs) =>
              match dict_lookup id libs with
              | Some (PyDict cl) => Some cl
              | _ => None
              end
          | _ => None
          end
      | None => None
      end
  | None => None
  end.

(** Component [j]'s metadata requests USE_MY_METRICS. *)
Definition requests_metrics (glyph : Glyph) (j : nat) : bool :=
  match component_lib glyph j with
  | Some cl => truthy (dict_get cl TRUETYPE_METRICS_KEY (PyBool false))
  | None => false
  end.

(** The per-component metadata of the glyph, when present, is a dictionary
    of dictionaries. *)
Definition well_typed_object_libs (glyph : Glyph) : Prop :=
  match dict_lookup OBJECT_LIBS_KEY (lib glyph) with
  | None => True
  | Some (PyDict libs) =>
      forall id v, dict_lookup id libs = Some v -> exists cl, v = PyDict cl
  | Some _ => False
  end.

(** The glyph with the flags of its component [j] mapped by [H j]. *)
Definition map_flags (H : nat -> Z -> Z) (g : TTGlyph) : TTGlyph :=
  match geometry g with
  | Components cs =>
      mkTTGlyph (Components (imap (fun j => with_flags (H j)) cs)) (program g)
  | Outline _ _ => g
  end.

Definition upd_all (ttglyph : string) (H : nat -> Z -> Z) (f : TTFont) : TTFont :=
  set_glyf (alter (map_flags H) ttglyph (glyf f)) f.

(** The output font with the program attribute of [ttglyph] set to [p]
    ([None]: the attribute removed). *)
Definition with_program_at (ttglyph : string) (p : option Program) (f : TTFont)
  : TTFont :=
  set_glyf (alter (with_program p) ttglyph (glyf f)) f.

(** The program attribute a composite glyph is left with once an empty
    program has been removed; a simple glyph keeps what it has. *)
Definition stripped (g : TTGlyph) : option Program :=
  if isComposite g then
    match program g with
    | Some p => if Program_bool p then Some p else None
    | None => None
    end
  else program g.

(** The [assembly] entry of a glyph record, when it is there and not
    empty, is text. *)
Definition assembly_is_text (d : pydict) : Prop :=
  truthy (dict_get d "assembly" PyNone) = true ->
  exists s, dict_get d "assembly" PyNone = PyStr s.

(** The assembly texts that a call for [glyph] can leave on the compiled
    glyph [g]: the text of the program that [g] comes with, and the
    assembly of the glyph's record. *)
Definition text_in_play (glyph : Glyph) (g : TTGlyph) (s : string) : Prop :=
  program g = Some (Program_assembly s) \/
  exists d, dict_lookup TRUETYPE_INSTRUCTIONS_KEY (lib glyph) = Some (PyDict d) /\
            dict_lookup "assembly" d = Some (PyStr s).

(** The number of warnings in a log. *)
Fixpoint count_warnings (l : list (level * string)) : nat :=
  match l with
  | [] => 0
  | (WARNING, _) :: l' => S (count_warnings l')
  | _ :: l' => count_warnings l'
  end.

(** The number of components among [n] from index [i] on whose metadata
    requests USE_MY_METRICS, and whether none does. *)
Fixpoint count_claims (glyph : Glyph) (i n : nat) : nat :=
  match n with
  | 0 => 0
  | S n' => (if requests_metrics glyph i then 1 else 0)
            + count_claims glyph (S i) n'
  end.

Fixpoint no_claim (glyph : Glyph) (i n : nat) : bool :=
  match n with
  | 0 => true
  | S n' => negb (requests_metrics glyph i) && no_claim glyph (S i) n'
  end.

(** Either of the Format Guard's two hard errors. *)
Definition hard_format_error (e : exn) : bool :=
  is_FormatError e || is_UnsupportedVersionError e.

(** One step of the resolver's loop seen from outside: a change [h] of
    the flags of component [i] of [ttglyph], and the messages [l] appended
    to the log. *)
Definition apply_step (ttglyph : string) (i : nat) (h : Z -> Z)
    (l : list (level * string)) (w : World) : World :=
  mkWorld (upd_flags ttglyph i h (otf w)) (log w ++ l).

(** [m] returns [r] and acts on the world as [apply_step h l], whatever
    the world. *)
Definition pure_step {A} (ttglyph : string) (i : nat) (m : M A)
    (r : exn + A) (h : Z -> Z) (l : list (level * string)) : Prop :=
  forall w, m w = (r, apply_step ttglyph i h l w).

(** ** Frames: what a pass leaves alone *)

(** The log of [w'] extends the log of [w]. *)
Definition log_extends (w w' : World) : Prop :=
  exists l, log w' = (log w ++ l)%list.

(** The bits of ROUND_XY_TO_GRID, USE_MY_METRICS and OVERLAP_COMPOUND. *)
Definition resolver_bit (n : Z) : Prop := n = 2%Z \/ n = 9%Z \/ n = 10%Z.

(** [c'] is [c] up to the three flags above. *)
Definition same_component (c c' : GlyphComponent) : Prop :=
  glyphName c' = glyphName c /\ x c' = x c /\ y c' = y c /\
  forall n, ~ resolver_bit n -> Z.testbit (flags c') n = Z.testbit (flags c) n.

(** [g'] has the outline of [g], or the components of [g] up to the three
    flags. *)
Definition same_shape (g g' : TTGlyph) : Prop :=
  match geometry g, geometry g' with
  | Outline pts ends, Outline pts' ends' => pts' = pts /\ ends' = ends
  | Components cs, Components cs' => Forall2 same_component cs cs'
  | _, _ => False
  end.

(** [same_shape], with the program attribute kept as well. *)
Definition same_hinted_shape (g g' : TTGlyph) : Prop :=
  program g' = program g /\ same_shape g g'.

(** From [w] to [w'] only the glyph object [ttglyph] changed, within [Rg],
    and the log grew. *)
Definition frame_of (Rg : TTGlyph -> TTGlyph -> Prop) (ttglyph : string)
    (w w' : World) : Prop :=
  hmtx (otf w') = hmtx (otf w) /\ maxp (otf w') = maxp (otf w) /\
  programs (otf w') = programs (otf w) /\ cvt (otf w') = cvt (otf w) /\
  (forall k, k <> ttglyph -> glyf (otf w') !! k = glyf (otf w) !! k) /\
  option_Forall2 Rg (glyf (otf w) !! ttglyph) (glyf (otf w') !! ttglyph) /\
  log_extends w w'.

Definition glyph_frame : string -> World -> World -> Prop := frame_of same_shape.

Definition resolver_frame : string -> World -> World -> Prop :=
  frame_of same_hinted_shape.

(** From [w] to [w'] only the program of table [table_tag] changed, and
    the log grew. *)
Definition program_frame (table_tag : string) (w w' : World) : Prop :=
  glyf (otf w') = glyf (otf w) /\ hmtx (otf w') = hmtx (otf w) /\
  maxp (otf w') = maxp (otf w) /\ cvt (otf w') = cvt (otf w) /\
  (forall t, t <> table_tag -> programs (otf w') !! t = programs (otf w) !! t) /\
  log_extends w w'.

(** From [w] to [w'] only the control-value table changed. *)
Definition cvt_frame (w w' : World) : Prop :=
  glyf (otf w') = glyf (otf w) /\ hmtx (otf w') = hmtx (otf w) /\
  maxp (otf w') = maxp (otf w) /\ programs (otf w') = programs (otf w) /\
  log w' = log w.

(** From [w] to [w'] only capacity fields of [maxp] changed: the six
    copied ones and the derived one. *)
Definition maxp_frame (w w' : World) : Prop :=
  glyf (otf w') = glyf (otf w) /\ hmtx (otf w') = hmtx (otf w) /\
  programs (otf w') = programs (otf w) /\ cvt (otf w') = cvt (otf w) /\
  (forall n, n ∉ maxp_names -> n <> "maxSizeOfInstructions" ->
             maxp (otf w') !! n = maxp (otf w) !! n) /\
  log w' = log w.

(** Whatever its outcome, [m] takes a world to one related to it by [R]. *)
Definition preserves (R : World -> World -> Prop) {A} (m : M A) : Prop :=
  forall w, R w (snd (m w)).

(** The two glyph objects of the sample font. *)
Definition sample_a : TTGlyph :=
  mkTTGlyph (Outline [(0, 0, true); (100, 0, true); (50, 80, true)]%Z [2])
    (Some (Program_bytecode [])).

Definition sample_h : TTGlyph :=
  mkTTGlyph (Components [mkGlyphComponent "a" 0 0 0; mkGlyphComponent "a" 120 0 0])
    (Some (Program_bytecode [])).

(** The output font with the program of table [table_tag] set to [p]. *)
Definition with_table_program (table_tag : string) (p : Program) (f : TTFont)
  : TTFont :=
  mkTTFont (glyf f) (hmtx f) (maxp f) (<[table_tag := p]> (programs f)) (cvt f).

(** The world [w] with one more diagnostic. *)
Definition logged (w : World) (lvl : level) (msg : string) : World :=
  mkWorld (otf w) (log w ++ [(lvl, msg)]).

(** What the resolver decides about ROUND_XY_TO_GRID for the component with
    identifier [id]: the value of the rounding entry of its metadata (true
    when there is none) if the metadata has a rounding or a metrics entry,
    and nothing otherwise. *)
Definition lib_round_rule (glyph : Glyph) (id : string) : option bool :=
  match dict_lookup OBJECT_LIBS_KEY (lib glyph) with
  | Some (PyDict libs) =>
      match dict_lookup id libs with
      | Some (PyDict cl) =>
          if dict_mem TRUETYPE_ROUND_KEY cl || dict_mem TRUETYPE_METRICS_KEY cl
          then Some (truthy (dict_get cl TRUETYPE_ROUND_KEY (PyBool true)))
          else None
      | _ => None
      end
  | _ => None
  end.

(** What the resolver decides about ROUND_XY_TO_GRID for component [j]: set
    when the source component has no identifier, as its metadata says when
    it has one. *)
Definition round_rule (glyph : Glyph) (j : nat) : option bool :=
  match components glyph !! j with
  | Some uc =>
      match identifier uc with
      | None => Some true
      | Some id => lib_round_rule glyph id
      end
  | None => None
  end.

(** [h] keeps bit [n] of the flags. *)
Definition keeps_bit (n : Z) (h : Z -> Z) : Prop :=
  forall z, Z.testbit (h z) n = Z.testbit z n.

(** [h] is an edit of the resolver's flags: every bit is kept, or it is one
    of the three and gets a value that does not depend on the flags. *)
Definition flag_edit (h : Z -> Z) : Prop :=
  forall n, keeps_bit n h \/
            (resolver_bit n /\ exists b : bool, forall z, Z.testbit (h z) n = b).

(** [m] acts as one step on component [i] of [ttglyph], with a change of
    the flags within [P]. *)
Definition steps_as (P : (Z -> Z) -> Prop) (ttglyph : string) (i : nat) {A}
    (m : M A) : Prop :=
  exists r h l, pure_step ttglyph i m r h l /\ P h.

(** What the resolver does to OVERLAP_COMPOUND of component [j]: the
    glyph-level overlap flag decides for component 0. *)
Definition apply_overlap (glyph : Glyph) (j : nat) (fl : Z) : Z :=
  match j, overlap_flag glyph with
  | 0, Some true => Z.lor fl OVERLAP_COMPOUND
  | 0, Some false => Z.land fl (Z.lnot OVERLAP_COMPOUND)
  | _, _ => fl
  end.

(** A source glyph for the composite ["h"]: the first component has no
    identifier, the second has one and metadata that switches rounding
    off. *)
Definition unrounded_h : Glyph :=
  glyph_of "h" None
    [(OBJECT_LIBS_KEY,
      PyDict [("c1", PyDict [(TRUETYPE_ROUND_KEY, PyBool false)])])]
    [None; Some "c1"].

(** A source glyph for the composite ["h"] without any metadata: the first
    component has no identifier, the second has one. *)
Definition plain_h : Glyph := glyph_of "h" None [] [None; Some "c1"].

(** The hinted font with a glyph program that the assembler rejects: the
    instruction [IUP] takes one argument bit, and the text gives none. *)
Definition misspelt_world : World :=
  mkWorld
    (set_glyf (<[ "h" := mkTTGlyph (Components [mkGlyphComponent "a" 0 0 0])
                           (Some (Program_assembly "IUP[]")) ]> hinted_glyf)
       sample_otf) [].

(** The same glyphs in a font whose derived field holds 99 from before. *)
Definition stale_world : World :=
  mkWorld
    (with_maxp (<[ "maxSizeOfInstructions" := PyInt 99 ]> (maxp sample_otf))
       (otf misspelt_world)) [].

(** ** Properties *)

Ltac run_monad :=
  unfold bind, ret, raise, lift, logger, get_otf, put_otf, py_get; simpl.

Lemma bind_inl {A B} (m : M A) (k : A -> M B) w e w' :
  m w = (inl e, w') -> bind m k w = (inl e, w').
Proof. intros H. unfold bind. rewrite H. reflexivity. Qed.

Lemma bind_inr {A B} (m : M A) (k : A -> M B) w a w' :
  m w = (inr a, w') -> bind m k w = k a w'.
Proof. intros H. unfold bind. rewrite H. reflexivity. Qed.

(** C2: the guard passes exactly the records whose [formatVersion] is the
    string "1"; a missing or non-string version raises the wrong-type error;
    a string other than "1" raises the unsupported-version error; the two
    kinds of failure never coincide; the guard changes nothing. *)
Theorem check_tt_data_format_outcomes (d : pydict) (label : string) (w : World) :
  let out := _check_tt_data_format (PyDict d) label w in
  snd out = w /\
  (fst out = inr tt <-> supported_version d) /\
  ((exists e, fst out = inl e /\ is_FormatError e = true) <->
     (dict_lookup "formatVersion" d = None \/
      exists v, dict_lookup "formatVersion" d = Some v /\
                forall s, v <> PyStr s)) /\
  ((exists e, fst out = inl e /\ is_UnsupportedVersionError e = true) <->
     (exists s, dict_lookup "formatVersion" d = Some (PyStr s) /\ s <> "1")) /\
  (forall e, is_FormatError e && is_UnsupportedVersionError e = false).
Proof.
  unfold _check_tt_data_format, supported_version. run_monad.
  unfold dict_get.
  assert (Hk : forall e, is_FormatError e && is_UnsupportedVersionError e = false)
    by (intros []; reflexivity).
  destruct (dict_lookup "formatVersion" d) as [v|] eqn:E; simpl.
  - destruct v as [ | b | n | s | d']; simpl.
    1-3, 5: (split; [reflexivity|];
         split; [split; [discriminate | congruence]|];
         split; [split; [intros _; right; eexists; split; [reflexivity | discriminate]
                        | intros _; eexists; split; reflexivity]|];
         split; [split; [intros (e & He & Hu); inversion He; subst; discriminate
                        | intros (s & Hs & _); discriminate]|];
         exact Hk).
    destruct (String.eqb_spec s "1") as [-> | Hne]; simpl.
    + split; [reflexivity|]. split; [split; reflexivity|].
      split; [split|].
      * intros (e & He & _). discriminate.
      * intros [H | (v & Hv & Hs)]; [discriminate|].
        inversion Hv; subst. exfalso. apply (Hs "1"). reflexivity.
      * split; [split | exact Hk].
        -- intros (e & He & _). discriminate.
        -- intros (s & Hs & Hne). congruence.
    + split; [reflexivity|]. split; [split; [discriminate | congruence]|].
      split; [split|].
      * intros (e & He & Hu). inversion He; subst. discriminate.
      * intros [H | (v & Hv & Hs)]; [discriminate|].
        inversion Hv; subst. exfalso. apply (Hs s). reflexivity.
      * split; [split | exact Hk].
        -- intros _. exists s. split; [reflexivity | assumption].
        -- intros _. eexists. split; reflexivity.
  - split; [reflexivity|]. split; [split; discriminate|].
    split; [split|].
    + intros _. left. reflexivity.
    + intros _. eexists. split; reflexivity.
    + split; [split | exact Hk].
      * intros (e & He & Hu). inversion He; subst. discriminate.
      * intros (s & Hs & _). discriminate.
Qed.

(** C8: when the compiled glyph and the source glyph disagree on the number
    of components, the resolver returns after one error diagnostic and the
    output font is the one it was called with: every component of the glyph
    keeps its flags and no other glyph changes. *)
Theorem set_composite_flags_count_mismatch
    (auto : bool) (glyph : Glyph) (ttglyph : string) (w : World)
    (g : TTGlyph) (cs : list GlyphComponent) :
  glyf (otf w) !! ttglyph = Some g ->
  geometry g = Components cs ->
  length cs <> length (components glyph) ->
  exists msg,
    _set_composite_flags auto glyph ttglyph w
    = (inr tt, mkWorld (otf w) (log w ++ [(ERROR, msg)])).
Proof.
  intros Hg Hcs Hlen. unfold _set_composite_flags, deref. run_monad.
  rewrite Hg. simpl. rewrite Hcs.
  destruct (Nat.eqb_spec (length cs) (length (components glyph))) as [E | _];
    [contradiction|].
  simpl. eexists. reflexivity.
Qed.

Lemma check_tt_data_format_rejects (d : pydict) (label : string) (w : World) :
  ~ supported_version d ->
  exists e, hard_format_error e = true /\
            _check_tt_data_format (PyDict d) label w = (inl e, w).
Proof.
  intros Hbad. unfold supported_version in Hbad.
  unfold _check_tt_data_format. run_monad. unfold dict_get.
  destruct (dict_lookup "formatVersion" d) as [[ | b | n | s | d']|];
    simpl; try (eexists; split; [|reflexivity]; reflexivity).
  destruct (String.eqb_spec s "1") as [-> | Hne]; [congruence|].
  simpl. eexists; split; [|reflexivity]; reflexivity.
Qed.

Lemma nonempty_dict_truthy (d : pydict) : d <> [] -> truthy (PyDict d) = true.
Proof. destruct d; [congruence | reflexivity]. Qed.

(** C4 (amended): the global program compiler, the CVT builder and the
    per-glyph program compiler run the Format Guard before they use a
    record; the font-level ones consume a record only when it is not empty.
    For every such record whose [formatVersion] is missing, not a string or
    not "1", the operation ends in the guard's hard error and leaves the
    font and the diagnostics as they were, whatever else the record holds. *)
Theorem format_guard_comes_first
    (ufo : Font) (auto : bool)
    (hash : Z -> TTFont -> TTGlyph -> exn + string)
    (int : string -> option Z) (d : pydict) (w : World) :
  ~ supported_version d ->
  (d <> [] ->
   dict_lookup TRUETYPE_INSTRUCTIONS_KEY (font_lib ufo) = Some (PyDict d) ->
   (exists e, hard_format_error e = true /\
              setupTable_fpgm ufo w = (inl e, w)) /\
   (exists e, hard_format_error e = true /\
              setupTable_prep ufo w = (inl e, w)) /\
   (exists e, hard_format_error e = true /\
              setupTable_cvt ufo int w = (inl e, w))) /\
  (forall glyph ttglyph,
      exists e, hard_format_error e = true /\
                _compile_tt_glyph_program hash glyph ttglyph (PyDict d) w
                = (inl e, w)) /\
  (forall ttglyph name glyph,
      glyphs ufo !! name = Some glyph ->
      dict_lookup TRUETYPE_INSTRUCTIONS_KEY (lib glyph) = Some (PyDict d) ->
      exists e, hard_format_error e = true /\
                compileGlyphInstructions ufo auto hash ttglyph name w
                = (inl e, w)).
Proof.
  intros Hbad. split; [|split].
  - intros Hne Hrec.
    pose proof (nonempty_dict_truthy d Hne) as Ht.
    split; [|split].
    + destruct (check_tt_data_format_rejects d
                  ("lib key '" +:+ "fontProgram" +:+ "'") w Hbad)
        as (e & He & Hrun).
      exists e. split; [exact He|].
      unfold setupTable_fpgm, _compile_program, dict_get. rewrite Hrec, Ht.
      replace (negb (("fpgm" =? "prep") || ("fpgm" =? "fpgm"))%string)
        with false by reflexivity.
      cbv iota. apply bind_inl. exact Hrun.
    + destruct (check_tt_data_format_rejects d
                  ("lib key '" +:+ "controlValueProgram" +:+ "'") w Hbad)
        as (e & He & Hrun).
      exists e. split; [exact He|].
      unfold setupTable_prep, _compile_program, dict_get. rewrite Hrec, Ht.
      replace (negb (("prep" =? "prep") || ("prep" =? "fpgm"))%string)
        with false by reflexivity.
      cbv iota. apply bind_inl. exact Hrun.
    + destruct (check_tt_data_format_rejects d "key 'controlValue'" w Hbad)
        as (e & He & Hrun).
      exists e. split; [exact He|].
      unfold setupTable_cvt, dict_get. rewrite Hrec, Ht.
      apply bind_inl. apply bind_inl. exact Hrun.
  - intros glyph ttglyph.
    destruct (check_tt_data_format_rejects d
                ("glyph '" +:+ name glyph +:+ "'") w Hbad) as (e & He & Hrun).
    exists e. split; [exact He|].
    unfold _compile_tt_glyph_program. apply bind_inl. exact Hrun.
  - intros ttglyph nm glyph Hglyph Hrec.
    destruct (check_tt_data_format_rejects d
                ("glyph '" +:+ name glyph +:+ "'") w Hbad) as (e & He & Hrun).
    exists e. split; [exact He|].
    unfold compileGlyphInstructions. rewrite Hglyph.
    unfold dict_get. rewrite Hrec. simpl negb. cbv iota.
    apply bind_inl. unfold _compile_tt_glyph_program. apply bind_inl.
    exact Hrun.
Qed.

Lemma set_composite_flags_count_mismatch_witness :
  exists msg,
    _set_composite_flags false (glyph_of "h" None [] [None]) "h" sample_world
    = (inr tt, mkWorld sample_otf [(ERROR, msg)]).
Proof.
  apply (set_composite_flags_count_mismatch false (glyph_of "h" None [] [None])
           "h" sample_world
           (mkTTGlyph (Components [mkGlyphComponent "a" 0 0 0;
                                   mkGlyphComponent "a" 120 0 0])
              (Some (Program_bytecode [])))
           [mkGlyphComponent "a" 0 0 0; mkGlyphComponent "a" 120 0 0]).
  - reflexivity.
  - reflexivity.
  - simpl. lia.
Defined.

(** A record of an unsupported version reaches [update_maxp] unchecked: its
    capacity field is copied and nothing is raised; and an empty record,
    whose version is missing, passes the CVT builder without an error. *)
Lemma format_guard_skipped :
  fst (update_maxp
         (font_of (Some (PyDict [("formatVersion", PyStr "2");
                                 ("maxStorage", PyInt 7)])) [])
         assemble_one sample_world) = inr tt /\
  maxp (otf (snd (update_maxp
         (font_of (Some (PyDict [("formatVersion", PyStr "2");
                                 ("maxStorage", PyInt 7)])) [])
         assemble_one sample_world))) !! "maxStorage" = Some (PyInt 7) /\
  setupTable_cvt (font_of (Some (PyDict [])) []) int_ascii sample_world
  = (inr tt, sample_world).
Proof. vm_compute. repeat split. Qed.

Lemma format_guard_comes_first_witness :
  exists e, hard_format_error e = true /\
    setupTable_cvt
      (font_of (Some (PyDict [("formatVersion", PyInt 1);
                              ("controlValue", PyDict [("1", PyInt 500)])])) [])
      int_ascii sample_world = (inl e, sample_world).
Proof.
  destruct (format_guard_comes_first
              (font_of (Some (PyDict [("formatVersion", PyInt 1);
                                      ("controlValue", PyDict [("1", PyInt 500)])])) [])
              false hash_by_width int_ascii
              [("formatVersion", PyInt 1);
               ("controlValue", PyDict [("1", PyInt 500)])] sample_world)
    as [Hfont _].
  - unfold supported_version. simpl. discriminate.
  - destruct Hfont as (_ & _ & Hcvt).
    + discriminate.
    + reflexivity.
    + exact Hcvt.
Defined.

(** *** The control-value table *)

Lemma check_tt_data_format_accepts (d : pydict) (label : string) (w : World) :
  supported_version d ->
  _check_tt_data_format (PyDict d) label w = (inr tt, w).
Proof.
  unfold supported_version. intros H.
  unfold _check_tt_data_format. run_monad. unfold dict_get. rewrite H.
  reflexivity.
Qed.

Lemma int_keys_lookup (int : string -> option Z) (cv : pydict) :
  Forall (fun kv => is_Some (int (fst kv))) cv ->
  forall acc : gmap Z pyval,
  exists m : gmap Z pyval,
    int_keys int cv acc = inr m /\
    forall i, m !! i = match cvt_entry int i cv with
                       | Some v => Some v
                       | None => acc !! i
                       end.
Proof.
  induction 1 as [ | [k v] cv [n Hn] _ IH]; intros acc; simpl.
  - exists acc. split; [reflexivity | intros i; reflexivity].
  - simpl in Hn. rewrite Hn.
    destruct (IH (<[n := v]> acc)) as (m & Hm & Hlook).
    exists m. split; [exact Hm|]. intros i. rewrite Hlook.
    destruct (cvt_entry int i cv); [reflexivity|].
    destruct (decide (Some n = Some i)) as [E | E].
    + inversion E; subst. apply lookup_insert_eq.
    + rewrite lookup_insert_ne; [reflexivity | congruence].
Qed.

Lemma foldl_max_spec (l : list Z) (n : Z) :
  (foldl Z.max n l = n \/ foldl Z.max n l ∈ l) /\
  (n <= foldl Z.max n l)%Z /\
  forall a, a ∈ l -> (a <= foldl Z.max n l)%Z.
Proof.
  revert n. induction l as [ | b l IH]; intros n; simpl.
  - split; [left; reflexivity|]. split; [lia|]. intros a Ha. inversion Ha.
  - destruct (IH (Z.max n b)) as (Hin & Hle & Hall).
    split; [|split].
    + destruct Hin as [E | Hin].
      * rewrite E. destruct (Z.max_spec n b) as [[_ ->] | [_ ->]];
          [right; left | left; reflexivity].
      * right. right. exact Hin.
    + lia.
    + intros a Ha. apply elem_of_cons in Ha as [-> | Ha]; [lia | auto].
Qed.

Lemma py_max_spec (l : list Z) :
  l <> [] ->
  exists mx, py_max l = inr mx /\ mx ∈ l /\ forall a, a ∈ l -> (a <= mx)%Z.
Proof.
  destruct l as [ | n l]; [congruence|]. intros _. simpl.
  destruct (foldl_max_spec l n) as (Hin & Hle & Hall).
  eexists. split; [reflexivity|]. split.
  - destruct Hin as [-> | Hin]; [left | right; exact Hin].
  - intros a Ha. apply elem_of_cons in Ha as [-> | Ha]; [exact Hle | auto].
Qed.

Lemma elem_of_int_dict_keys (m : gmap Z pyval) (i : Z) :
  i ∈ int_dict_keys m <-> is_Some (m !! i).
Proof.
  unfold int_dict_keys. rewrite list_elem_of_fmap. split.
  - intros ([k v] & -> & Hin). apply elem_of_map_to_list in Hin.
    simpl. eauto.
  - intros [v Hv]. exists (i, v). split; [reflexivity|].
    apply elem_of_map_to_list. exact Hv.
Qed.

Lemma array_h_valid (l : list pyval) :
  Forall (fun v => exists z, v = PyInt z /\ (-32768 <= z <= 32767)%Z) l ->
  array_h l = inr (int_value <$> l).
Proof.
  induction 1 as [ | v l (z & -> & Hz) _ IH]; simpl; [reflexivity|].
  rewrite IH.
  replace ((-32768 <=? z)%Z && (z <=? 32767)%Z) with true; [reflexivity|].
  symmetry. apply andb_true_iff. split; apply Z.leb_le; lia.
Qed.

Lemma cvt_entry_valid (int : string -> option Z) (cv : pydict) (i : Z) (v : pyval) :
  cvt_entries_valid int cv ->
  cvt_entry int i cv = Some v ->
  exists z, v = PyInt z /\ (-32768 <= z <= 32767)%Z.
Proof.
  induction 1 as [ | [k v0] cv [_ Hv] _ IH]; simpl; [discriminate|].
  destruct (cvt_entry int i cv) as [v' | ].
  - intros E. inversion E; subst. apply IH. reflexivity.
  - destruct (decide (int k = Some i)); [|discriminate].
    intros E. inversion E; subst. exact Hv.
Qed.

Lemma cvt_entry_nonempty (int : string -> option Z) (cv : pydict) :
  cv <> [] ->
  cvt_entries_valid int cv ->
  exists i, is_Some (cvt_entry int i cv).
Proof.
  destruct cv as [ | [k v] cv]; [congruence|]. intros _ Hvalid.
  inversion Hvalid as [ | ? ? [[n Hn] _] _]; subst. simpl in Hn.
  exists n. simpl. destruct (cvt_entry int n cv); [eauto|].
  rewrite decide_True by exact Hn. eauto.
Qed.

Lemma setupTable_cvt_run (ufo : Font) (int : string -> option Z) (w : World)
    (d cv : pydict) :
  dict_lookup TRUETYPE_INSTRUCTIONS_KEY (font_lib ufo) = Some (PyDict d) ->
  supported_version d ->
  dict_lookup "controlValue" d = Some (PyDict cv) ->
  cv <> [] ->
  cvt_entries_valid int cv ->
  exists mx,
    is_max_key int cv mx /\
    setupTable_cvt ufo int w
    = (inr tt,
       if (0 <=? mx)%Z
       then mkWorld (with_cvt (Some (mk_cvt (Some (cvt_values int cv mx)))) (otf w))
              (log w)
       else w).
Proof.
  intros Hrec Hver Hcv Hne Hvalid.
  assert (Hd : d <> []) by (intros ->; discriminate).
  assert (Hkeys : Forall (fun kv => is_Some (int (fst kv))) cv).
  { eapply Forall_impl; [exact Hvalid|]. intros kv [H _]. exact H. }
  destruct (int_keys_lookup int cv Hkeys ∅) as (m & Hm & Hlook).
  assert (Hm' : forall i, m !! i = cvt_entry int i cv).
  { intros i. rewrite Hlook. destruct (cvt_entry int i cv); [reflexivity|].
    apply lookup_empty. }
  destruct (cvt_entry_nonempty int cv Hne Hvalid) as (i0 & Hi0).
  assert (Hkne : int_dict_keys m <> []).
  { intros E. assert (Hin : i0 ∈ int_dict_keys m).
    { apply elem_of_int_dict_keys. rewrite Hm'. exact Hi0. }
    rewrite E in Hin. inversion Hin. }
  destruct (py_max_spec _ Hkne) as (mx & Hmax & Hin & Hall).
  exists mx. split.
  { split.
    - rewrite <- Hm'. apply elem_of_int_dict_keys. exact Hin.
    - intros i Hi. apply Hall. apply elem_of_int_dict_keys. rewrite Hm'.
      exact Hi. }
  unfold setupTable_cvt, dict_get. rewrite Hrec.
  rewrite (nonempty_dict_truthy d Hd).
  erewrite bind_inr.
  2:{ erewrite bind_inr by (apply check_tt_data_format_accepts; exact Hver).
      unfold py_get, dict_get. rewrite Hcv.
      erewrite bind_inr by reflexivity.
      rewrite (nonempty_dict_truthy cv Hne).
      erewrite bind_inr by reflexivity.
      rewrite Hm. erewrite bind_inr by reflexivity.
      rewrite Hmax. erewrite bind_inr by reflexivity.
      reflexivity. }
  remember ((fun i => default (PyInt 0) (m !! i)) <$> seqZ 0 (mx + 1))
    as cvts eqn:Ecvts.
  assert (Harr : array_h cvts = inr (cvt_values int cv mx)).
  { subst cvts. rewrite array_h_valid.
    - unfold cvt_values. rewrite <- list_fmap_compose. f_equal.
      apply list_fmap_ext. intros _ i _. simpl. rewrite Hm'. reflexivity.
    - apply Forall_fmap. apply Forall_forall. intros i _. simpl.
      rewrite Hm'. destruct (cvt_entry int i cv) as [v|] eqn:E; simpl.
      + eapply cvt_entry_valid; eassumption.
      + exists 0%Z. split; [reflexivity | lia]. }
  destruct (Z.leb_spec 0 mx) as [Hpos | Hneg].
  - destruct cvts as [ | c cvts'].
    { apply (f_equal length) in Ecvts.
      rewrite length_fmap, length_seqZ in Ecvts. simpl in Ecvts. lia. }
    rewrite Harr. reflexivity.
  - rewrite seqZ_nil in Ecvts by lia. subst cvts. reflexivity.
Qed.

Lemma is_max_key_unique (int : string -> option Z) (cv : pydict) (a b : Z) :
  is_max_key int cv a -> is_max_key int cv b -> a = b.
Proof.
  intros [Ha Hamax] [Hb Hbmax].
  apply Z.le_antisymm; [apply Hbmax | apply Hamax]; assumption.
Qed.

Lemma setupTable_cvt_skip (ufo : Font) (int : string -> option Z) (w : World)
    (d : pydict) :
  dict_lookup TRUETYPE_INSTRUCTIONS_KEY (font_lib ufo) = Some (PyDict d) ->
  supported_version d ->
  truthy (dict_get d "controlValue" PyNone) = false ->
  setupTable_cvt ufo int w = (inr tt, w).
Proof.
  intros Hrec Hver Hcv.
  assert (Hd : d <> []) by (intros ->; discriminate).
  assert (Hr : dict_get (font_lib ufo) TRUETYPE_INSTRUCTIONS_KEY PyNone = PyDict d)
    by (unfold dict_get; rewrite Hrec; reflexivity).
  unfold setupTable_cvt. rewrite Hr.
  rewrite (nonempty_dict_truthy d Hd).
  erewrite bind_inr.
  2:{ erewrite bind_inr by (apply check_tt_data_format_accepts; exact Hver).
      unfold py_get. erewrite bind_inr by reflexivity.
      rewrite Hcv. reflexivity. }
  reflexivity.
Qed.

(** C9 (amended): for a font-level record that passes the Format Guard and
    a non-empty [controlValue] mapping whose keys are the text of integers,
    the largest of them not negative, and whose values are signed 16-bit
    integers, [setupTable_cvt] installs a table of length largest key plus
    one; entry [i] is the value the mapping gives [i], and 0 where no key
    denotes [i].  A mapping whose keys are all negative, an empty mapping
    and an absent one produce no table. *)
Theorem setupTable_cvt_table
    (ufo : Font) (int : string -> option Z) (w : World) (d : pydict) :
  dict_lookup TRUETYPE_INSTRUCTIONS_KEY (font_lib ufo) = Some (PyDict d) ->
  supported_version d ->
  (forall cv mx,
      dict_lookup "controlValue" d = Some (PyDict cv) ->
      cvt_entries_valid int cv ->
      is_max_key int cv mx ->
      ((0 <= mx)%Z ->
       exists vals,
         setupTable_cvt ufo int w
         = (inr tt,
            mkWorld (with_cvt (Some (mk_cvt (Some vals))) (otf w)) (log w)) /\
         length vals = Z.to_nat (mx + 1) /\
         forall i, (0 <= i <= mx)%Z ->
           vals !! Z.to_nat i
           = Some (match cvt_entry int i cv with
                   | Some v => int_value v
                   | None => 0%Z
                   end)) /\
      ((mx < 0)%Z -> setupTable_cvt ufo int w = (inr tt, w))) /\
  (dict_lookup "controlValue" d = None \/
   dict_lookup "controlValue" d = Some PyNone \/
   dict_lookup "controlValue" d = Some (PyDict []) ->
   setupTable_cvt ufo int w = (inr tt, w)).
Proof.
  intros Hrec Hver. split.
  - intros cv mx Hcv Hvalid Hmax.
    assert (Hne : cv <> []).
    { intros ->. destruct Hmax as [[v Hv] _]. discriminate. }
    destruct (setupTable_cvt_run ufo int w d cv Hrec Hver Hcv Hne Hvalid)
      as (mx' & Hmax' & Hrun).
    assert (mx' = mx) by (eapply is_max_key_unique; eassumption). subst mx'.
    split.
    + intros Hpos. exists (cvt_values int cv mx).
      split; [|split].
      * rewrite Hrun. destruct (Z.leb_spec 0 mx); [reflexivity | lia].
      * unfold cvt_values. rewrite length_fmap, length_seqZ. reflexivity.
      * intros i Hi. unfold cvt_values. rewrite list_lookup_fmap.
        rewrite lookup_seqZ_lt by lia. simpl.
        rewrite Z2Nat.id by lia. rewrite Z.add_0_l.
        destruct (cvt_entry int i cv); reflexivity.
    + intros Hneg. rewrite Hrun.
      destruct (Z.leb_spec 0 mx); [lia | reflexivity].
  - intros Hcv. apply (setupTable_cvt_skip ufo int w d Hrec Hver).
    unfold dict_get.
    destruct Hcv as [-> | [-> | ->]]; reflexivity.
Qed.

(** C10: under the precondition that every key of the mapping is the text
    of an integer and every value a signed 16-bit integer, [setupTable_cvt]
    returns; a key that is not a number makes it raise [ValueError] and a
    value out of range [OverflowError], with no diagnostic logged. *)
Theorem setupTable_cvt_total_on_valid_entries :
  (forall (ufo : Font) (int : string -> option Z) (w : World) (d cv : pydict),
      dict_lookup TRUETYPE_INSTRUCTIONS_KEY (font_lib ufo) = Some (PyDict d) ->
      supported_version d ->
      dict_lookup "controlValue" d = Some (PyDict cv) ->
      cvt_entries_valid int cv ->
      exists w', setupTable_cvt ufo int w = (inr tt, w') /\ log w' = log w) /\
  (exists msg,
      setupTable_cvt (cvt_font [("one", PyInt 500)]) int_ascii sample_world
      = (inl (ValueError msg), sample_world)) /\
  setupTable_cvt (cvt_font [("0", PyInt 40000)]) int_ascii sample_world
  = (inl OverflowError,
     mkWorld (with_cvt (Some (mk_cvt None)) sample_otf) []).
Proof.
  split; [|split].
  - intros ufo int w d cv Hrec Hver Hcv Hvalid.
    destruct cv as [ | kv cv].
    + exists w. split; [|reflexivity].
      apply (setupTable_cvt_skip ufo int w d Hrec Hver).
      unfold dict_get. rewrite Hcv. reflexivity.
    + destruct (setupTable_cvt_run ufo int w d (kv :: cv) Hrec Hver Hcv
                  ltac:(discriminate) Hvalid) as (mx & _ & Hrun).
      rewrite Hrun. eexists. split; [reflexivity|].
      destruct (0 <=? mx)%Z; reflexivity.
  - eexists. vm_compute. reflexivity.
  - vm_compute. reflexivity.
Qed.

Lemma cvt_example_valid : cvt_entries_valid int_ascii cvt_example.
Proof.
  unfold cvt_example.
  repeat (constructor; [split; [vm_compute; eauto | eexists; split; [reflexivity | lia]]|]).
  constructor.
Qed.

Lemma cvt_example_max : is_max_key int_ascii cvt_example 3.
Proof.
  split; [vm_compute; eauto|].
  intros i [v Hv]. unfold cvt_example in Hv. simpl in Hv.
  repeat match type of Hv with
         | context [decide (?a = Some i)] =>
             destruct (decide (a = Some i)) as [E | _];
             [vm_compute in E; inversion E; lia|]
         end.
  discriminate.
Qed.

Lemma setupTable_cvt_table_witness :
  exists vals,
    setupTable_cvt (cvt_font cvt_example) int_ascii sample_world
    = (inr tt, mkWorld (with_cvt (Some (mk_cvt (Some vals))) sample_otf) []) /\
    length vals = Z.to_nat (3 + 1) /\
    forall i, (0 <= i <= 3)%Z ->
      vals !! Z.to_nat i
      = Some (match cvt_entry int_ascii i cvt_example with
              | Some v => int_value v
              | None => 0%Z
              end).
Proof.
  destruct (setupTable_cvt_table (cvt_font cvt_example) int_ascii sample_world
              [("formatVersion", PyStr "1"); ("controlValue", PyDict cvt_example)]
              eq_refl eq_refl) as [Htable _].
  destruct (Htable cvt_example 3%Z eq_refl cvt_example_valid cvt_example_max)
    as [Hinstall _].
  apply Hinstall. lia.
Defined.

(** The example of the specification. *)
Example setupTable_cvt_example :
  setupTable_cvt (cvt_font cvt_example) int_ascii sample_world
  = (inr tt,
     mkWorld (with_cvt (Some (mk_cvt (Some [0; 500; 750; -250]%Z))) sample_otf) []).
Proof. vm_compute. reflexivity. Qed.

(** A mapping whose only key is a negative integer: nothing is raised and
    no table is installed. *)
Lemma setupTable_cvt_negative_key :
  setupTable_cvt (cvt_font [("-1", PyInt 5)]) int_ascii sample_world
  = (inr tt, sample_world) /\
  cvt (otf sample_world) = None.
Proof. vm_compute. split; reflexivity. Qed.

Lemma setupTable_cvt_total_on_valid_entries_witness :
  exists w',
    setupTable_cvt (cvt_font cvt_example) int_ascii sample_world = (inr tt, w') /\
    log w' = log sample_world.
Proof.
  destruct setupTable_cvt_total_on_valid_entries as [Htotal _].
  apply (Htotal (cvt_font cvt_example) int_ascii sample_world
           [("formatVersion", PyStr "1"); ("controlValue", PyDict cvt_example)]
           cvt_example eq_refl eq_refl eq_refl cvt_example_valid).
Defined.

(** *** The interpreter limits *)

Lemma copy_maxp_run (d : pydict) (names : list string) :
  forall w,
  exists m',
    copy_maxp (PyDict d) names w
    = (inr tt, mkWorld (with_maxp m' (otf w)) (log w)) /\
    forall n,
      m' !! n = match authored_field (PyDict d) n with
                | Some v => if bool_decide (n ∈ names) then Some v
                            else maxp (otf w) !! n
                | None => maxp (otf w) !! n
                end.
Proof.
  induction names as [ | a names IH]; intros w.
  - exists (maxp (otf w)). split.
    + destruct w as [[] ?]. reflexivity.
    + intros n. destruct (authored_field (PyDict d) n); reflexivity.
  - simpl copy_maxp. unfold py_get. erewrite bind_inr by reflexivity.
    destruct (is_None (dict_get d a PyNone)) eqn:Hnone; simpl negb; cbv iota.
    + erewrite bind_inr by reflexivity.
      destruct (IH w) as (m' & Hrun & Hlook). exists m'.
      split; [exact Hrun|]. intros n. rewrite Hlook.
      destruct (authored_field (PyDict d) n) as [v|] eqn:Ha; [|reflexivity].
      destruct (decide (n = a)) as [-> | Hna].
      * exfalso. simpl in Ha. unfold dict_get in Hnone.
        destruct (dict_lookup a d) as [[]|]; simpl in *; congruence.
      * rewrite (bool_decide_ext (n ∈ a :: names) (n ∈ names));
          [reflexivity |].
        rewrite elem_of_cons.
        split; [intros [? | ?]; [contradiction | assumption] | intros ?; right; assumption].
    + erewrite bind_inr by reflexivity.
      destruct (IH (mkWorld (with_maxp (<[a := dict_get d a PyNone]> (maxp (otf w)))
                               (otf w)) (log w)))
        as (m' & Hrun & Hlook).
      exists m'. split; [exact Hrun|]. intros n. rewrite Hlook.
      cbn [otf maxp with_maxp].
      destruct (decide (n = a)) as [-> | Hna].
      * rewrite lookup_insert_eq.
        assert (Ha : authored_field (PyDict d) a = Some (dict_get d a PyNone)).
        { simpl. unfold dict_get in *.
          destruct (dict_lookup a d) as [[]|]; simpl in *; congruence. }
        rewrite Ha.
        rewrite (bool_decide_eq_true_2 (a ∈ a :: names)) by left.
        destruct (bool_decide (a ∈ names)); reflexivity.
      * rewrite lookup_insert_ne by congruence.
        rewrite (bool_decide_ext (n ∈ a :: names) (n ∈ names));
          [reflexivity |].
        rewrite elem_of_cons.
        split; [intros [? | ?]; [contradiction | assumption] | intros ?; right; assumption].
Qed.

Lemma program_sizes_run (assemble : string -> option (list Byte.byte))
    (gs : list TTGlyph) :
  (forall g p, g ∈ gs -> program g = Some p ->
               exists bc, getBytecode assemble p = inr bc) ->
  exists sizes,
    program_sizes assemble gs = inr sizes /\
    forall n, n ∈ sizes <->
      exists g p bc, g ∈ gs /\ program g = Some p /\
                     getBytecode assemble p = inr bc /\ length bc = n.
Proof.
  induction gs as [ | g gs IH]; intros Hall.
  - exists []. split; [reflexivity|]. intros n. split.
    + intros H. inversion H.
    + intros (g & p & bc & H & _). inversion H.
  - destruct IH as (sizes & Hrun & Hsizes).
    { intros g' p Hin. apply Hall. right. exact Hin. }
    simpl. destruct (program g) as [p|] eqn:Hp.
    + destruct (Hall g p ltac:(left) Hp) as (bc & Hbc).
      rewrite Hbc, Hrun. exists (length bc :: sizes). split; [reflexivity|].
      intros n. rewrite elem_of_cons, Hsizes. split.
      * intros [-> | (g' & p' & bc' & Hin & H)].
        -- exists g, p, bc. repeat split; [left | assumption..].
        -- exists g', p', bc'. split; [right; exact Hin | exact H].
      * intros (g' & p' & bc' & Hin & Hp' & Hbc' & Hlen).
        apply elem_of_cons in Hin as [-> | Hin].
        -- left. congruence.
        -- right. exists g', p', bc'. auto.
    + exists sizes. split; [exact Hrun|]. intros n. rewrite Hsizes. split.
      * intros (g' & p' & bc' & Hin & H).
        exists g', p', bc'. split; [right; exact Hin | exact H].
      * intros (g' & p' & bc' & Hin & Hp' & H).
        apply elem_of_cons in Hin as [-> | Hin]; [congruence|].
        exists g', p', bc'. auto.
Qed.

Lemma elem_of_glyf_values (f : TTFont) (g : TTGlyph) :
  g ∈ glyf_values f <-> exists k, glyf f !! k = Some g.
Proof.
  unfold glyf_values. rewrite list_elem_of_fmap. split.
  - intros ([k g'] & -> & Hin). exists k. apply elem_of_map_to_list. exact Hin.
  - intros (k & Hk). exists (k, g). split; [reflexivity|].
    apply elem_of_map_to_list. exact Hk.
Qed.

(** C5 (amended): when the font-level record is absent or a dictionary and
    every glyph program has bytecode (its text, if it is given as text,
    assembles), [update_maxp] returns with [maxSizeOfInstructions] set to
    the largest bytecode length among the glyph programs of the font (0
    when there is none), whatever the field held before and whatever the
    record says; each of the six capacity fields holds the record's value
    when the record gives one and its former value otherwise; nothing else
    changes. *)
Theorem update_maxp_limits
    (ufo : Font) (assemble : string -> option (list Byte.byte)) (w : World) :
  let record := dict_get (font_lib ufo) TRUETYPE_INSTRUCTIONS_KEY PyNone in
  (record = PyNone \/ exists d, record = PyDict d) ->
  (forall k g p, glyf (otf w) !! k = Some g -> program g = Some p ->
                 exists bc, getBytecode assemble p = inr bc) ->
  exists m' size,
    update_maxp ufo assemble w
    = (inr tt, mkWorld (with_maxp m' (otf w)) (log w)) /\
    m' !! "maxSizeOfInstructions" = Some (PyInt (Z.of_nat size)) /\
    is_max_program_size assemble (otf w) size /\
    (forall n, n ∈ maxp_names ->
       m' !! n = match authored_field record n with
                 | Some v => Some v
                 | None => maxp (otf w) !! n
                 end) /\
    (forall n, n ∉ maxp_names -> n <> "maxSizeOfInstructions" ->
       m' !! n = maxp (otf w) !! n).
Proof.
  intros record Hrec Hprog.
  assert (Hcopy : exists m1,
    (if truthy record then copy_maxp record maxp_names else ret tt) w
    = (inr tt, mkWorld (with_maxp m1 (otf w)) (log w)) /\
    forall n, m1 !! n = match authored_field record n with
                        | Some v => if bool_decide (n ∈ maxp_names) then Some v
                                    else maxp (otf w) !! n
                        | None => maxp (otf w) !! n
                        end).
  { destruct Hrec as [-> | [d ->]].
    - exists (maxp (otf w)). split; [destruct w as [[] ?]; reflexivity|].
      intros n. reflexivity.
    - destruct d as [ | kv d].
      + exists (maxp (otf w)). split; [destruct w as [[] ?]; reflexivity|].
        intros n. reflexivity.
      + apply copy_maxp_run. }
  destruct Hcopy as (m1 & Hcopy & Hm1).
  destruct (program_sizes_run assemble (glyf_values (otf w))) as (sizes & Hsz & Hin).
  { intros g p [k Hk]%elem_of_glyf_values Hp. eapply Hprog; eassumption. }
  exists (<["maxSizeOfInstructions" := PyInt (Z.of_nat (max_list sizes))]> m1),
         (max_list sizes).
  split; [|split; [|split; [|split]]].
  - unfold update_maxp. fold record. erewrite bind_inr by exact Hcopy.
    erewrite bind_inr by reflexivity.
    cbn [otf]. change (glyf_values (with_maxp m1 (otf w))) with (glyf_values (otf w)).
    rewrite Hsz. erewrite bind_inr by reflexivity. reflexivity.
  - apply lookup_insert_eq.
  - split.
    + intros k g p bc Hk Hp Hbc. apply max_list_elem_of_le. apply Hin.
      exists g, p, bc. repeat split; try assumption.
      apply elem_of_glyf_values. eauto.
    + destruct sizes as [ | s sizes'] eqn:Es.
      * right. split; [reflexivity|]. intros k g Hk.
        destruct (program g) as [p|] eqn:Hp; [|reflexivity].
        destruct (Hprog k g p Hk Hp) as (bc & Hbc).
        assert (Hmem : length bc ∈ ([] : list nat)).
        { apply Hin. exists g, p, bc. repeat split; try assumption.
          apply elem_of_glyf_values. eauto. }
        inversion Hmem.
      * left. rewrite <- Es in *.
        assert (Hmem : max_list sizes ∈ sizes)
          by (apply max_list_elem_of; rewrite Es; discriminate).
        apply Hin in Hmem as (g & p & bc & [k Hk]%elem_of_glyf_values & Hp & Hbc & Hlen).
        exists k, g, p, bc. auto.
  - intros n Hn. rewrite lookup_insert_ne.
    + rewrite Hm1. rewrite bool_decide_eq_true_2 by exact Hn. reflexivity.
    + intros <-. revert Hn. unfold maxp_names.
      rewrite !elem_of_cons, elem_of_nil. intros H.
      repeat destruct H as [H | H]; try discriminate H. exact H.
  - intros n Hn Hne. rewrite lookup_insert_ne by congruence.
    rewrite Hm1. rewrite bool_decide_eq_false_2 by exact Hn.
    destruct (authored_field record n); reflexivity.
Qed.

Lemma update_maxp_limits_witness :
  exists m' size,
    update_maxp limits_font assemble_one hinted_world
    = (inr tt, mkWorld (with_maxp m' (otf hinted_world)) (log hinted_world)) /\
    m' !! "maxSizeOfInstructions" = Some (PyInt (Z.of_nat size)) /\
    is_max_program_size assemble_one (otf hinted_world) size /\
    (forall n, n ∈ maxp_names ->
       m' !! n
       = match authored_field
                 (dict_get (font_lib limits_font) TRUETYPE_INSTRUCTIONS_KEY PyNone) n
         with
         | Some v => Some v
         | None => maxp (otf hinted_world) !! n
         end) /\
    (forall n, n ∉ maxp_names -> n <> "maxSizeOfInstructions" ->
       m' !! n = maxp (otf hinted_world) !! n).
Proof.
  apply (update_maxp_limits limits_font assemble_one hinted_world).
  - right. eexists. reflexivity.
  - intros k g p Hk Hp. simpl in Hk. unfold hinted_glyf in Hk.
    apply lookup_insert_Some in Hk as [[_ <-] | [_ Hk]].
    + simpl in Hp. inversion Hp; subst. eexists. reflexivity.
    + apply lookup_singleton_Some in Hk as [_ <-]. discriminate Hp.
Defined.

(** A glyph program whose text the assembler rejects: ["a"] has a program
    of one byte and the program of ["h"] does not assemble.  [update_maxp]
    raises the assembler's error; the capacity fields of the record are
    copied by then, and the derived field still holds the 99 from before,
    neither the largest length nor the authored 9. *)
Lemma update_maxp_raises_on_rejected_text :
  getBytecode assemble_one (Program_assembly "IUP[1]") = inr [Byte.x31] /\
  getBytecode assemble_one (Program_assembly "IUP[]") = inl tt_instructions_error /\
  fst (update_maxp limits_font assemble_one stale_world)
  = inl tt_instructions_error /\
  maxp (otf (snd (update_maxp limits_font assemble_one stale_world)))
    !! "maxZones" = Some (PyInt 2) /\
  maxp (otf (snd (update_maxp limits_font assemble_one stale_world)))
    !! "maxSizeOfInstructions" = Some (PyInt 99).
Proof. vm_compute. repeat split. Qed.

(** After the test of the repository: one glyph program of one byte, the
    derived field authored as 9 and the others as 1 (the zones as 2). *)
Example update_maxp_example :
  exists w',
    update_maxp limits_font assemble_one hinted_world = (inr tt, w') /\
    (fun n => maxp (otf w') !! n)
      <$> ["maxStorage"; "maxFunctionDefs"; "maxInstructionDefs";
           "maxStackElements"; "maxSizeOfInstructions"; "maxZones";
           "maxTwilightPoints"]
    = Some <$> [PyInt 1; PyInt 1; PyInt 1; PyInt 1; PyInt 1; PyInt 2; PyInt 1].
Proof. eexists. split; [vm_compute; reflexivity|]. vm_compute. reflexivity. Qed.

(** *** Flag updates on one component

    The body of the resolver's loop touches the world only through the
    flags of one component and the log. *)

Lemma with_flags_id (c : GlyphComponent) : with_flags (fun fl => fl) c = c.
Proof. destruct c. reflexivity. Qed.

Lemma update_component_id (i : nat) (g : TTGlyph) :
  update_component i (fun fl => fl) g = g.
Proof.
  unfold update_component. destruct g as [[ | cs] p]; simpl; [reflexivity|].
  f_equal. f_equal. apply list_eq. intros j.
  destruct (decide (j = i)) as [-> | Hne].
  - rewrite list_lookup_alter_eq. destruct (cs !! i); simpl; [|reflexivity].
    rewrite with_flags_id. reflexivity.
  - rewrite list_lookup_alter_ne by congruence. reflexivity.
Qed.

Lemma upd_flags_id (ttglyph : string) (i : nat) (f : TTFont) :
  upd_flags ttglyph i (fun fl => fl) f = f.
Proof.
  unfold upd_flags, set_glyf. destruct f as [gl hm mp pr cv]. simpl. f_equal.
  apply map_eq. intros k. destruct (decide (k = ttglyph)) as [-> | Hne].
  - rewrite lookup_alter_eq. destruct (gl !! ttglyph); simpl; [|reflexivity].
    rewrite update_component_id. reflexivity.
  - rewrite lookup_alter_ne by congruence. reflexivity.
Qed.

Lemma update_component_compose (i : nat) (h1 h2 : Z -> Z) (g : TTGlyph) :
  update_component i h2 (update_component i h1 g)
  = update_component i (fun fl => h2 (h1 fl)) g.
Proof.
  unfold update_component. destruct g as [[ | cs] p]; simpl; [reflexivity|].
  f_equal. f_equal. apply list_eq. intros j.
  destruct (decide (j = i)) as [-> | Hne].
  - rewrite !list_lookup_alter_eq. destruct (cs !! i); reflexivity.
  - rewrite !list_lookup_alter_ne by congruence. reflexivity.
Qed.

Lemma upd_flags_compose (ttglyph : string) (i : nat) (h1 h2 : Z -> Z) (f : TTFont) :
  upd_flags ttglyph i h2 (upd_flags ttglyph i h1 f)
  = upd_flags ttglyph i (fun fl => h2 (h1 fl)) f.
Proof.
  unfold upd_flags, set_glyf. simpl. f_equal.
  apply map_eq. intros k. destruct (decide (k = ttglyph)) as [-> | Hne].
  - rewrite !lookup_alter_eq. destruct (glyf f !! ttglyph); simpl; [|reflexivity].
    rewrite update_component_compose. reflexivity.
  - rewrite !lookup_alter_ne by congruence. reflexivity.
Qed.

Lemma apply_step_id (ttglyph : string) (i : nat) (w : World) :
  apply_step ttglyph i (fun fl => fl) [] w = w.
Proof.
  unfold apply_step. rewrite upd_flags_id, app_nil_r. destruct w; reflexivity.
Qed.

Lemma apply_step_compose (ttglyph : string) (i : nat) (h1 h2 : Z -> Z)
    (l1 l2 : list (level * string)) (w : World) :
  apply_step ttglyph i h2 l2 (apply_step ttglyph i h1 l1 w)
  = apply_step ttglyph i (fun fl => h2 (h1 fl)) (l1 ++ l2) w.
Proof.
  unfold apply_step. simpl. rewrite upd_flags_compose, app_assoc. reflexivity.
Qed.

Section PureSteps.

Variable ttglyph : string.
Variable i : nat.

Lemma pure_ret {A} (a : A) :
  pure_step ttglyph i (ret a) (inr a) (fun fl => fl) [].
Proof. intros w. rewrite apply_step_id. reflexivity. Qed.

Lemma pure_raise {A} (e : exn) :
  pure_step ttglyph i (raise e : M A) (inl e) (fun fl => fl) [].
Proof. intros w. rewrite apply_step_id. reflexivity. Qed.

Lemma pure_logger (lvl : level) (msg : string) :
  pure_step ttglyph i (logger lvl msg) (inr tt) (fun fl => fl) [(lvl, msg)].
Proof.
  intros w. unfold logger, apply_step. rewrite upd_flags_id. reflexivity.
Qed.

Lemma pure_update_flags (h : Z -> Z) :
  pure_step ttglyph i (update_flags ttglyph i h) (inr tt) h [].
Proof.
  intros w. unfold update_flags, apply_step. run_monad.
  rewrite app_nil_r. reflexivity.
Qed.

Lemma pure_bind_inr {A B} (m : M A) (k : A -> M B) a r h1 h2 l1 l2 :
  pure_step ttglyph i m (inr a) h1 l1 ->
  pure_step ttglyph i (k a) r h2 l2 ->
  pure_step ttglyph i (bind m k) r (fun fl => h2 (h1 fl)) (l1 ++ l2).
Proof.
  intros Hm Hk w. unfold bind. rewrite Hm, Hk.
  rewrite apply_step_compose. reflexivity.
Qed.

Lemma pure_bind_inl {A B} (m : M A) (k : A -> M B) e h l :
  pure_step ttglyph i m (inl e) h l ->
  pure_step ttglyph i (bind m k) (inl e) h l.
Proof. intros Hm w. unfold bind. rewrite Hm. reflexivity. Qed.

End PureSteps.

Lemma bind_ret_l {A B} (a : A) (k : A -> M B) : bind (ret a) k = k a.
Proof. reflexivity. Qed.

Lemma bind_raise_l {A B} (e : exn) (k : A -> M B) : bind (raise e) k = raise e.
Proof. reflexivity. Qed.

Ltac pure_tac :=
  lazymatch goal with
  | |- pure_step _ _ (bind _ _) _ _ _ =>
      first [ eapply pure_bind_inr; [pure_tac | cbv beta; pure_tac]
            | eapply pure_bind_inl; pure_tac ]
  | |- pure_step _ _ (ret _) _ _ _ => apply pure_ret
  | |- pure_step _ _ (raise _) _ _ _ => apply pure_raise
  | |- pure_step _ _ (logger _ _) _ _ _ => apply pure_logger
  | |- pure_step _ _ (update_flags _ _ _) _ _ _ => apply pure_update_flags
  end.

Lemma testbit_lor_mask (fl mask : Z) (n : Z) :
  (0 <= n)%Z -> Z.testbit (Z.lor fl mask) n = Z.testbit fl n || Z.testbit mask n.
Proof. intros. apply Z.lor_spec. Qed.

Lemma testbit_clear_mask (fl mask : Z) (n : Z) :
  (0 <= n)%Z ->
  Z.testbit (Z.land fl (Z.lnot mask)) n = Z.testbit fl n && negb (Z.testbit mask n).
Proof. intros. rewrite Z.land_spec, Z.lnot_spec by assumption. reflexivity. Qed.

Ltac bits :=
  intros; cbv beta;
  unfold ROUND_XY_TO_GRID, USE_MY_METRICS, OVERLAP_COMPOUND;
  repeat first [ rewrite testbit_lor_mask by lia
               | rewrite testbit_clear_mask by lia ];
  repeat match goal with
         | |- context [Z.testbit (Zpos ?p) (Zpos ?q)] =>
             let b := eval vm_compute in (Z.testbit (Zpos p) (Zpos q)) in
             change (Z.testbit (Zpos p) (Zpos q)) with b
         end;
  cbn [negb];
  repeat first [ rewrite andb_true_r | rewrite orb_false_r
               | rewrite andb_false_r | rewrite orb_true_r ];
  try reflexivity.

(** The block of the overlap flag. *)
Lemma overlap_compound_flag_pure (glyph : Glyph) (ttglyph : string) (i : nat) :
  exists h,
    pure_step ttglyph i (overlap_compound_flag glyph ttglyph i) (inr tt) h [] /\
    (i <> 0 -> forall z, h z = z) /\
    (i = 0 -> forall z, Z.testbit (h z) 10
                        = match overlap_flag glyph with
                          | Some b => b
                          | None => Z.testbit z 10
                          end) /\
    (forall z, Z.testbit (h z) 9 = Z.testbit z 9).
Proof.
  unfold overlap_compound_flag, overlap_flag, dict_mem, dict_get,
    set_flag, clear_flag.
  destruct i as [ | i]; cbn [Nat.eqb andb].
  - destruct (dict_lookup TRUETYPE_OVERLAP_KEY (lib glyph)) as [ov|];
      cbn [fmap option_fmap option_map].
    + destruct (truthy ov); eexists; (split; [pure_tac|]);
        (split; [congruence|]); split; intros; bits.
    + eexists; (split; [pure_tac|]); (split; [congruence|]);
        split; intros; reflexivity.
  - eexists; (split; [pure_tac|]). split; [reflexivity|].
    split; [discriminate | reflexivity].
Qed.

(** The condition and the body of the [elif]. *)
Lemma component_lib_flags_pure (auto : bool) (glyph : Glyph) (ttglyph : string)
    (i : nat) (umm : option string) (id : string) :
  exists r h l,
    pure_step ttglyph i
      (bind (has_component_lib glyph id)
         (fun has_lib =>
            if has_lib then component_lib_flags auto glyph ttglyph i umm id
            else ret umm)) r h l /\
    (forall z, Z.testbit (h z) 10 = Z.testbit z 10) /\
    (well_typed_object_libs glyph -> exists u, r = inr u) /\
    (forall libs cl,
        dict_lookup OBJECT_LIBS_KEY (lib glyph) = Some (PyDict libs) ->
        dict_lookup id libs = Some (PyDict cl) ->
        if truthy (dict_get cl TRUETYPE_METRICS_KEY (PyBool false)) && negb auto
        then r = inr (if id_truthy umm then umm else Some id) /\
             (forall z, Z.testbit (h z) 9 = negb (id_truthy umm)) /\
             count_warnings l = (if id_truthy umm then 1 else 0)
        else r = inr umm /\
             (forall z, Z.testbit (h z) 9 = Z.testbit z 9) /\
             count_warnings l = 0) /\
    ((forall libs cl,
         dict_lookup OBJECT_LIBS_KEY (lib glyph) = Some (PyDict libs) ->
         dict_lookup id libs = Some (PyDict cl) -> False) ->
     (forall u, r = inr u -> u = umm) /\
     (forall z, Z.testbit (h z) 9 = Z.testbit z 9) /\
     count_warnings l = 0).
Proof.
  unfold has_component_lib, component_lib_flags, well_typed_object_libs.
  unfold py_in, py_getitem, py_get, set_flag, clear_flag, dict_mem, dict_get.
  repeat (rewrite ?bind_ret_l, ?bind_raise_l; cbv beta; case_match).
  all: rewrite ?bind_ret_l, ?bind_raise_l.
  all: try match goal with
           | H : false = true |- _ => discriminate H
           | H : true = false |- _ => discriminate H
           end.
  all: do 3 eexists; (split; [pure_tac|]).
  all: cbn [app].
  all: (split; [intros; bits|]).
  all: (split; [intros Hwt; try contradiction; try (eexists; reflexivity)|]).
  all: try match goal with
           | Hwt : forall id v, dict_lookup id ?libs = Some v -> _,
             H : dict_lookup _ ?libs = Some _ |- _ =>
               destruct (Hwt _ _ H) as [? ?]; discriminate
           end.
  all: (split; [intros libs' cl' Hl1 Hl2; simplify_eq;
                repeat match goal with
                       | H : ?x = _ |- context [?x] => rewrite H
                       end;
                rewrite ?andb_false_r; cbn [andb negb truthy]
               | intros Hno;
                 try (exfalso; eapply Hno; eauto; fail)]).
  all: try (split; [reflexivity || (intros; congruence) |]).
  all: try (split; [intros; bits |]).
  all: reflexivity.
Qed.

(** One turn of the loop. *)
Lemma component_flags_pure (auto : bool) (glyph : Glyph) (ttglyph : string)
    (i : nat) (umm : option string) :
  exists r h l,
    pure_step ttglyph i (component_flags auto glyph ttglyph i umm) r h l /\
    (i <> 0 -> forall z, Z.testbit (h z) 10 = Z.testbit z 10) /\
    (i = 0 -> (exists u, r = inr u) ->
     forall z, Z.testbit (h z) 10
               = match overlap_flag glyph with
                 | Some b => b
                 | None => Z.testbit z 10
                 end) /\
    (well_typed_object_libs glyph -> is_Some (components glyph !! i) ->
     exists u, r = inr u) /\
    (forall u, r = inr u ->
       u = (if requests_metrics glyph i && negb auto
            then if id_truthy umm then umm
                 else components glyph !! i ≫= identifier
            else umm) /\
       (forall z, Z.testbit (h z) 9
                  = if requests_metrics glyph i && negb auto
                    then negb (id_truthy umm)
                    else Z.testbit z 9) /\
       count_warnings l
       = (if requests_metrics glyph i && negb auto && id_truthy umm
          then 1 else 0)).
Proof.
  destruct (overlap_compound_flag_pure glyph ttglyph i)
    as (hC & HC & HCid & HC10 & HC9).
  unfold component_flags, requests_metrics, component_lib.
  destruct (components glyph !! i) as [uc|] eqn:Huc.
  2:{ exists (inl IndexError), (fun fl => fl), [].
      split; [rewrite bind_raise_l; apply pure_raise|].
      split; [reflexivity|].
      split; [intros _ [u Hu]; discriminate|].
      split; [intros _ [u Hu]; discriminate|].
      intros u Hu. discriminate. }
  rewrite bind_ret_l. cbn [mbind option_bind].
  destruct (identifier uc) as [id|] eqn:Hid.
  - destruct (component_lib_flags_pure auto glyph ttglyph i umm id)
      as (rB & hB & lB & HB & HB10 & HBwt & HBdict & HBnodict).
    destruct rB as [e | u].
    + exists (inl e), hB, lB.
      split; [apply pure_bind_inl; exact HB|].
      split; [intros _; exact HB10|].
      split; [intros _ [u Hu]; discriminate|].
      split; [intros Hwt _; destruct (HBwt Hwt) as [u Hu]; discriminate|].
      intros u Hu. discriminate.
    + eexists (inr u), _, _.
      split.
      { eapply pure_bind_inr; [exact HB|]. cbv beta.
        eapply pure_bind_inr; [exact HC|]. apply pure_ret. }
      cbv beta.
      split; [intros Hi z; rewrite (HCid Hi); apply HB10|].
      split.
      { intros Hi _ z. rewrite (HC10 Hi).
        destruct (overlap_flag glyph); [reflexivity | apply HB10]. }
      split; [intros _ _; eexists; reflexivity|].
      intros u' Hu'. inversion Hu'; subst u'. clear Hu'.
      rewrite !app_nil_r.
      destruct (dict_lookup OBJECT_LIBS_KEY (lib glyph)) as [ol|] eqn:Hol.
      2:{ destruct HBnodict as (Hu & H9 & Hw); [intros; discriminate|].
          cbn [andb]. split; [apply Hu; reflexivity|].
          split; [intros z; rewrite HC9; apply H9 | exact Hw]. }
      destruct ol as [ | b | n | s | libs];
        try (destruct HBnodict as (Hu & H9 & Hw); [intros; discriminate|];
             cbn [andb]; split; [apply Hu; reflexivity|];
             split; [intros z; rewrite HC9; apply H9 | exact Hw]).
      destruct (dict_lookup id libs) as [entry|] eqn:Hentry.
      2:{ destruct HBnodict as (Hu & H9 & Hw); [intros; simplify_eq|].
          cbn [andb]. split; [apply Hu; reflexivity|].
          split; [intros z; rewrite HC9; apply H9 | exact Hw]. }
      destruct entry as [ | b | n | s | cl];
        try (destruct HBnodict as (Hu & H9 & Hw); [intros; simplify_eq|];
             cbn [andb]; split; [apply Hu; reflexivity|];
             split; [intros z; rewrite HC9; apply H9 | exact Hw]).
      specialize (HBdict libs cl eq_refl Hentry).
      destruct (truthy (dict_get cl TRUETYPE_METRICS_KEY (PyBool false)) && negb auto).
      * destruct HBdict as (Hu & H9 & Hw). inversion Hu; subst u.
        split; [reflexivity|].
        split; [intros z; rewrite HC9; apply H9|].
        cbn [andb]. destruct (id_truthy umm); exact Hw.
      * destruct HBdict as (Hu & H9 & Hw). inversion Hu; subst u.
        split; [reflexivity|].
        split; [intros z; rewrite HC9; apply H9 | exact Hw].
  - eexists (inr umm), _, _.
    split.
    { eapply pure_bind_inr.
      - eapply pure_bind_inr; [apply pure_update_flags | apply pure_ret].
      - cbv beta. eapply pure_bind_inr; [exact HC | apply pure_ret]. }
    cbv beta. cbn [app andb].
    split; [intros Hi z; rewrite (HCid Hi); bits|].
    split.
    { intros Hi _ z. rewrite (HC10 Hi).
      destruct (overlap_flag glyph); [reflexivity | bits]. }
    split; [intros _ _; eexists; reflexivity|].
    intros u Hu. inversion Hu; subst u.
    split; [reflexivity|].
    split; [intros z; rewrite HC9; bits | reflexivity].
Qed.

(** *** The resolver's loop *)

Lemma alter_imap (h : Z -> Z) (i : nat) (cs : list GlyphComponent) :
  alter (with_flags h) i cs
  = imap (fun j => with_flags (if decide (j = i) then h else fun fl => fl)) cs.
Proof.
  apply list_eq. intros j. rewrite list_lookup_imap.
  destruct (decide (j = i)) as [-> | Hne].
  - rewrite list_lookup_alter_eq. reflexivity.
  - rewrite list_lookup_alter_ne by congruence.
    destruct (cs !! j) as [c|]; simpl; [|reflexivity].
    rewrite with_flags_id. reflexivity.
Qed.

Lemma upd_flags_upd_all (ttglyph : string) (i : nat) (h : Z -> Z) (f : TTFont) :
  upd_flags ttglyph i h f
  = upd_all ttglyph (fun j => if decide (j = i) then h else fun fl => fl) f.
Proof.
  unfold upd_flags, upd_all. f_equal. apply map_eq. intros k.
  destruct (decide (k = ttglyph)) as [-> | Hne].
  - rewrite !lookup_alter_eq. destruct (glyf f !! ttglyph) as [g|]; simpl; [|reflexivity].
    f_equal. unfold update_component, map_flags.
    destruct (geometry g); [reflexivity|]. rewrite alter_imap. reflexivity.
  - rewrite !lookup_alter_ne by congruence. reflexivity.
Qed.

Lemma map_flags_compose (H1 H2 : nat -> Z -> Z) (g : TTGlyph) :
  map_flags H2 (map_flags H1 g) = map_flags (fun j fl => H2 j (H1 j fl)) g.
Proof.
  unfold map_flags. destruct g as [[ | cs] p]; simpl; [reflexivity|].
  f_equal. f_equal. apply list_eq. intros j. rewrite !list_lookup_imap.
  destruct (cs !! j); reflexivity.
Qed.

Lemma upd_all_compose (ttglyph : string) (H1 H2 : nat -> Z -> Z) (f : TTFont) :
  upd_all ttglyph H2 (upd_all ttglyph H1 f)
  = upd_all ttglyph (fun j fl => H2 j (H1 j fl)) f.
Proof.
  unfold upd_all, set_glyf. simpl. f_equal. apply map_eq. intros k.
  destruct (decide (k = ttglyph)) as [-> | Hne].
  - rewrite !lookup_alter_eq. destruct (glyf f !! ttglyph); simpl; [|reflexivity].
    rewrite map_flags_compose. reflexivity.
  - rewrite !lookup_alter_ne by congruence. reflexivity.
Qed.

Lemma upd_all_id (ttglyph : string) (f : TTFont) :
  upd_all ttglyph (fun _ fl => fl) f = f.
Proof.
  rewrite <- (upd_flags_id ttglyph 0 f) at 2. rewrite upd_flags_upd_all.
  unfold upd_all. f_equal. apply map_eq. intros k.
  destruct (decide (k = ttglyph)) as [-> | Hne].
  - rewrite !lookup_alter_eq. destruct (glyf f !! ttglyph) as [g|]; simpl; [|reflexivity].
    f_equal. unfold map_flags. destruct (geometry g); [reflexivity|].
    f_equal. f_equal. apply imap_ext. intros j c _.
    destruct (decide (j = 0)); reflexivity.
  - rewrite !lookup_alter_ne by congruence. reflexivity.
Qed.

Lemma flags_at_upd_all (ttglyph : string) (H : nat -> Z -> Z) (f : TTFont) (j : nat) :
  flags_at (upd_all ttglyph H f) ttglyph j = H j <$> flags_at f ttglyph j.
Proof.
  unfold flags_at, upd_all. simpl. rewrite lookup_alter_eq.
  destruct (glyf f !! ttglyph) as [g|]; simpl; [|reflexivity].
  unfold map_flags. destruct (geometry g) as [ | cs] eqn:Hg; simpl.
  - rewrite Hg. reflexivity.
  - rewrite list_lookup_imap. destruct (cs !! j); reflexivity.
Qed.

Lemma glyf_upd_all_ne (ttglyph : string) (H : nat -> Z -> Z) (f : TTFont) (k : string) :
  k <> ttglyph -> glyf (upd_all ttglyph H f) !! k = glyf f !! k.
Proof. intros Hne. unfold upd_all. simpl. apply lookup_alter_ne. congruence. Qed.

Lemma glyf_upd_all_eq (ttglyph : string) (H : nat -> Z -> Z) (f : TTFont) :
  glyf (upd_all ttglyph H f) !! ttglyph = map_flags H <$> glyf f !! ttglyph.
Proof. unfold upd_all. simpl. apply lookup_alter_eq. Qed.

Lemma program_map_flags (H : nat -> Z -> Z) (g : TTGlyph) :
  program (map_flags H g) = program g.
Proof. unfold map_flags. destruct (geometry g); reflexivity. Qed.

Lemma isComposite_map_flags (H : nat -> Z -> Z) (g : TTGlyph) :
  isComposite (map_flags H g) = isComposite g.
Proof.
  unfold map_flags, isComposite. destruct (geometry g) eqn:E; simpl;
    [rewrite E|]; reflexivity.
Qed.

Lemma count_warnings_app (l1 l2 : list (level * string)) :
  count_warnings (l1 ++ l2) = count_warnings l1 + count_warnings l2.
Proof.
  induction l1 as [ | [[] msg] l1 IH]; simpl; rewrite ?IH; reflexivity.
Qed.

(** The whole loop, from index [i] over the components [cs]. *)
Lemma flags_loop_pure (auto : bool) (glyph : Glyph) (ttglyph : string)
    (cs : list GlyphComponent) :
  forall (i : nat) (umm : option string),
  exists r H l,
    (forall w, flags_loop auto glyph ttglyph i cs umm w
               = (r, mkWorld (upd_all ttglyph H (otf w)) (log w ++ l))) /\
    (forall j, j < i \/ i + length cs <= j -> forall z, H j z = z) /\
    (forall j, j <> 0 \/ i <> 0 -> forall z, Z.testbit (H j z) 10 = Z.testbit z 10) /\
    (i = 0 -> cs <> [] -> r = inr tt ->
     forall z, Z.testbit (H 0 z) 10
               = match overlap_flag glyph with
                 | Some b => b
                 | None => Z.testbit z 10
                 end) /\
    (well_typed_object_libs glyph ->
     i + length cs <= length (components glyph) -> r = inr tt) /\
    (r = inr tt -> auto = false ->
     (forall j, i <= j < i + length cs -> requests_metrics glyph j = true ->
                id_truthy (components glyph !! j ≫= identifier) = true) ->
     (forall j, i <= j < i + length cs -> requests_metrics glyph j = true ->
        forall z, Z.testbit (H j z) 9
                  = negb (id_truthy umm) && no_claim glyph i (j - i)) /\
     count_warnings l
     = count_claims glyph i (length cs) - (if id_truthy umm then 0 else 1)).
Proof.
  induction cs as [ | c cs IH]; intros i umm.
  - exists (inr tt), (fun _ fl => fl), [].
    split.
    { intros w. simpl. rewrite upd_all_id, app_nil_r. destruct w; reflexivity. }
    split; [reflexivity|]. split; [reflexivity|].
    split; [congruence|]. split; [reflexivity|].
    intros _ _ _. split; [intros j Hj; simpl in Hj; lia | reflexivity].
  - destruct (component_flags_pure auto glyph ttglyph i umm)
      as (r1 & h & l1 & Hstep & H10 & H10' & Hwt & Hmetrics).
    destruct r1 as [e | umm'].
    + exists (inl e), (fun j => if decide (j = i) then h else fun fl => fl), l1.
      split.
      { intros w. simpl. unfold bind. rewrite Hstep. unfold apply_step.
        rewrite upd_flags_upd_all. reflexivity. }
      split.
      { intros j Hj z. destruct (decide (j = i)); [simpl in Hj; lia | reflexivity]. }
      split.
      { intros j Hj z. destruct (decide (j = i)) as [-> | ?]; [|reflexivity].
        apply H10. lia. }
      split; [discriminate|].
      split; [|discriminate].
      intros Hw Hlen. destruct Hwt as [u Hu]; [exact Hw | | discriminate].
      apply lookup_lt_is_Some. simpl in Hlen. lia.
    + destruct (IH (S i) umm') as (r & H & l & Hrun & Hid & HP1 & _ & HP3 & HP4).
      destruct (Hmetrics umm' eq_refl) as (Humm' & H9 & Hwarn).
      exists r, (fun j fl => H j ((if decide (j = i) then h else fun fl => fl) fl)),
             (l1 ++ l)%list.
      split.
      { intros w. simpl. unfold bind. rewrite Hstep, Hrun. unfold apply_step.
        simpl. rewrite upd_flags_upd_all, upd_all_compose, app_assoc.
        reflexivity. }
      split.
      { intros j Hj z. simpl in Hj.
        destruct (decide (j = i)); [lia|]. apply Hid. lia. }
      split.
      { intros j Hj z. rewrite HP1 by lia.
        destruct (decide (j = i)) as [-> | ?]; [|reflexivity].
        apply H10. lia. }
      split.
      { intros -> _ _ z. rewrite HP1 by lia. rewrite decide_True by reflexivity.
        apply H10'; [reflexivity | eauto]. }
      split.
      { intros Hw Hlen. apply HP3; [exact Hw|]. simpl in Hlen. lia. }
      intros Hr Hauto Hids. subst auto. rewrite andb_true_r in *.
      assert (Htruthy : requests_metrics glyph i = true -> id_truthy umm' = true).
      { intros Hreq. rewrite Hreq in Humm'. subst umm'.
        destruct (id_truthy umm) eqn:E; [exact E|].
        apply Hids; [simpl; lia | exact Hreq]. }
      destruct (HP4 Hr eq_refl) as [Hbits Hcount].
      { intros j Hj. apply Hids. simpl. lia. }
      split.
      * intros j Hj Hreq z. simpl in Hj.
        destruct (decide (j = i)) as [-> | Hne].
        -- rewrite Hid by lia. rewrite H9, Hreq.
           replace (i - i) with 0 by lia. simpl. rewrite andb_true_r.
           reflexivity.
        -- rewrite Hbits by (try exact Hreq; lia).
           replace (j - i) with (S (j - S i)) by lia. simpl.
           destruct (requests_metrics glyph i) eqn:Hreqi.
           ++ rewrite (Htruthy eq_refl). simpl. rewrite andb_false_r.
              reflexivity.
           ++ subst umm'. reflexivity.
      * rewrite count_warnings_app, Hwarn, Hcount. simpl.
        destruct (requests_metrics glyph i) eqn:Hreqi.
        -- rewrite (Htruthy eq_refl). simpl.
           destruct (id_truthy umm); simpl; lia.
        -- subst umm'. simpl. reflexivity.
Qed.

Lemma land_pow2 (fl n : Z) :
  (0 <= n)%Z -> Z.land fl (2 ^ n) = if Z.testbit fl n then (2 ^ n)%Z else 0%Z.
Proof.
  intros Hn. apply Z.bits_inj'. intros m Hm.
  rewrite Z.land_spec, Z.pow2_bits_eqb by lia.
  destruct (Z.eqb_spec n m) as [<- | Hne].
  - rewrite andb_true_r. destruct (Z.testbit fl n) eqn:E.
    + rewrite Z.pow2_bits_true by lia. reflexivity.
    + rewrite Z.bits_0. reflexivity.
  - rewrite andb_false_r. destruct (Z.testbit fl n).
    + rewrite Z.pow2_bits_false by lia. reflexivity.
    + rewrite Z.bits_0. reflexivity.
Qed.

Lemma has_flag_pow2 (fl n : Z) :
  (0 <= n)%Z -> has_flag (2 ^ n) fl = Z.testbit fl n.
Proof.
  intros Hn. unfold has_flag. rewrite land_pow2 by exact Hn.
  destruct (Z.testbit fl n); [|reflexivity].
  destruct (Z.eqb_spec (2 ^ n) 0) as [E | _]; [|reflexivity].
  pose proof (Z.pow_pos_nonneg 2 n). lia.
Qed.

Lemma has_flag_OVERLAP_COMPOUND (fl : Z) :
  has_flag OVERLAP_COMPOUND fl = Z.testbit fl 10.
Proof. apply (has_flag_pow2 fl 10). lia. Qed.

Lemma has_flag_USE_MY_METRICS (fl : Z) :
  has_flag USE_MY_METRICS fl = Z.testbit fl 9.
Proof. apply (has_flag_pow2 fl 9). lia. Qed.

(** The resolver as a whole: it acts on the world only through the flags of
    the components of [ttglyph] and the log. *)
Lemma set_composite_flags_run (auto : bool) (glyph : Glyph) (ttglyph : string)
    (w : World) :
  exists r H l,
    _set_composite_flags auto glyph ttglyph w
    = (r, mkWorld (upd_all ttglyph H (otf w)) (log w ++ l)) /\
    (forall j, j <> 0 -> forall z, Z.testbit (H j z) 10 = Z.testbit z 10) /\
    (forall g cs,
        glyf (otf w) !! ttglyph = Some g -> geometry g = Components cs ->
        length cs = length (components glyph) ->
        (well_typed_object_libs glyph -> r = inr tt) /\
        (cs <> [] -> r = inr tt ->
         forall z, Z.testbit (H 0 z) 10
                   = match overlap_flag glyph with
                     | Some b => b
                     | None => Z.testbit z 10
                     end) /\
        (r = inr tt -> auto = false ->
         (forall j, j < length cs -> requests_metrics glyph j = true ->
                    id_truthy (components glyph !! j ≫= identifier) = true) ->
         (forall j, j < length cs -> requests_metrics glyph j = true ->
            forall z, Z.testbit (H j z) 9 = no_claim glyph 0 j) /\
         count_warnings l = count_claims glyph 0 (length cs) - 1)).
Proof.
  unfold _set_composite_flags, deref. run_monad.
  destruct (glyf (otf w) !! ttglyph) as [g|] eqn:Hg; simpl.
  2:{ eexists (inl _), (fun _ fl => fl), [].
      rewrite upd_all_id, app_nil_r. destruct w as [o lg]. simpl.
      split; [reflexivity|].
      split; [reflexivity | intros; congruence]. }
  destruct (geometry g) as [coords ends | cs] eqn:Hgeo.
  { eexists (inl _), (fun _ fl => fl), [].
    rewrite upd_all_id, app_nil_r. destruct w as [o lg]. simpl.
    split; [reflexivity|].
    split; [reflexivity | intros; congruence]. }
  destruct (Nat.eqb_spec (length cs) (length (components glyph))) as [Hlen | Hlen];
    simpl.
  - destruct (flags_loop_pure auto glyph ttglyph cs 0 None)
      as (r & H & l & Hrun & _ & H10 & Hov & Hwt & Hmetrics).
    exists r, H, l. split; [apply Hrun|].
    split; [intros j Hj; apply H10; left; exact Hj|].
    intros g' cs' Hg' Hgeo' Hlen'. simplify_eq.
    assert (cs' = cs) by congruence. subst cs'.
    split; [|split].
    + intros Hw. apply Hwt; [exact Hw | simpl; lia].
    + intros Hne Hr. apply Hov; [reflexivity | exact Hne | exact Hr].
    + intros Hr Hauto Hids.
      destruct (Hmetrics Hr Hauto) as [Hbits Hcount].
      { intros j Hj. apply Hids. lia. }
      split; [|exact Hcount].
      intros j Hj Hreq z. specialize (Hbits j ltac:(lia) Hreq z).
      rewrite Nat.sub_0_r in Hbits. exact Hbits.
  - eexists (inr tt), (fun _ fl => fl), _.
    rewrite upd_all_id. split; [reflexivity|].
    split; [reflexivity|].
    intros g' cs' Hg' Hgeo' Hlen'. simplify_eq.
    assert (cs' = cs) by congruence. subst cs'. contradiction.
Qed.

(** C7 (amended): the resolver leaves OVERLAP_COMPOUND as it was on every
    component of index greater than 0, whatever the metadata and however
    the call ends.  When the compiled and the source glyph have the same
    number of components (and the per-component metadata is a dictionary of
    dictionaries) the resolver returns, and on component 0 the flag is set
    or cleared as the glyph-level overlap flag says when the metadata
    carries one, and is as before when it carries none. *)
Theorem overlap_compound_on_first_component_only
    (auto : bool) (glyph : Glyph) (ttglyph : string) (w : World) :
  (forall j, j <> 0 ->
     has_flag OVERLAP_COMPOUND
       <$> flags_at (otf (snd (_set_composite_flags auto glyph ttglyph w))) ttglyph j
     = has_flag OVERLAP_COMPOUND <$> flags_at (otf w) ttglyph j) /\
  (forall g cs,
     glyf (otf w) !! ttglyph = Some g ->
     geometry g = Components cs ->
     length cs = length (components glyph) ->
     well_typed_object_libs glyph ->
     fst (_set_composite_flags auto glyph ttglyph w) = inr tt /\
     has_flag OVERLAP_COMPOUND
       <$> flags_at (otf (snd (_set_composite_flags auto glyph ttglyph w))) ttglyph 0
     = (fun fl => match overlap_flag glyph with
                  | Some b => b
                  | None => has_flag OVERLAP_COMPOUND fl
                  end) <$> flags_at (otf w) ttglyph 0).
Proof.
  destruct (set_composite_flags_run auto glyph ttglyph w)
    as (r & H & l & Hrun & H10 & Hpar).
  rewrite Hrun. cbn [fst snd otf]. split.
  - intros j Hj. rewrite flags_at_upd_all.
    destruct (flags_at (otf w) ttglyph j) as [fl|]; simpl; [|reflexivity].
    f_equal. rewrite !has_flag_OVERLAP_COMPOUND. apply H10. exact Hj.
  - intros g cs Hg Hgeo Hlen Hwt.
    destruct (Hpar g cs Hg Hgeo Hlen) as (Hret & Hov & _).
    specialize (Hret Hwt). split; [exact Hret|].
    rewrite flags_at_upd_all.
    destruct (flags_at (otf w) ttglyph 0) as [fl|] eqn:Hfl; simpl; [|reflexivity].
    f_equal. rewrite has_flag_OVERLAP_COMPOUND. rewrite Hov.
    + destruct (overlap_flag glyph); [reflexivity|].
      rewrite has_flag_OVERLAP_COMPOUND. reflexivity.
    + intros ->. unfold flags_at in Hfl. rewrite Hg, Hgeo in Hfl. discriminate.
    + exact Hret.
Qed.

Lemma overlap_compound_on_first_component_only_witness :
  fst (_set_composite_flags false
         (glyph_of "h" None [(TRUETYPE_OVERLAP_KEY, PyBool true)] [None; None])
         "h" sample_world) = inr tt /\
  has_flag OVERLAP_COMPOUND
    <$> flags_at (otf (snd (_set_composite_flags false
         (glyph_of "h" None [(TRUETYPE_OVERLAP_KEY, PyBool true)] [None; None])
         "h" sample_world))) "h" 0
  = (fun fl => match overlap_flag
                       (glyph_of "h" None [(TRUETYPE_OVERLAP_KEY, PyBool true)]
                          [None; None])
               with
               | Some b => b
               | None => has_flag OVERLAP_COMPOUND fl
               end) <$> flags_at (otf sample_world) "h" 0.
Proof.
  destruct (overlap_compound_on_first_component_only false
              (glyph_of "h" None [(TRUETYPE_OVERLAP_KEY, PyBool true)] [None; None])
              "h" sample_world) as [_ Hfirst].
  apply (Hfirst
           (mkTTGlyph (Components [mkGlyphComponent "a" 0 0 0;
                                   mkGlyphComponent "a" 120 0 0])
              (Some (Program_bytecode [])))
           [mkGlyphComponent "a" 0 0 0; mkGlyphComponent "a" 120 0 0]).
  - reflexivity.
  - reflexivity.
  - reflexivity.
  - exact I.
Defined.

(** A glyph whose metadata carries the overlap flag, with one component in
    the source and two in the compiled font: the resolver returns and
    component 0 is left without OVERLAP_COMPOUND. *)
Lemma overlap_flag_unused_on_count_mismatch :
  overlap_flag (glyph_of "h" None [(TRUETYPE_OVERLAP_KEY, PyBool true)] [None])
  = Some true /\
  fst (_set_composite_flags false
         (glyph_of "h" None [(TRUETYPE_OVERLAP_KEY, PyBool true)] [None])
         "h" sample_world) = inr tt /\
  has_flag OVERLAP_COMPOUND
    <$> flags_at (otf (snd (_set_composite_flags false
         (glyph_of "h" None [(TRUETYPE_OVERLAP_KEY, PyBool true)] [None])
         "h" sample_world))) "h" 0
  = Some false.
Proof. vm_compute. repeat split. Qed.

(** The flags the resolver sets in the tests of the repository. *)
Example set_composite_flags_overlap_example :
  (fun j => flags_at (otf (snd (_set_composite_flags false
        (glyph_of "h" None [(TRUETYPE_OVERLAP_KEY, PyBool true)]
           [Some "component0"; Some "component1"])
        "h" sample_world))) "h" j) <$> [0; 1]
  = [Some OVERLAP_COMPOUND; Some 0%Z].
Proof. vm_compute. reflexivity. Qed.

(** *** The per-glyph program compiler *)

Lemma check_tt_data_format_world (ttdata : pyval) (label : string) (w : World) :
  snd (_check_tt_data_format ttdata label w) = w.
Proof.
  unfold _check_tt_data_format. run_monad.
  destruct ttdata as [ | b | n | s | d]; try reflexivity.
  simpl. destruct (dict_get d "formatVersion" PyNone) as [ | b | n | s | d'];
    try reflexivity.
  destruct (negb (s =? "1")%string); reflexivity.
Qed.

Lemma py_get_world (obj : pyval) (k : string) (dflt : pyval) (w : World) :
  snd (py_get obj k dflt w) = w.
Proof. destruct obj; reflexivity. Qed.

Lemma check_glyph_hash_otf
    (hash : Z -> TTFont -> TTGlyph -> exn + string)
    (glyph : Glyph) (ttglyph : string) (glyph_hash : pyval) (w : World) :
  otf (snd (_check_glyph_hash hash glyph ttglyph glyph_hash w)) = otf w.
Proof.
  unfold _check_glyph_hash, deref. run_monad.
  destruct (hmtx (otf w) !! name glyph); simpl; [|reflexivity].
  destruct (glyf (otf w) !! ttglyph) as [g|]; simpl; [|reflexivity].
  destruct (hash _ (otf w) g) as [e | h]; simpl; [reflexivity|].
  destruct (is_None glyph_hash); simpl; [reflexivity|].
  destruct glyph_hash; simpl; try reflexivity.
  destruct (negb _); reflexivity.
Qed.

Lemma glyf_with_program_at (ttglyph : string) (p : option Program) (f : TTFont) :
  glyf (with_program_at ttglyph p f) !! ttglyph
  = with_program p <$> glyf f !! ttglyph.
Proof. unfold with_program_at. simpl. apply lookup_alter_eq. Qed.

Lemma with_program_at_twice (ttglyph : string) (p q : option Program) (f : TTFont) :
  with_program_at ttglyph q (with_program_at ttglyph p f)
  = with_program_at ttglyph q f.
Proof.
  unfold with_program_at, set_glyf. simpl. f_equal. apply map_eq. intros k.
  destruct (decide (k = ttglyph)) as [-> | Hne].
  - rewrite !lookup_alter_eq. destruct (glyf f !! ttglyph); reflexivity.
  - rewrite !lookup_alter_ne by congruence. reflexivity.
Qed.

Lemma bind_unfold {A B} (m : M A) (k : A -> M B) (w : World) :
  bind m k w = match m w with
               | (inl e, w') => (inl e, w')
               | (inr a, w') => k a w'
               end.
Proof. reflexivity. Qed.

Lemma set_program_run (ttglyph : string) (p : option Program) (w : World) :
  set_program ttglyph p w
  = (inr tt, mkWorld (with_program_at ttglyph p (otf w)) (log w)).
Proof. reflexivity. Qed.

(** The per-glyph compiler touches the font only through the program
    attribute of the glyph, and a program it attaches on a normal return
    is not empty. *)
Lemma compile_tt_glyph_program_frame
    (hash : Z -> TTFont -> TTGlyph -> exn + string)
    (glyph : Glyph) (ttglyph : string) (ttdata : pyval) (w : World) :
  let out := _compile_tt_glyph_program hash glyph ttglyph ttdata w in
  otf (snd out) = otf w \/
  exists p, otf (snd out) = with_program_at ttglyph (Some p) (otf w) /\
            (fst out = inr tt -> Program_bool p = true).
Proof.
  cbv zeta. unfold _compile_tt_glyph_program.
  rewrite bind_unfold.
  pose proof (check_tt_data_format_world ttdata
                ("glyph '" +:+ name glyph +:+ "'") w) as H0.
  destruct (_check_tt_data_format ttdata _ w) as [[e | []] w0]; simpl in H0;
    subst w0; [left; reflexivity|].
  cbv beta iota. rewrite bind_unfold.
  pose proof (py_get_world ttdata "id" PyNone w) as H1.
  destruct (py_get ttdata "id" PyNone w) as [[e | glyph_hash] w1]; simpl in H1;
    subst w1; [left; reflexivity|].
  cbv beta iota. rewrite bind_unfold.
  pose proof (check_glyph_hash_otf hash glyph ttglyph glyph_hash w) as H2.
  destruct (_check_glyph_hash hash glyph ttglyph glyph_hash w) as [[e | ok] w2];
    simpl in H2; [left; exact H2|].
  cbv beta iota.
  destruct ok; cbn [negb]; cbv iota; [|left; exact H2].
  rewrite bind_unfold.
  pose proof (py_get_world ttdata "assembly" PyNone w2) as H3.
  destruct (py_get ttdata "assembly" PyNone w2) as [[e | asm] w3]; simpl in H3;
    subst w3; [left; exact H2|].
  cbv beta iota.
  destruct (is_None asm); [left; exact H2|].
  destruct (truthy asm) eqn:Hasm; cbn [negb]; cbv iota; [|left; exact H2].
  rewrite bind_unfold, set_program_run. cbv beta iota.
  rewrite bind_unfold.
  destruct (fromAssembly asm) as [e | p] eqn:Hp; unfold lift, raise, ret;
    cbv beta iota.
  - right. exists Program_new. cbn [fst snd otf]. rewrite H2.
    split; [reflexivity | discriminate].
  - rewrite set_program_run. cbn [fst snd otf].
    rewrite with_program_at_twice, H2.
    right. exists p. split; [reflexivity|]. intros _.
    destruct asm; simpl in Hp; try discriminate.
    inversion Hp; subst p. exact Hasm.
Qed.

(** On a normal return the per-glyph compiler has left the font alone or
    has attached the assembly of the record, which is text and not
    empty. *)
Lemma compile_tt_glyph_program_attaches
    (hash : Z -> TTFont -> TTGlyph -> exn + string)
    (glyph : Glyph) (ttglyph : string) (ttdata : pyval) (w w1 : World) :
  _compile_tt_glyph_program hash glyph ttglyph ttdata w = (inr tt, w1) ->
  otf w1 = otf w \/
  exists d s,
    ttdata = PyDict d /\ dict_lookup "assembly" d = Some (PyStr s) /\ s <> "" /\
    otf w1 = with_program_at ttglyph (Some (Program_assembly s)) (otf w).
Proof.
  unfold _compile_tt_glyph_program. rewrite bind_unfold.
  pose proof (check_tt_data_format_world ttdata
                ("glyph '" +:+ name glyph +:+ "'") w) as H0.
  destruct (_check_tt_data_format ttdata _ w) as [[e | []] w0]; simpl in H0;
    subst w0; [discriminate|].
  cbv beta iota. rewrite bind_unfold.
  destruct ttdata as [ | b | n | s0 | d]; try discriminate.
  cbn [py_get]. unfold ret at 1. cbv beta iota. rewrite bind_unfold.
  pose proof (check_glyph_hash_otf hash glyph ttglyph
                (dict_get d "id" PyNone) w) as H2.
  destruct (_check_glyph_hash hash glyph ttglyph _ w) as [[e | ok] w2];
    simpl in H2; [discriminate|].
  cbv beta iota.
  destruct ok; cbn [negb]; cbv iota;
    [|intros H; inversion H; subst; left; exact H2].
  rewrite bind_unfold. cbn [py_get]. unfold ret at 1. cbv beta iota.
  destruct (is_None (dict_get d "assembly" PyNone));
    [unfold logger; intros H; inversion H; subst; left; exact H2|].
  destruct (truthy (dict_get d "assembly" PyNone)) eqn:Hasm; cbn [negb]; cbv iota;
    [|unfold logger; intros H; inversion H; subst; left; exact H2].
  rewrite bind_unfold, set_program_run. cbv beta iota. rewrite bind_unfold.
  unfold dict_get in *.
  destruct (dict_lookup "assembly" d) as [[ | b | n | s | d']|] eqn:Hlook;
    cbn [fromAssembly lift]; unfold raise, ret; cbv beta iota;
    try discriminate.
  rewrite set_program_run. cbn [otf log]. rewrite with_program_at_twice, H2.
  intros H; inversion H; subst. right. exists d, s.
  split; [reflexivity|]. split; [exact Hlook|]. split; [|reflexivity].
  intros ->. discriminate Hasm.
Qed.

Lemma with_program_at_same (ttglyph : string) (f : TTFont) (g : TTGlyph) :
  glyf f !! ttglyph = Some g ->
  with_program_at ttglyph (program g) f = f.
Proof.
  intros Hg. unfold with_program_at, set_glyf. destruct f as [gl hm mp pr cv].
  simpl in *. f_equal. apply map_eq. intros k.
  destruct (decide (k = ttglyph)) as [-> | Hne].
  - rewrite lookup_alter_eq, Hg. simpl. destruct g; reflexivity.
  - rewrite lookup_alter_ne by congruence. reflexivity.
Qed.

(** What [compileGlyphInstructions] does once the per-glyph compiler has
    returned: a composite loses an empty program and has its flags
    resolved, a simple glyph is left alone. *)
Lemma compileGlyphInstructions_after_compile
    (ufo : Font) (auto : bool)
    (hash : Z -> TTFont -> TTGlyph -> exn + string)
    (ttglyph nm : string) (glyph : Glyph) (w w1 : World) (g1 : TTGlyph) :
  glyphs ufo !! nm = Some glyph ->
  (if negb (is_None (dict_get (lib glyph) TRUETYPE_INSTRUCTIONS_KEY PyNone))
   then _compile_tt_glyph_program hash glyph ttglyph
          (dict_get (lib glyph) TRUETYPE_INSTRUCTIONS_KEY PyNone)
   else ret tt) w = (inr tt, w1) ->
  glyf (otf w1) !! ttglyph = Some g1 ->
  exists r H l,
    compileGlyphInstructions ufo auto hash ttglyph nm w
    = (r, mkWorld (upd_all ttglyph H
                     (with_program_at ttglyph (stripped g1) (otf w1)))
            (log w1 ++ l)) /\
    (isComposite g1 = false -> r = inr tt).
Proof.
  intros Hglyph Hstep Hg1. unfold compileGlyphInstructions. rewrite Hglyph.
  rewrite bind_unfold, Hstep. cbv beta iota.
  unfold deref. rewrite bind_unfold. unfold get_otf at 1. cbv beta iota.
  rewrite bind_unfold. rewrite Hg1. unfold ret at 1. cbv beta iota.
  unfold stripped. destruct (isComposite g1) eqn:Hcomp.
  - destruct (program g1) as [p|] eqn:Hp.
    + destruct (Program_bool p) eqn:Hbool; cbn [negb]; cbv iota.
      * rewrite bind_unfold. unfold ret at 1. cbv beta iota.
        destruct (set_composite_flags_run auto glyph ttglyph w1)
          as (r & H & l & Hrun & _).
        exists r, H, l. rewrite Hrun. rewrite <- Hp.
        rewrite (with_program_at_same _ _ _ Hg1).
        split; [reflexivity | discriminate].
      * rewrite bind_unfold. rewrite bind_unfold. unfold logger at 1.
        cbv beta iota. rewrite set_program_run. cbv beta iota.
        cbn [otf log].
        destruct (set_composite_flags_run auto glyph ttglyph
                    (mkWorld (with_program_at ttglyph None (otf w1))
                       (log w1 ++ [(DEBUG,
                          "Removing empty program from composite glyph '"
                          +:+ nm +:+ "'")])))
          as (r & H & l & Hrun & _).
        rewrite Hrun. cbn [otf log]. rewrite <- app_assoc.
        eexists r, H, _. split; [reflexivity | discriminate].
    + rewrite bind_unfold. unfold ret at 1. cbv beta iota.
      destruct (set_composite_flags_run auto glyph ttglyph w1)
        as (r & H & l & Hrun & _).
      exists r, H, l. rewrite Hrun. rewrite <- Hp.
      rewrite (with_program_at_same _ _ _ Hg1).
      split; [reflexivity | discriminate].
  - exists (inr tt), (fun _ fl => fl), [].
    rewrite (with_program_at_same _ _ _ Hg1), upd_all_id, app_nil_r.
    destruct w1. split; reflexivity.
Qed.

Lemma final_glyph (ttglyph : string) (H : nat -> Z -> Z) (p : option Program)
    (f : TTFont) (g : TTGlyph) :
  glyf f !! ttglyph = Some g ->
  glyf (upd_all ttglyph H (with_program_at ttglyph p f)) !! ttglyph
  = Some (map_flags H (with_program p g)).
Proof.
  intros Hg. rewrite glyf_upd_all_eq, glyf_with_program_at, Hg. reflexivity.
Qed.

Lemma stripped_not_empty (g : TTGlyph) :
  isComposite g = true ->
  match stripped g with
  | Some p => Program_bool p = true
  | None => True
  end.
Proof.
  intros Hc. unfold stripped. rewrite Hc.
  destruct (program g) as [p|]; [|exact I].
  destruct (Program_bool p) eqn:E; [exact E | exact I].
Qed.

(** C6 (amended): when [compileGlyphInstructions] returns normally for a
    composite glyph that is present in the font source, and no text in play
    (the text of the program the glyph came with, the assembly of its
    record) is at once not empty and assembled to no bytes, the glyph is
    still a composite and it keeps no program of length zero: it has no
    program attribute, or a program whose bytecode is not empty. *)
Theorem composite_keeps_no_empty_program
    (ufo : Font) (auto : bool)
    (hash : Z -> TTFont -> TTGlyph -> exn + string)
    (assemble : string -> option (list Byte.byte))
    (ttglyph nm : string) (glyph : Glyph) (w w' : World) (g : TTGlyph) :
  glyphs ufo !! nm = Some glyph ->
  glyf (otf w) !! ttglyph = Some g ->
  isComposite g = true ->
  (forall s, text_in_play glyph g s -> s <> "" -> assemble s <> Some []) ->
  compileGlyphInstructions ufo auto hash ttglyph nm w = (inr tt, w') ->
  exists g',
    glyf (otf w') !! ttglyph = Some g' /\
    isComposite g' = true /\
    forall p, program g' = Some p -> getBytecode assemble p <> inr [].
Proof.
  intros Hglyph Hg Hcomp Htexts Hrun.
  set (ttdata := dict_get (lib glyph) TRUETYPE_INSTRUCTIONS_KEY PyNone).
  destruct ((if negb (is_None ttdata)
             then _compile_tt_glyph_program hash glyph ttglyph ttdata
             else ret tt) w) as [[e | []] w1] eqn:Hstep.
  { unfold compileGlyphInstructions in Hrun. rewrite Hglyph in Hrun.
    fold ttdata in Hrun. rewrite bind_unfold, Hstep in Hrun. discriminate. }
  assert (Hg1 : exists g1,
             glyf (otf w1) !! ttglyph = Some g1 /\ isComposite g1 = true /\
             forall s, program g1 = Some (Program_assembly s) -> s <> "" ->
                       assemble s <> Some []).
  { assert (Hsame : otf w1 = otf w -> exists g1,
               glyf (otf w1) !! ttglyph = Some g1 /\ isComposite g1 = true /\
               forall s, program g1 = Some (Program_assembly s) -> s <> "" ->
                         assemble s <> Some []).
    { intros ->. exists g. split; [exact Hg|]. split; [exact Hcomp|].
      intros s Hp. apply Htexts. left. exact Hp. }
    destruct (is_None ttdata).
    - inversion Hstep; subst w1. apply Hsame. reflexivity.
    - cbn [negb] in Hstep.
      destruct (compile_tt_glyph_program_attaches hash glyph ttglyph ttdata
                  w w1 Hstep) as [Heq | (d & s & Hd & Hlook & Hne & Heq)].
      + apply Hsame. exact Heq.
      + exists (with_program (Some (Program_assembly s)) g).
        rewrite Heq, glyf_with_program_at, Hg.
        split; [reflexivity|]. split; [exact Hcomp|].
        cbn [program with_program]. intros s' Hs' _.
        inversion Hs'; subst s'. apply Htexts; [|exact Hne].
        right. exists d. split; [|exact Hlook].
        unfold ttdata, dict_get in Hd.
        destruct (dict_lookup TRUETYPE_INSTRUCTIONS_KEY (lib glyph));
          [congruence | discriminate]. }
  destruct Hg1 as (g1 & Hg1 & Hcomp1 & Htext1).
  destruct (compileGlyphInstructions_after_compile ufo auto hash ttglyph nm
              glyph w w1 g1 Hglyph Hstep Hg1) as (r & H & l & Hfin & _).
  rewrite Hfin in Hrun. inversion Hrun; subst. cbn [otf].
  rewrite (final_glyph _ _ _ _ _ Hg1).
  eexists. split; [reflexivity|].
  rewrite isComposite_map_flags, program_map_flags.
  split; [exact Hcomp1|]. cbn [program with_program].
  intros p Hp. pose proof (stripped_not_empty g1 Hcomp1) as Hbool.
  rewrite Hp in Hbool.
  assert (Hkept : program g1 = Some p).
  { unfold stripped in Hp. rewrite Hcomp1 in Hp.
    destruct (program g1) as [p1|]; [|discriminate].
    destruct (Program_bool p1); [exact Hp | discriminate]. }
  destruct p as [ | s | bc]; cbn [Program_bool getBytecode] in *.
  - discriminate.
  - assert (Hne : s <> "").
    { intros ->. discriminate Hbool. }
    specialize (Htext1 s Hkept Hne).
    destruct (assemble s) as [bc|]; [|discriminate].
    intros E. apply Htext1. congruence.
  - destruct bc; [discriminate|]. discriminate.
Qed.

Lemma composite_keeps_no_empty_program_witness :
  exists g',
    glyf (otf (snd (compileGlyphInstructions (font_of None [hinted_h]) false
                      hash_by_width "h" "h" sample_world))) !! "h"
    = Some g' /\
    isComposite g' = true /\
    forall p, program g' = Some p -> getBytecode assemble_one p <> inr [].
Proof.
  apply (composite_keeps_no_empty_program (font_of None [hinted_h]) false
           hash_by_width assemble_one "h" "h" hinted_h sample_world
           (snd (compileGlyphInstructions (font_of None [hinted_h]) false
                   hash_by_width "h" "h" sample_world))
           (mkTTGlyph (Components [mkGlyphComponent "a" 0 0 0;
                                   mkGlyphComponent "a" 120 0 0])
              (Some (Program_bytecode [])))).
  - reflexivity.
  - reflexivity.
  - reflexivity.
  - intros s [Hp | (d & Hd & Hs)] _.
    + discriminate Hp.
    + vm_compute in Hd. inversion Hd; subst d.
      vm_compute in Hs. inversion Hs; subst s. discriminate.
  - vm_compute. reflexivity.
Defined.

(** A composite glyph that is not in the font source: the call returns
    after its informational diagnostic and the glyph keeps the program of
    length zero it came with. *)
Lemma empty_program_kept_outside_source :
  isComposite <$> glyf (otf sample_world) !! "h" = Some true /\
  fst (compileGlyphInstructions (font_of None []) false hash_by_width
         "h" "h" sample_world) = inr tt /\
  program <$> glyf (otf (snd (compileGlyphInstructions (font_of None []) false
                                hash_by_width "h" "h" sample_world))) !! "h"
  = Some (Some (Program_bytecode [])) /\
  Program_bool (Program_bytecode []) = false /\
  getBytecode assemble_one (Program_bytecode []) = inr [].
Proof. vm_compute. repeat split. Qed.

(** The test for an empty program is the truth value of the program, and
    an assembly of one space is text of positive length: the composite
    keeps the program, whose bytecode has length zero. *)
Lemma blank_assembly_kept_on_composite :
  isComposite <$> glyf (otf sample_world) !! "h" = Some true /\
  fst (compileGlyphInstructions (font_of None [blank_h]) false hash_by_width
         "h" "h" sample_world) = inr tt /\
  program <$> glyf (otf (snd (compileGlyphInstructions (font_of None [blank_h])
                                false hash_by_width "h" "h" sample_world))) !! "h"
  = Some (Some (Program_assembly " ")) /\
  Program_bool (Program_assembly " ") = true /\
  getBytecode assemble_one (Program_assembly " ") = inr [].
Proof. vm_compute. repeat split. Qed.

Lemma eqb_empty_false (s : string) : s <> "" -> String.eqb s "" = false.
Proof. intros H. apply String.eqb_neq. exact H. Qed.

(** The per-glyph compiler on a record of the supported version, for a
    glyph with an advance width. *)
Lemma compile_tt_glyph_program_run
    (hash : Z -> TTFont -> TTGlyph -> exn + string)
    (glyph : Glyph) (ttglyph : string) (d : pydict) (w : World)
    (g : TTGlyph) (m : Z * Z) (h : string) :
  supported_version d ->
  glyf (otf w) !! ttglyph = Some g ->
  hmtx (otf w) !! name glyph = Some m ->
  hash (fst m) (otf w) g = inr h ->
  (forall s,
      dict_lookup "id" d = Some (PyStr h) ->
      dict_lookup "assembly" d = Some (PyStr s) -> s <> "" ->
      _compile_tt_glyph_program hash glyph ttglyph (PyDict d) w
      = (inr tt,
         mkWorld (with_program_at ttglyph (Some (Program_assembly s)) (otf w))
           (log w))) /\
  (dict_lookup "id" d <> Some (PyStr h) \/
   truthy (dict_get d "assembly" PyNone) = false ->
   exists lvl msg,
     _compile_tt_glyph_program hash glyph ttglyph (PyDict d) w
     = (inr tt, mkWorld (otf w) (log w ++ [(lvl, msg)]))).
Proof.
  intros Hver Hg Hm Hh.
  assert (Hhash : forall v,
    _check_glyph_hash hash glyph ttglyph v w
    = if is_None v
      then (inr false,
            mkWorld (otf w)
              (log w ++ [(ERROR, "Glyph hash missing, glyph '" +:+ name glyph +:+
                                 "' will have no instructions in font.")]))
      else if match v with
              | PyStr s => negb (String.eqb s h)
              | _ => true
              end
           then (inr false,
                 mkWorld (otf w)
                   (log w ++ [(ERROR, "Glyph hash mismatch, glyph '" +:+
                                      name glyph +:+
                                      "' will have no instructions in font.")]))
           else (inr true, w)).
  { intros v. unfold _check_glyph_hash, deref. run_monad. rewrite Hm, Hg. simpl.
    rewrite Hh. simpl.
    destruct (is_None v); [reflexivity|].
    destruct v; try reflexivity.
    destruct (negb _); reflexivity. }
  assert (Hget : forall k w0, py_get (PyDict d) k PyNone w0
                             = (inr (dict_get d k PyNone), w0))
    by reflexivity.
  unfold _compile_tt_glyph_program.
  rewrite bind_unfold, (check_tt_data_format_accepts d _ w Hver). cbv beta iota.
  rewrite bind_unfold, Hget. cbv beta iota.
  rewrite bind_unfold, Hhash.
  split.
  - intros s Hid Hasm Hne.
    assert (Hid' : dict_get d "id" PyNone = PyStr h)
      by (unfold dict_get; rewrite Hid; reflexivity).
    assert (Hasm' : dict_get d "assembly" PyNone = PyStr s)
      by (unfold dict_get; rewrite Hasm; reflexivity).
    rewrite Hid'. cbn [is_None].
    rewrite String.eqb_refl. cbn [negb]. cbv beta iota.
    rewrite bind_unfold, Hget, Hasm'. cbv beta iota. cbn [is_None truthy].
    rewrite (eqb_empty_false s Hne). cbn [negb]. cbv iota.
    rewrite bind_unfold, set_program_run. cbv beta iota.
    rewrite bind_unfold. cbn [fromAssembly lift]. unfold ret at 1.
    cbv beta iota. rewrite set_program_run. cbn [otf log].
    rewrite with_program_at_twice. reflexivity.
  - intros Hfail.
    destruct (is_None (dict_get d "id" PyNone)) eqn:Hnone; cbv iota.
    { cbn [negb]. cbv iota. eexists _, _. reflexivity. }
    destruct (match dict_get d "id" PyNone with
              | PyStr s => negb (String.eqb s h)
              | _ => true
              end) eqn:Hcmp; cbv iota.
    { cbn [negb]. cbv iota. eexists _, _. reflexivity. }
    cbn [negb]. cbv iota.
    destruct Hfail as [Hid' | Hasm].
    { exfalso. apply Hid'. unfold dict_get in Hcmp, Hnone.
      destruct (dict_lookup "id" d) as [[ | | | s | ]|]; try discriminate.
      apply negb_false_iff, String.eqb_eq in Hcmp. subst. reflexivity. }
    rewrite bind_unfold, Hget. cbv beta iota.
    rewrite Hasm. cbn [negb]. cbv iota.
    destruct (is_None (dict_get d "assembly" PyNone)); eexists _, _; reflexivity.
Qed.

Lemma program_after_compile
    (ufo : Font) (auto : bool)
    (hash : Z -> TTFont -> TTGlyph -> exn + string)
    (ttglyph nm : string) (glyph : Glyph) (d : pydict) (w w1 : World)
    (g1 : TTGlyph) :
  glyphs ufo !! nm = Some glyph ->
  dict_lookup TRUETYPE_INSTRUCTIONS_KEY (lib glyph) = Some (PyDict d) ->
  _compile_tt_glyph_program hash glyph ttglyph (PyDict d) w = (inr tt, w1) ->
  glyf (otf w1) !! ttglyph = Some g1 ->
  program <$> glyf (otf (snd (compileGlyphInstructions ufo auto hash ttglyph nm w)))
                !! ttglyph
  = Some (stripped g1).
Proof.
  intros Hglyph Hrec Hstep Hg1.
  assert (Hdata : dict_get (lib glyph) TRUETYPE_INSTRUCTIONS_KEY PyNone = PyDict d)
    by (unfold dict_get; rewrite Hrec; reflexivity).
  destruct (compileGlyphInstructions_after_compile ufo auto hash ttglyph nm
              glyph w w1 g1 Hglyph) as (r & H & l & Hfin & _).
  - rewrite Hdata. exact Hstep.
  - exact Hg1.
  - rewrite Hfin. cbn [snd otf]. rewrite (final_glyph _ _ _ _ _ Hg1).
    simpl. rewrite program_map_flags. reflexivity.
Qed.

(** When drawing the glyph for the hash raises, the verifier raises the
    same, whatever the stored hash is, and nothing is changed or logged. *)
Lemma check_glyph_hash_raises
    (hash : Z -> TTFont -> TTGlyph -> exn + string)
    (glyph : Glyph) (ttglyph : string) (v : pyval) (w : World)
    (g : TTGlyph) (m : Z * Z) (e : exn) :
  glyf (otf w) !! ttglyph = Some g ->
  hmtx (otf w) !! name glyph = Some m ->
  hash (fst m) (otf w) g = inl e ->
  _check_glyph_hash hash glyph ttglyph v w = (inl e, w).
Proof.
  intros Hg Hm He. unfold _check_glyph_hash, deref. run_monad.
  rewrite Hm, Hg. simpl. rewrite He. reflexivity.
Qed.

(** C1 (amended): for a glyph of the font source with a glyph-level record
    (whose assembly, when not empty, is text), compiled to a glyph that has
    an advance width.  When the compiled glyph can be drawn for its hash,
    the program of the record is attached exactly when the record's version
    is "1", its stored hash is the hash computed from the compiled glyph
    and the advance width, and its assembly is not empty.  When the version
    check fails the call raises the guard's hard error; when the version is
    supported and drawing the glyph raises (a component that is not in the
    font), the call raises that exception; either way nothing is changed
    and nothing is logged.  When the hash or the assembly fails no program
    is attached, the per-glyph compiler returns after one diagnostic, and
    the glyph is left with the program it had (less an empty one on a
    composite). *)
Theorem glyph_program_attached_iff_verified
    (ufo : Font) (auto : bool)
    (hash : Z -> TTFont -> TTGlyph -> exn + string)
    (ttglyph nm : string) (glyph : Glyph) (d : pydict) (w : World)
    (g : TTGlyph) (m : Z * Z) :
  glyphs ufo !! nm = Some glyph ->
  dict_lookup TRUETYPE_INSTRUCTIONS_KEY (lib glyph) = Some (PyDict d) ->
  glyf (otf w) !! ttglyph = Some g ->
  hmtx (otf w) !! name glyph = Some m ->
  assembly_is_text d ->
  let out := compileGlyphInstructions ufo auto hash ttglyph nm w in
  (forall h, hash (fst m) (otf w) g = inr h ->
   supported_version d -> dict_lookup "id" d = Some (PyStr h) ->
   truthy (dict_get d "assembly" PyNone) = true ->
   exists s, dict_lookup "assembly" d = Some (PyStr s) /\
             program <$> glyf (otf (snd out)) !! ttglyph
             = Some (Some (Program_assembly s))) /\
  (~ supported_version d ->
   exists e, hard_format_error e = true /\ out = (inl e, w)) /\
  (forall e, hash (fst m) (otf w) g = inl e ->
   supported_version d -> out = (inl e, w)) /\
  (forall h, hash (fst m) (otf w) g = inr h ->
   supported_version d ->
   dict_lookup "id" d <> Some (PyStr h) \/
   truthy (dict_get d "assembly" PyNone) = false ->
   (exists lvl msg,
       _compile_tt_glyph_program hash glyph ttglyph (PyDict d) w
       = (inr tt, mkWorld (otf w) (log w ++ [(lvl, msg)]))) /\
   program <$> glyf (otf (snd out)) !! ttglyph = Some (stripped g)).
Proof.
  intros Hglyph Hrec Hg Hm Htext. cbv zeta. split; [|split; [|split]].
  - intros h Hh Hver Hid Hasm.
    destruct (Htext Hasm) as (s & Hs).
    assert (Hlook : dict_lookup "assembly" d = Some (PyStr s)).
    { unfold dict_get in Hs. destruct (dict_lookup "assembly" d); [|discriminate].
      congruence. }
    assert (Hne : s <> "").
    { intros ->. rewrite Hs in Hasm. discriminate. }
    exists s. split; [exact Hlook|].
    destruct (compile_tt_glyph_program_run hash glyph ttglyph d w g m h
                Hver Hg Hm Hh) as [Hattach _].
    rewrite (program_after_compile ufo auto hash ttglyph nm glyph d w _
               (with_program (Some (Program_assembly s)) g)
               Hglyph Hrec (Hattach s Hid Hlook Hne)).
    + unfold stripped. cbn [isComposite program with_program geometry].
      cbn [Program_bool]. rewrite (eqb_empty_false s Hne). cbn [negb].
      destruct (isComposite (with_program (Some (Program_assembly s)) g));
        reflexivity.
    + cbn [otf]. rewrite glyf_with_program_at, Hg. reflexivity.
  - intros Hbad.
    destruct (check_tt_data_format_rejects d
                ("glyph '" +:+ name glyph +:+ "'") w Hbad) as (e & He & Hrun).
    exists e. split; [exact He|].
    unfold compileGlyphInstructions. rewrite Hglyph.
    unfold dict_get. rewrite Hrec. cbn [is_None negb]. cbv iota.
    apply bind_inl. unfold _compile_tt_glyph_program. apply bind_inl.
    exact Hrun.
  - intros e He Hver.
    unfold compileGlyphInstructions. rewrite Hglyph.
    unfold dict_get. rewrite Hrec. cbn [is_None negb]. cbv iota.
    apply bind_inl. unfold _compile_tt_glyph_program.
    rewrite bind_unfold, (check_tt_data_format_accepts d _ w Hver). cbv beta iota.
    rewrite bind_unfold. cbn [py_get]. unfold ret at 1. cbv beta iota.
    apply bind_inl. apply (check_glyph_hash_raises hash glyph ttglyph _ w g m e Hg Hm He).
  - intros h Hh Hver Hfail.
    destruct (compile_tt_glyph_program_run hash glyph ttglyph d w g m h
                Hver Hg Hm Hh) as [_ Hsoft].
    destruct (Hsoft Hfail) as (lvl & msg & Hrun).
    split; [exists lvl, msg; exact Hrun|].
    apply (program_after_compile ufo auto hash ttglyph nm glyph d w _ g
             Hglyph Hrec Hrun).
    exact Hg.
Qed.

Lemma glyph_program_attached_iff_verified_witness :
  exists s,
    dict_lookup "assembly"
      [("formatVersion", PyStr "1"); ("id", PyStr "w500s");
       ("assembly", PyStr "IUP[1]")] = Some (PyStr s) /\
    program <$> glyf (otf (snd (compileGlyphInstructions (font_of None [hinted_a])
                                  false hash_by_width "a" "a" sample_world)))
                  !! "a"
    = Some (Some (Program_assembly s)).
Proof.
  destruct (glyph_program_attached_iff_verified (font_of None [hinted_a]) false
              hash_by_width "a" "a" hinted_a
              [("formatVersion", PyStr "1"); ("id", PyStr "w500s");
               ("assembly", PyStr "IUP[1]")]
              sample_world
              (mkTTGlyph (Outline [(0, 0, true); (100, 0, true); (50, 80, true)]%Z [2])
                 (Some (Program_bytecode [])))
              (500, 40)%Z) as [Hattach _].
  - reflexivity.
  - reflexivity.
  - reflexivity.
  - reflexivity.
  - intros _. eexists. reflexivity.
  - apply (Hattach "w500s").
    + vm_compute. reflexivity.
    + reflexivity.
    + reflexivity.
    + reflexivity.
Defined.

(** A record of version "2" whose hash and assembly are in order: the call
    ends in [NotImplementedError], and no diagnostic is logged. *)
Lemma unsupported_version_is_raised :
  exists msg,
    compileGlyphInstructions
      (font_of None [glyph_of "a" (Some (glyph_record (PyStr "2") "w500s" "IUP[1]"))
                       [] []])
      false hash_by_width "a" "a" sample_world
    = (inl (NotImplementedError msg), sample_world) /\
    log sample_world = [].
Proof. eexists. vm_compute. split; reflexivity. Qed.

(** After the tests of the repository: a verified program is attached; a
    record with a stale hash leaves the glyph as it was and logs an
    error. *)
Example compileGlyphInstructions_example :
  program <$> glyf (otf (snd (compileGlyphInstructions (font_of None [hinted_a])
                                false hash_by_width "a" "a" sample_world))) !! "a"
  = Some (Some (Program_assembly "IUP[1]")) /\
  compileGlyphInstructions
    (font_of None [glyph_of "a" (Some (glyph_record (PyStr "1") "w510s" "IUP[1]"))
                     [] []])
    false hash_by_width "a" "a" sample_world
  = (inr tt,
     mkWorld sample_otf
       [(ERROR,
         "Glyph hash mismatch, glyph 'a' will have no instructions in font.")]).
Proof. vm_compute. split; reflexivity. Qed.

(** C3, at the failing input: two components request USE_MY_METRICS, the
    first under the empty identifier.  The resolver returns, both
    components carry the flag and no warning is logged. *)
Lemma use_my_metrics_twice_after_empty_identifier :
  requests_metrics (glyph_of "h" None (metrics_libs [""; "b"]) [Some ""; Some "b"]) 0
  = true /\
  requests_metrics (glyph_of "h" None (metrics_libs [""; "b"]) [Some ""; Some "b"]) 1
  = true /\
  fst (_set_composite_flags false
         (glyph_of "h" None (metrics_libs [""; "b"]) [Some ""; Some "b"])
         "h" sample_world) = inr tt /\
  (fun j => has_flag USE_MY_METRICS
              <$> flags_at (otf (snd (_set_composite_flags false
                     (glyph_of "h" None (metrics_libs [""; "b"]) [Some ""; Some "b"])
                     "h" sample_world))) "h" j) <$> [0; 1]
  = [Some true; Some true] /\
  log (snd (_set_composite_flags false
              (glyph_of "h" None (metrics_libs [""; "b"]) [Some ""; Some "b"])
              "h" sample_world))
  = [(INFO, "    ROUND_XY_TO_GRID"); (INFO, "    ROUND_XY_TO_GRID")].
Proof. vm_compute. repeat split. Qed.

(** The test of the repository: with identifiers that are not empty the
    first claimant keeps the flag and the second is warned about. *)
Example use_my_metrics_first_only_example :
  (fun j => has_flag USE_MY_METRICS
              <$> flags_at (otf (snd (_set_composite_flags false
                     (glyph_of "h" None (metrics_libs ["component0"; "component1"])
                        [Some "component0"; Some "component1"])
                     "h" sample_world))) "h" j) <$> [0; 1]
  = [Some true; Some false] /\
  fst <$> log (snd (_set_composite_flags false
                      (glyph_of "h" None (metrics_libs ["component0"; "component1"])
                         [Some "component0"; Some "component1"])
                      "h" sample_world))
  = [INFO; INFO; WARNING].
Proof. vm_compute. split; reflexivity. Qed.

(** X1: with identifiers that are not empty, automatic metrics selection off,
    matching component counts and well-typed metadata: among the components
    whose metadata requests USE_MY_METRICS exactly the first one in source
    order ends up with the flag, and every later request is answered by a
    warning. *)
Theorem use_my_metrics_first_claimant_only
    (glyph : Glyph) (ttglyph : string) (w : World) (g : TTGlyph)
    (cs : list GlyphComponent) :
  glyf (otf w) !! ttglyph = Some g ->
  geometry g = Components cs ->
  length cs = length (components glyph) ->
  well_typed_object_libs glyph ->
  (forall j, j < length cs -> requests_metrics glyph j = true ->
             id_truthy (components glyph !! j ≫= identifier) = true) ->
  fst (_set_composite_flags false glyph ttglyph w) = inr tt /\
  (forall j, j < length cs -> requests_metrics glyph j = true ->
     has_flag USE_MY_METRICS
       <$> flags_at (otf (snd (_set_composite_flags false glyph ttglyph w))) ttglyph j
     = Some (no_claim glyph 0 j)) /\
  count_warnings (log (snd (_set_composite_flags false glyph ttglyph w)))
  = count_warnings (log w) + (count_claims glyph 0 (length cs) - 1).
Proof.
  intros Hg Hgeo Hlen Hwt Hids.
  destruct (set_composite_flags_run false glyph ttglyph w)
    as (r & H & l & Hrun & _ & Hpar).
  destruct (Hpar g cs Hg Hgeo Hlen) as (Hret & _ & Hmetrics).
  specialize (Hret Hwt).
  destruct (Hmetrics Hret eq_refl Hids) as [Hbits Hcount].
  rewrite Hrun. cbn [fst snd otf log]. split; [exact Hret|]. split.
  - intros j Hj Hreq. rewrite flags_at_upd_all.
    unfold flags_at. rewrite Hg, Hgeo.
    destruct (lookup_lt_is_Some_2 cs j Hj) as [c Hc]. rewrite Hc. simpl.
    f_equal. rewrite has_flag_USE_MY_METRICS. apply Hbits; assumption.
  - rewrite count_warnings_app, Hcount. reflexivity.
Qed.

Lemma use_my_metrics_first_claimant_only_witness :
  fst (_set_composite_flags false
         (glyph_of "h" None (metrics_libs ["component0"; "component1"])
            [Some "component0"; Some "component1"])
         "h" sample_world) = inr tt /\
  (forall j, j < 2 ->
     requests_metrics
       (glyph_of "h" None (metrics_libs ["component0"; "component1"])
          [Some "component0"; Some "component1"]) j = true ->
     has_flag USE_MY_METRICS
       <$> flags_at (otf (snd (_set_composite_flags false
              (glyph_of "h" None (metrics_libs ["component0"; "component1"])
                 [Some "component0"; Some "component1"])
              "h" sample_world))) "h" j
     = Some (no_claim
               (glyph_of "h" None (metrics_libs ["component0"; "component1"])
                  [Some "component0"; Some "component1"]) 0 j)) /\
  count_warnings (log (snd (_set_composite_flags false
         (glyph_of "h" None (metrics_libs ["component0"; "component1"])
            [Some "component0"; Some "component1"])
         "h" sample_world)))
  = count_warnings (log sample_world)
    + (count_claims
         (glyph_of "h" None (metrics_libs ["component0"; "component1"])
            [Some "component0"; Some "component1"]) 0 2 - 1).
Proof.
  apply (use_my_metrics_first_claimant_only
           (glyph_of "h" None (metrics_libs ["component0"; "component1"])
              [Some "component0"; Some "component1"])
           "h" sample_world
           (mkTTGlyph (Components [mkGlyphComponent "a" 0 0 0;
                                   mkGlyphComponent "a" 120 0 0])
              (Some (Program_bytecode [])))
           [mkGlyphComponent "a" 0 0 0; mkGlyphComponent "a" 120 0 0]).
  - reflexivity.
  - reflexivity.
  - reflexivity.
  - intros id v Hv. simpl in Hv.
    repeat match type of Hv with
           | context [String.eqb ?a ?b] =>
               destruct (String.eqb a b); [inversion Hv; eauto|]
           end.
    discriminate.
  - intros j Hj _. destruct j as [ | [ | j]]; [reflexivity | reflexivity | simpl in Hj; lia].
Defined.

(** * Further properties of the compiler *)
(** ** Frames *)

Section Preserves.

Context (R : relation World) `{!PreOrder R}.

Lemma preserves_ret {A} (a : A) : preserves R (ret a).
Proof. intros w. reflexivity. Qed.

Lemma preserves_raise {A} (e : exn) : preserves R (raise e : M A).
Proof. intros w. reflexivity. Qed.

Lemma preserves_bind {A B} (m : M A) (k : A -> M B) :
  preserves R m -> (forall a, preserves R (k a)) -> preserves R (bind m k).
Proof.
  intros Hm Hk w. rewrite bind_unfold.
  specialize (Hm w). destruct (m w) as [[e | a] w1]; [exact Hm|].
  etransitivity; [exact Hm | apply Hk].
Qed.

Lemma preserves_lift {A} (r : exn + A) : preserves R (lift r).
Proof. destruct r; [apply preserves_raise | apply preserves_ret]. Qed.

Lemma preserves_get_otf : preserves R get_otf.
Proof. intros w. reflexivity. Qed.

Lemma preserves_py_get (obj : pyval) (k : string) (dflt : pyval) :
  preserves R (py_get obj k dflt).
Proof. destruct obj; first [apply preserves_ret | apply preserves_raise]. Qed.

Lemma preserves_py_in (k : string) (obj : pyval) : preserves R (py_in k obj).
Proof. destruct obj; first [apply preserves_ret | apply preserves_raise]. Qed.

Lemma preserves_py_getitem (obj : pyval) (k : string) :
  preserves R (py_getitem obj k).
Proof.
  destruct obj; simpl; try apply preserves_raise.
  destruct (dict_lookup k d); [apply preserves_ret | apply preserves_raise].
Qed.

Lemma preserves_check_tt_data_format (ttdata : pyval) (label : string) :
  preserves R (_check_tt_data_format ttdata label).
Proof. intros w. rewrite check_tt_data_format_world. reflexivity. Qed.

(** [f = otf; otf = F f] and what follows it *)
Lemma preserves_modify (F : TTFont -> TTFont) :
  (forall w, R w (mkWorld (F (otf w)) (log w))) ->
  preserves R (bind get_otf (fun f => put_otf (F f))).
Proof. intros HF w. apply HF. Qed.

Lemma preserves_modify_then {B} (F : TTFont -> TTFont) (k : unit -> M B) :
  (forall w, R w (mkWorld (F (otf w)) (log w))) ->
  (forall u, preserves R (k u)) ->
  preserves R (bind get_otf (fun f => bind (put_otf (F f)) k)).
Proof.
  intros HF Hk w. unfold bind, get_otf, put_otf. simpl.
  etransitivity; [apply HF | apply Hk].
Qed.

End Preserves.

(** One syntax-directed step of a frame proof; [prim] deals with the
    operations that write. *)
Ltac preserves_step prim :=
  lazymatch goal with
  | |- preserves _ (bind _ _) =>
      apply preserves_bind; [typeclasses eauto | | intros ?]
  | |- preserves _ (ret _) => apply preserves_ret; typeclasses eauto
  | |- preserves _ (raise _) => apply preserves_raise; typeclasses eauto
  | |- preserves _ (lift _) => apply preserves_lift; typeclasses eauto
  | |- preserves _ get_otf => apply preserves_get_otf; typeclasses eauto
  | |- preserves _ (py_get _ _ _) => apply preserves_py_get; typeclasses eauto
  | |- preserves _ (py_in _ _) => apply preserves_py_in; typeclasses eauto
  | |- preserves _ (py_getitem _ _) =>
      apply preserves_py_getitem; typeclasses eauto
  | |- preserves _ (_check_tt_data_format _ _) =>
      apply preserves_check_tt_data_format; typeclasses eauto
  | |- _ => first [ prim () | case_match ]
  end.

Lemma log_extends_same (w w' : World) : log w' = log w -> log_extends w w'.
Proof. intros H. exists []. rewrite app_nil_r. exact H. Qed.

Lemma log_extends_refl (w : World) : log_extends w w.
Proof. apply log_extends_same. reflexivity. Qed.

Lemma log_extends_trans (w1 w2 w3 : World) :
  log_extends w1 w2 -> log_extends w2 w3 -> log_extends w1 w3.
Proof.
  intros [l1 H1] [l2 H2]. exists (l1 ++ l2)%list.
  rewrite H2, H1, app_assoc. reflexivity.
Qed.

Lemma same_component_preorder : PreOrder same_component.
Proof.
  split.
  - intros c. repeat split; reflexivity.
  - intros c1 c2 c3 (Hn1 & Hx1 & Hy1 & Hb1) (Hn2 & Hx2 & Hy2 & Hb2).
    repeat split; try congruence.
    intros n Hn. rewrite Hb2, Hb1 by assumption. reflexivity.
Qed.

#[local] Existing Instance same_component_preorder.

Lemma same_shape_preorder : PreOrder same_shape.
Proof.
  split.
  - intros g. unfold same_shape.
    destruct (geometry g); [split; reflexivity | reflexivity].
  - intros g1 g2 g3. unfold same_shape.
    destruct (geometry g1), (geometry g2), (geometry g3); try tauto.
    + intros [-> ->] [-> ->]. split; reflexivity.
    + intros H1 H2. etransitivity; eassumption.
Qed.

#[local] Existing Instance same_shape_preorder.

Lemma same_hinted_shape_preorder : PreOrder same_hinted_shape.
Proof.
  split.
  - intros g. split; reflexivity.
  - intros g1 g2 g3 [Hp1 Hs1] [Hp2 Hs2]. split; [congruence|].
    etransitivity; eassumption.
Qed.

#[local] Existing Instance same_hinted_shape_preorder.

Lemma frame_of_preorder (Rg : relation TTGlyph) (ttglyph : string) :
  PreOrder Rg -> PreOrder (frame_of Rg ttglyph).
Proof.
  intros HRg. split.
  - intros w. unfold frame_of. split_and!; try reflexivity.
    apply log_extends_refl.
  - intros w1 w2 w3 (Hh1 & Hm1 & Hp1 & Hc1 & Hk1 & Hg1 & Hl1)
      (Hh2 & Hm2 & Hp2 & Hc2 & Hk2 & Hg2 & Hl2).
    unfold frame_of. split_and!; try congruence.
    + intros k Hk. rewrite Hk2, Hk1 by assumption. reflexivity.
    + destruct Hg1 as [g1 g2 H12 | ]; inversion Hg2; subst;
        [apply Some_Forall2 | apply None_Forall2].
      etransitivity; eassumption.
    + eapply log_extends_trans; eassumption.
Qed.

Lemma glyph_frame_preorder (ttglyph : string) : PreOrder (glyph_frame ttglyph).
Proof. apply frame_of_preorder. apply same_shape_preorder. Qed.

Lemma resolver_frame_preorder (ttglyph : string) :
  PreOrder (resolver_frame ttglyph).
Proof. apply frame_of_preorder. apply same_hinted_shape_preorder. Qed.

Lemma program_frame_preorder (table_tag : string) :
  PreOrder (program_frame table_tag).
Proof.
  split.
  - intros w. unfold program_frame. split_and!; try reflexivity.
    apply log_extends_refl.
  - intros w1 w2 w3 (Hg1 & Hh1 & Hm1 & Hc1 & Hp1 & Hl1)
      (Hg2 & Hh2 & Hm2 & Hc2 & Hp2 & Hl2).
    unfold program_frame. split_and!; try congruence.
    + intros t Ht. rewrite Hp2, Hp1 by assumption. reflexivity.
    + eapply log_extends_trans; eassumption.
Qed.

Lemma cvt_frame_preorder : PreOrder cvt_frame.
Proof.
  split.
  - intros w. unfold cvt_frame. repeat split; reflexivity.
  - intros w1 w2 w3 (Hg1 & Hh1 & Hm1 & Hp1 & Hl1) (Hg2 & Hh2 & Hm2 & Hp2 & Hl2).
    unfold cvt_frame. repeat split; congruence.
Qed.

Lemma maxp_frame_preorder : PreOrder maxp_frame.
Proof.
  split.
  - intros w. unfold maxp_frame. repeat split; reflexivity.
  - intros w1 w2 w3 (Hg1 & Hh1 & Hp1 & Hc1 & Hm1 & Hl1)
      (Hg2 & Hh2 & Hp2 & Hc2 & Hm2 & Hl2).
    unfold maxp_frame. repeat split; try congruence.
    intros n Hn Hs. rewrite Hm2, Hm1 by assumption. reflexivity.
Qed.

#[local] Existing Instance glyph_frame_preorder.
#[local] Existing Instance resolver_frame_preorder.
#[local] Existing Instance program_frame_preorder.
#[local] Existing Instance cvt_frame_preorder.
#[local] Existing Instance maxp_frame_preorder.

(** The resolver's frame is within the per-glyph compiler's. *)
Lemma resolver_frame_glyph_frame (ttglyph : string) (w w' : World) :
  resolver_frame ttglyph w w' -> glyph_frame ttglyph w w'.
Proof.
  intros (Hh & Hm & Hp & Hc & Hk & Hg & Hl).
  unfold glyph_frame, frame_of. split_and!; try assumption.
  destruct Hg as [g g' [_ Hs] | ]; [apply Some_Forall2 | apply None_Forall2].
  exact Hs.
Qed.

Lemma frame_of_logger (Rg : relation TTGlyph) (ttglyph : string)
    (lvl : level) (msg : string) :
  PreOrder Rg -> preserves (frame_of Rg ttglyph) (logger lvl msg).
Proof.
  intros HRg w. unfold frame_of, logger. simpl. split_and!; try reflexivity.
  eexists. reflexivity.
Qed.

Lemma glyph_frame_set_program (ttglyph : string) (p : option Program) :
  preserves (glyph_frame ttglyph) (set_program ttglyph p).
Proof.
  intros w. rewrite set_program_run.
  unfold glyph_frame, frame_of, with_program_at. simpl.
  split_and!; try reflexivity.
  - intros k Hk. apply lookup_alter_ne. congruence.
  - rewrite lookup_alter_eq.
    destruct (glyf (otf w) !! ttglyph) as [g|];
      [apply Some_Forall2 | apply None_Forall2].
    unfold same_shape, with_program. simpl.
    destruct (geometry g); [split; reflexivity | reflexivity].
  - apply log_extends_same. reflexivity.
Qed.

(** An update of the flags of one component that keeps every bit but the
    resolver's. *)
Lemma resolver_frame_update_flags (ttglyph : string) (i : nat) (h : Z -> Z) :
  (forall z n, ~ resolver_bit n -> Z.testbit (h z) n = Z.testbit z n) ->
  preserves (resolver_frame ttglyph) (update_flags ttglyph i h).
Proof.
  intros Hh w. unfold resolver_frame, frame_of, update_flags, upd_flags.
  run_monad. split_and!; try reflexivity.
  - intros k Hk. apply lookup_alter_ne. congruence.
  - rewrite lookup_alter_eq.
    destruct (glyf (otf w) !! ttglyph) as [g|];
      [apply Some_Forall2 | apply None_Forall2].
    unfold same_hinted_shape, same_shape, update_component.
    destruct (geometry g) as [pts ends | cs] eqn:Hgeo; simpl.
    + rewrite Hgeo. repeat split; reflexivity.
    + split; [reflexivity|].
      apply Forall2_alter_r.
      * reflexivity.
      * intros c c' _ _ (Hn & Hx & Hy & Hb). repeat split; try assumption.
        intros n Hn'. simpl. rewrite Hh by assumption. apply Hb. assumption.
  - apply log_extends_same. reflexivity.
Qed.

Lemma testbit_resolver_mask (mask : Z) (n : Z) :
  mask = ROUND_XY_TO_GRID \/ mask = USE_MY_METRICS \/ mask = OVERLAP_COMPOUND ->
  ~ resolver_bit n -> Z.testbit mask n = false.
Proof.
  intros Hmask Hn. unfold resolver_bit in Hn.
  destruct (Z.ltb_spec n 0) as [Hneg | Hpos].
  { apply Z.testbit_neg_r. exact Hneg. }
  destruct Hmask as [-> | [-> | ->]].
  - change ROUND_XY_TO_GRID with (2 ^ 2)%Z.
    rewrite Z.pow2_bits_eqb by lia. apply Z.eqb_neq. lia.
  - change USE_MY_METRICS with (2 ^ 9)%Z.
    rewrite Z.pow2_bits_eqb by lia. apply Z.eqb_neq. lia.
  - change OVERLAP_COMPOUND with (2 ^ 10)%Z.
    rewrite Z.pow2_bits_eqb by lia. apply Z.eqb_neq. lia.
Qed.

Lemma lor_mask_other_bits (mask z n : Z) :
  mask = ROUND_XY_TO_GRID \/ mask = USE_MY_METRICS \/ mask = OVERLAP_COMPOUND ->
  ~ resolver_bit n -> Z.testbit (Z.lor z mask) n = Z.testbit z n.
Proof.
  intros Hmask Hn. rewrite Z.lor_spec, (testbit_resolver_mask mask n Hmask Hn).
  apply orb_false_r.
Qed.

Lemma clear_mask_other_bits (mask z n : Z) :
  mask = ROUND_XY_TO_GRID \/ mask = USE_MY_METRICS \/ mask = OVERLAP_COMPOUND ->
  ~ resolver_bit n -> Z.testbit (Z.land z (Z.lnot mask)) n = Z.testbit z n.
Proof.
  intros Hmask Hn.
  destruct (Z.ltb_spec n 0) as [Hneg | Hpos].
  { rewrite !Z.testbit_neg_r by assumption. reflexivity. }
  rewrite Z.land_spec, Z.lnot_spec by assumption.
  rewrite (testbit_resolver_mask mask n Hmask Hn). apply andb_true_r.
Qed.

Lemma resolver_frame_set_flag (ttglyph : string) (i : nat) (mask : Z) :
  mask = ROUND_XY_TO_GRID \/ mask = USE_MY_METRICS \/ mask = OVERLAP_COMPOUND ->
  preserves (resolver_frame ttglyph) (set_flag ttglyph i mask).
Proof.
  intros Hmask. apply resolver_frame_update_flags.
  intros z n Hn. apply lor_mask_other_bits; assumption.
Qed.

Lemma resolver_frame_clear_flag (ttglyph : string) (i : nat) (mask : Z) :
  mask = ROUND_XY_TO_GRID \/ mask = USE_MY_METRICS \/ mask = OVERLAP_COMPOUND ->
  preserves (resolver_frame ttglyph) (clear_flag ttglyph i mask).
Proof.
  intros Hmask. apply resolver_frame_update_flags.
  intros z n Hn. apply clear_mask_other_bits; assumption.
Qed.

Ltac resolver_prim _ :=
  lazymatch goal with
  | |- preserves _ (logger _ _) =>
      apply frame_of_logger; apply same_hinted_shape_preorder
  | |- preserves _ (set_flag _ _ _) => apply resolver_frame_set_flag; tauto
  | |- preserves _ (clear_flag _ _ _) => apply resolver_frame_clear_flag; tauto
  end.

Lemma resolver_frame_component_flags (auto : bool) (glyph : Glyph)
    (ttglyph : string) (i : nat) (umm : option string) :
  preserves (resolver_frame ttglyph) (component_flags auto glyph ttglyph i umm).
Proof.
  unfold component_flags, has_component_lib, component_lib_flags,
    overlap_compound_flag.
  repeat preserves_step resolver_prim.
Qed.

Lemma resolver_frame_flags_loop (auto : bool) (glyph : Glyph) (ttglyph : string)
    (cs : list GlyphComponent) :
  forall (i : nat) (umm : option string),
    preserves (resolver_frame ttglyph) (flags_loop auto glyph ttglyph i cs umm).
Proof.
  induction cs as [ | c cs IH]; intros i umm; simpl.
  - apply preserves_ret. apply resolver_frame_preorder.
  - apply preserves_bind; [apply resolver_frame_preorder | |].
    + apply resolver_frame_component_flags.
    + intros claimed. apply IH.
Qed.

Lemma resolver_frame_set_composite_flags (auto : bool) (glyph : Glyph)
    (ttglyph : string) :
  preserves (resolver_frame ttglyph) (_set_composite_flags auto glyph ttglyph).
Proof.
  unfold _set_composite_flags, deref.
  repeat first [ apply resolver_frame_flags_loop
               | preserves_step resolver_prim ].
Qed.

(** X2: on every path, normal or not, the composite flag resolver changes
    nothing but flags of components of the glyph it is given, and of those
    flags nothing but ROUND_XY_TO_GRID, USE_MY_METRICS and OVERLAP_COMPOUND:
    the glyph's program, the target and the offsets of its components,
    their number, every other glyph and every other table stay as they
    were, and the log only grows. *)
Theorem set_composite_flags_frame
    (auto : bool) (glyph : Glyph) (ttglyph : string) (w : World) :
  resolver_frame ttglyph w (snd (_set_composite_flags auto glyph ttglyph w)).
Proof. apply resolver_frame_set_composite_flags. Qed.

Lemma preserves_weaken (R R' : World -> World -> Prop) {A} (m : M A) :
  (forall w w', R w w' -> R' w w') -> preserves R m -> preserves R' m.
Proof. intros HR Hm w. apply HR, Hm. Qed.

Ltac glyph_prim _ :=
  lazymatch goal with
  | |- preserves _ (logger _ _) =>
      apply frame_of_logger; apply same_shape_preorder
  | |- preserves _ (set_program _ _) => apply glyph_frame_set_program
  | |- preserves _ (_set_composite_flags _ _ _) =>
      eapply preserves_weaken;
      [ | apply resolver_frame_set_composite_flags ];
      apply resolver_frame_glyph_frame
  end.

Lemma glyph_frame_check_glyph_hash
    (hash : Z -> TTFont -> TTGlyph -> exn + string)
    (glyph : Glyph) (ttglyph : string) (glyph_hash : pyval) :
  preserves (glyph_frame ttglyph) (_check_glyph_hash hash glyph ttglyph glyph_hash).
Proof.
  unfold _check_glyph_hash, deref. repeat preserves_step glyph_prim.
Qed.

Lemma glyph_frame_compile_tt_glyph_program
    (hash : Z -> TTFont -> TTGlyph -> exn + string)
    (glyph : Glyph) (ttglyph : string) (ttdata : pyval) :
  preserves (glyph_frame ttglyph)
    (_compile_tt_glyph_program hash glyph ttglyph ttdata).
Proof.
  unfold _compile_tt_glyph_program.
  repeat first [ apply glyph_frame_check_glyph_hash
               | preserves_step glyph_prim ].
Qed.

(** X3: on every path, normal or not, [compileGlyphInstructions] changes
    nothing of the output font but the compiled glyph it is given, and of
    that glyph nothing but its program and the three flags of its
    components: outlines, component targets and offsets, advance widths,
    [maxp], the font-level programs and the control values stay as they
    were, and the log only grows. *)
Theorem compileGlyphInstructions_frame
    (ufo : Font) (auto : bool)
    (hash : Z -> TTFont -> TTGlyph -> exn + string)
    (ttglyph nm : string) (w : World) :
  glyph_frame ttglyph w
    (snd (compileGlyphInstructions ufo auto hash ttglyph nm w)).
Proof.
  revert w. change (preserves (glyph_frame ttglyph)
                      (compileGlyphInstructions ufo auto hash ttglyph nm)).
  unfold compileGlyphInstructions, deref.
  repeat first [ apply glyph_frame_compile_tt_glyph_program
               | preserves_step glyph_prim ].
Qed.

Lemma program_frame_logger (table_tag : string) (lvl : level) (msg : string) :
  preserves (program_frame table_tag) (logger lvl msg).
Proof.
  intros w. unfold program_frame, logger. simpl. split_and!; try reflexivity.
  eexists. reflexivity.
Qed.

Lemma program_frame_set_table_program (table_tag : string) (p : Program) :
  preserves (program_frame table_tag) (set_table_program table_tag p).
Proof.
  intros w. unfold program_frame, set_table_program. run_monad.
  split_and!; try reflexivity.
  - intros t Ht. apply lookup_insert_ne. congruence.
  - apply log_extends_same. reflexivity.
Qed.

Ltac program_prim _ :=
  lazymatch goal with
  | |- preserves _ (logger _ _) => apply program_frame_logger
  | |- preserves _ (set_table_program _ _) =>
      apply program_frame_set_table_program
  end.

(** X4: on every path, normal or not, the compiler of a font-level program
    changes nothing of the output font but the program of the table it is
    asked for: the glyphs, the advance widths, [maxp], the control values
    and the program of the other table stay as they were, and the log only
    grows. *)
Theorem compile_program_frame (ufo : Font) (key table_tag : string) (w : World) :
  program_frame table_tag w (snd (_compile_program ufo key table_tag w)).
Proof.
  revert w. change (preserves (program_frame table_tag)
                      (_compile_program ufo key table_tag)).
  unfold _compile_program. repeat preserves_step program_prim.
Qed.

(** X5: on every path, normal or not, the builder of the control-value
    table changes nothing of the output font but that table, and logs
    nothing. *)
Theorem setupTable_cvt_frame (ufo : Font) (int : string -> option Z) (w : World) :
  cvt_frame w (snd (setupTable_cvt ufo int w)).
Proof.
  revert w. change (preserves cvt_frame (setupTable_cvt ufo int)).
  unfold setupTable_cvt.
  apply preserves_bind; [typeclasses eauto | | intros cvts].
  - repeat preserves_step ltac:(fun _ => fail).
  - destruct cvts as [ | v cvts]; [apply preserves_ret; typeclasses eauto|].
    apply preserves_modify_then; [typeclasses eauto | |].
    + intros w. unfold cvt_frame. simpl. split_and!; reflexivity.
    + intros _. apply preserves_bind; [typeclasses eauto | | intros vals].
      * apply preserves_lift. typeclasses eauto.
      * apply preserves_modify.
        intros w. unfold cvt_frame. simpl. split_and!; reflexivity.
Qed.

Lemma maxp_frame_setattr_maxp (n : string) (value : pyval) :
  n ∈ maxp_names \/ n = "maxSizeOfInstructions" ->
  preserves maxp_frame (setattr_maxp n value).
Proof.
  intros Hn. unfold setattr_maxp. apply preserves_modify.
  intros w. unfold maxp_frame. simpl. split_and!; try reflexivity.
  intros n' Hn' Hs. apply lookup_insert_ne. intros ->. tauto.
Qed.

Lemma maxp_frame_copy_maxp (ttdata : pyval) (names : list string) :
  names ⊆ maxp_names -> preserves maxp_frame (copy_maxp ttdata names).
Proof.
  induction names as [ | n names IH]; intros Hsub; simpl.
  - apply preserves_ret. typeclasses eauto.
  - apply preserves_bind; [typeclasses eauto | | intros value].
    { apply preserves_py_get. typeclasses eauto. }
    apply preserves_bind; [typeclasses eauto | | intros _].
    + destruct (negb (is_None value)).
      * apply maxp_frame_setattr_maxp. left. apply Hsub. left.
      * apply preserves_ret. typeclasses eauto.
    + apply IH. intros n' Hn'. apply Hsub. right. exact Hn'.
Qed.

(** X6: on every path, normal or not (a program that does not assemble
    makes it raise), [update_maxp] changes nothing of the output font but
    the six copied capacity fields and the derived one of [maxp], and logs
    nothing. *)
Theorem update_maxp_frame
    (ufo : Font) (assemble : string -> option (list Byte.byte)) (w : World) :
  maxp_frame w (snd (update_maxp ufo assemble w)).
Proof.
  revert w. change (preserves maxp_frame (update_maxp ufo assemble)).
  unfold update_maxp.
  apply preserves_bind; [typeclasses eauto | | intros _].
  - destruct (truthy _).
    + apply maxp_frame_copy_maxp. reflexivity.
    + apply preserves_ret. typeclasses eauto.
  - apply preserves_bind; [typeclasses eauto | | intros f].
    { apply preserves_get_otf. typeclasses eauto. }
    apply preserves_bind; [typeclasses eauto | | intros sizes].
    { apply preserves_lift. typeclasses eauto. }
    apply maxp_frame_setattr_maxp. right. reflexivity.
Qed.

(** ** Outcomes of the verifier, the per-glyph compiler and the global
    programs *)

Lemma check_glyph_hash_run
    (hash : Z -> TTFont -> TTGlyph -> exn + string)
    (glyph : Glyph) (ttglyph : string) (v : pyval) (w : World)
    (g : TTGlyph) (m : Z * Z) (h : string) :
  glyf (otf w) !! ttglyph = Some g ->
  hmtx (otf w) !! name glyph = Some m ->
  hash (fst m) (otf w) g = inr h ->
  _check_glyph_hash hash glyph ttglyph v w
  = if is_None v
    then (inr false,
          logged w ERROR ("Glyph hash missing, glyph '" +:+ name glyph +:+
                          "' will have no instructions in font."))
    else if match v with
            | PyStr s => negb (String.eqb s h)
            | _ => true
            end
         then (inr false,
               logged w ERROR ("Glyph hash mismatch, glyph '" +:+ name glyph +:+
                               "' will have no instructions in font."))
         else (inr true, w).
Proof.
  intros Hg Hm Hh. unfold _check_glyph_hash, deref, logged. run_monad.
  rewrite Hm, Hg. simpl. rewrite Hh. simpl.
  destruct (is_None v); [reflexivity|].
  destruct v; try reflexivity.
  destruct (negb _); reflexivity.
Qed.

(** X7: the Hash Verifier on a compiled glyph that has an advance width.
    When the glyph can be drawn, the verifier returns a boolean; the answer
    is [True] exactly when the stored hash is the string the hash pen
    computes from the advance width and the glyph; the font is never
    changed; a [True] answer logs nothing and a [False] answer logs exactly
    one error.  When drawing the glyph raises (a component that is not in
    the font), the verifier raises the same, before the stored hash is
    looked at, and nothing is changed or logged. *)
Theorem check_glyph_hash_verdict
    (hash : Z -> TTFont -> TTGlyph -> exn + string)
    (glyph : Glyph) (ttglyph : string) (glyph_hash : pyval) (w : World)
    (g : TTGlyph) (m : Z * Z) :
  glyf (otf w) !! ttglyph = Some g ->
  hmtx (otf w) !! name glyph = Some m ->
  (forall h, hash (fst m) (otf w) g = inr h ->
   exists b : bool,
     fst (_check_glyph_hash hash glyph ttglyph glyph_hash w) = inr b /\
     (b = true <-> glyph_hash = PyStr h) /\
     otf (snd (_check_glyph_hash hash glyph ttglyph glyph_hash w)) = otf w /\
     if b
     then log (snd (_check_glyph_hash hash glyph ttglyph glyph_hash w)) = log w
     else exists msg,
         log (snd (_check_glyph_hash hash glyph ttglyph glyph_hash w))
         = (log w ++ [(ERROR, msg)])%list) /\
  (forall e, hash (fst m) (otf w) g = inl e ->
   _check_glyph_hash hash glyph ttglyph glyph_hash w = (inl e, w)).
Proof.
  intros Hg Hm. split.
  - intros h Hh.
    rewrite (check_glyph_hash_run hash glyph ttglyph _ w g m h Hg Hm Hh).
    destruct glyph_hash as [ | b | n | s | d]; cbn [is_None].
    1-3, 5: exists false; split; [reflexivity|];
            (split; [split; discriminate|]); split; [reflexivity|];
            eexists; reflexivity.
    destruct (String.eqb_spec s h) as [E | E]; cbn [negb].
    + exists true. subst s. repeat split; reflexivity.
    + exists false. split; [reflexivity|]. split.
      * split; [discriminate | intros H; inversion H; contradiction].
      * split; [reflexivity | eexists; reflexivity].
  - intros e He.
    apply (check_glyph_hash_raises hash glyph ttglyph _ w g m e Hg Hm He).
Qed.

Lemma check_glyph_hash_verdict_witness :
  fst (_check_glyph_hash hash_by_width hinted_a "a" (PyStr "w500s") sample_world)
  = inr true.
Proof.
  destruct (check_glyph_hash_verdict hash_by_width hinted_a "a" (PyStr "w500s")
              sample_world sample_a (500, 40)%Z) as [Hdrawn _].
  - reflexivity.
  - reflexivity.
  - destruct (Hdrawn "w500s") as (b & Hb & Hiff & _).
    + vm_compute. reflexivity.
    + rewrite Hb. f_equal. apply Hiff. reflexivity.
Defined.

(** X8: the soft failures of the per-glyph compiler, for a record of the
    supported version and a glyph that has an advance width and can be
    drawn for its hash.  Each leaves the font as it is, returns normally
    and logs exactly one message; the hash is looked at before the
    assembly.  A missing (or [None]) hash and a hash that differs are
    errors; with the right hash a missing (or [None]) assembly is an error
    too, while an empty assembly is only a debug message. *)
Theorem compile_tt_glyph_program_diagnostics
    (hash : Z -> TTFont -> TTGlyph -> exn + string)
    (glyph : Glyph) (ttglyph : string) (d : pydict) (w : World)
    (g : TTGlyph) (m : Z * Z) (h : string) :
  supported_version d ->
  glyf (otf w) !! ttglyph = Some g ->
  hmtx (otf w) !! name glyph = Some m ->
  hash (fst m) (otf w) g = inr h ->
  let stored := dict_get d "id" PyNone in
  let computed := PyStr h in
  let asm := dict_get d "assembly" PyNone in
  let run := _compile_tt_glyph_program hash glyph ttglyph (PyDict d) w in
  (stored = PyNone ->
   run = (inr tt,
          logged w ERROR ("Glyph hash missing, glyph '" +:+ name glyph +:+
                          "' will have no instructions in font."))) /\
  (stored <> PyNone -> stored <> computed ->
   run = (inr tt,
          logged w ERROR ("Glyph hash mismatch, glyph '" +:+ name glyph +:+
                          "' will have no instructions in font."))) /\
  (stored = computed -> asm = PyNone ->
   run = (inr tt,
          logged w ERROR ("Glyph assembly missing, glyph '" +:+ name glyph +:+
                          "' will have no instructions in font."))) /\
  (stored = computed -> asm <> PyNone -> truthy asm = false ->
   run = (inr tt,
          logged w DEBUG ("Glyph '" +:+ name glyph +:+ "' has no instructions."))).
Proof.
  intros Hver Hg Hm Hh stored computed asm run.
  assert (Hget : forall k w0, py_get (PyDict d) k PyNone w0
                             = (inr (dict_get d k PyNone), w0))
    by reflexivity.
  assert (Hrun : run
    = match _check_glyph_hash hash glyph ttglyph stored w with
      | (inl e, w1) => (inl e, w1)
      | (inr ok, w1) =>
          if negb ok then (inr tt, w1)
          else if is_None asm then
            (inr tt,
             logged w1 ERROR ("Glyph assembly missing, glyph '" +:+ name glyph +:+
                              "' will have no instructions in font."))
          else if negb (truthy asm) then
            (inr tt,
             logged w1 DEBUG ("Glyph '" +:+ name glyph +:+ "' has no instructions."))
          else
            (bind (set_program ttglyph (Some Program_new))
               (fun _ => bind (lift (fromAssembly asm))
                           (fun p => set_program ttglyph (Some p)))) w1
      end).
  { unfold run, _compile_tt_glyph_program.
    rewrite bind_unfold, (check_tt_data_format_accepts d _ w Hver). cbv beta iota.
    rewrite bind_unfold, Hget. cbv beta iota.
    rewrite bind_unfold. fold stored.
    destruct (_check_glyph_hash hash glyph ttglyph stored w) as [[e | ok] w1];
      [reflexivity|].
    destruct ok; cbn [negb]; cbv iota; [|reflexivity].
    rewrite bind_unfold, Hget. cbv beta iota. fold asm.
    destruct (is_None asm); [reflexivity|].
    destruct (negb (truthy asm)); reflexivity. }
  rewrite Hrun, (check_glyph_hash_run hash glyph ttglyph stored w g m h Hg Hm Hh).
  clear Hrun.
  split; [|split; [|split]].
  - intros ->. reflexivity.
  - intros Hnone Hdiff.
    destruct stored as [ | b | n | s | d']; try contradiction; try reflexivity.
    cbn [is_None].
    destruct (String.eqb_spec s h) as [E | E]; [|reflexivity].
    exfalso. apply Hdiff. unfold computed. rewrite E. reflexivity.
  - intros -> ->. unfold computed. cbn [is_None].
    rewrite String.eqb_refl. reflexivity.
  - intros -> Hnone Hempty. unfold computed. cbn [is_None].
    rewrite String.eqb_refl. cbn [negb]. cbv iota.
    destruct asm; try contradiction; cbn [is_None]; rewrite Hempty; reflexivity.
Qed.

Lemma compile_tt_glyph_program_diagnostics_witness :
  _compile_tt_glyph_program hash_by_width
    (glyph_of "a" (Some (glyph_record (PyStr "1") "w500s" "")) [] []) "a"
    (glyph_record (PyStr "1") "w500s" "") sample_world
  = (inr tt, logged sample_world DEBUG "Glyph 'a' has no instructions.").
Proof.
  destruct (compile_tt_glyph_program_diagnostics hash_by_width
              (glyph_of "a" (Some (glyph_record (PyStr "1") "w500s" "")) [] [])
              "a"
              [("formatVersion", PyStr "1"); ("id", PyStr "w500s");
               ("assembly", PyStr "")]
              sample_world sample_a (500, 40)%Z "w500s")
    as (_ & _ & _ & Hempty).
  - reflexivity.
  - reflexivity.
  - reflexivity.
  - vm_compute. reflexivity.
  - apply Hempty.
    + reflexivity.
    + discriminate.
    + reflexivity.
Defined.

(** X9: a glyph of the source whose record is of the supported version but
    whose name has no entry in the [hmtx] table of the compiled font makes
    [compileGlyphInstructions] raise [KeyError] with that name: the advance
    width is read before the stored hash is looked at.  Nothing is changed
    and nothing is logged. *)
Theorem compileGlyphInstructions_needs_advance_width
    (ufo : Font) (auto : bool)
    (hash : Z -> TTFont -> TTGlyph -> exn + string)
    (ttglyph nm : string) (glyph : Glyph) (d : pydict) (w : World) :
  glyphs ufo !! nm = Some glyph ->
  dict_lookup TRUETYPE_INSTRUCTIONS_KEY (lib glyph) = Some (PyDict d) ->
  supported_version d ->
  hmtx (otf w) !! name glyph = None ->
  compileGlyphInstructions ufo auto hash ttglyph nm w
  = (inl (KeyError (name glyph)), w).
Proof.
  intros Hglyph Hrec Hver Hm.
  unfold compileGlyphInstructions. rewrite Hglyph.
  unfold dict_get. rewrite Hrec. cbn [is_None negb].
  apply bind_inl. unfold _compile_tt_glyph_program.
  rewrite bind_unfold, (check_tt_data_format_accepts d _ w Hver). cbv beta iota.
  rewrite bind_unfold. cbn [py_get]. unfold ret at 1. cbv beta iota.
  apply bind_inl. unfold _check_glyph_hash. run_monad. rewrite Hm. reflexivity.
Qed.

Lemma compileGlyphInstructions_needs_advance_width_witness :
  compileGlyphInstructions
    (font_of None [glyph_of "b" (Some (glyph_record (PyStr "1") "w500s" "IUP[1]"))
                     [] []])
    false hash_by_width "a" "b" sample_world
  = (inl (KeyError "b"), sample_world).
Proof.
  apply (compileGlyphInstructions_needs_advance_width
           (font_of None [glyph_of "b"
                            (Some (glyph_record (PyStr "1") "w500s" "IUP[1]"))
                            [] []])
           false hash_by_width "a" "b"
           (glyph_of "b" (Some (glyph_record (PyStr "1") "w500s" "IUP[1]")) [] [])
           [("formatVersion", PyStr "1"); ("id", PyStr "w500s");
            ("assembly", PyStr "IUP[1]")]
           sample_world).
  - reflexivity.
  - reflexivity.
  - reflexivity.
  - reflexivity.
Defined.

(** X10: the three outcomes of the compiler of a font-level program, for a
    record of the supported version and the tags [prep] and [fpgm].  A key
    that is missing (or [None]) is passed over in silence; an empty value
    logs one debug message and adds no table; a text that is not empty
    becomes the program of the table, an earlier program of that table being
    replaced, and nothing is logged. *)
Theorem compile_program_outcomes
    (ufo : Font) (key table_tag : string) (d : pydict) (w : World) :
  table_tag = "prep" \/ table_tag = "fpgm" ->
  dict_lookup TRUETYPE_INSTRUCTIONS_KEY (font_lib ufo) = Some (PyDict d) ->
  supported_version d ->
  let asm := dict_get d key PyNone in
  let run := _compile_program ufo key table_tag w in
  (asm = PyNone -> run = (inr tt, w)) /\
  (asm <> PyNone -> truthy asm = false ->
   run = (inr tt,
          logged w DEBUG ("Assembly for table '" +:+ table_tag +:+
                          "' is empty, table not added to font."))) /\
  (forall s, asm = PyStr s -> s <> "" ->
   run = (inr tt,
          mkWorld (with_table_program table_tag (Program_assembly s) (otf w))
            (log w))).
Proof.
  intros Htag Hrec Hver asm run.
  assert (Hd : d <> []) by (intros ->; discriminate).
  assert (Hrun : run
    = if is_None asm then (inr tt, w)
      else if negb (truthy asm) then
        (inr tt,
         logged w DEBUG ("Assembly for table '" +:+ table_tag +:+
                         "' is empty, table not added to font."))
      else
        (bind (set_table_program table_tag Program_new)
           (fun _ => bind (lift (fromAssembly asm))
                       (fun p => set_table_program table_tag p))) w).
  { assert (Hr : dict_get (font_lib ufo) TRUETYPE_INSTRUCTIONS_KEY PyNone
                 = PyDict d)
      by (unfold dict_get; rewrite Hrec; reflexivity).
    unfold run, _compile_program. cbv zeta.
    replace (negb ((table_tag =? "prep") || (table_tag =? "fpgm"))%string)
      with false by (destruct Htag as [-> | ->]; reflexivity).
    rewrite Hr. rewrite (nonempty_dict_truthy d Hd). cbv iota.
    rewrite bind_unfold, (check_tt_data_format_accepts d _ w Hver). cbv beta iota.
    rewrite bind_unfold. cbn [py_get]. unfold ret at 1. cbv beta iota.
    fold asm. destruct (is_None asm); [reflexivity|].
    destruct (negb (truthy asm)); reflexivity. }
  rewrite Hrun. clear Hrun. split; [|split].
  - intros ->. reflexivity.
  - intros Hnone Hempty.
    destruct asm; try contradiction; cbn [is_None]; rewrite Hempty; reflexivity.
  - intros s -> Hs. cbn [is_None truthy]. rewrite (eqb_empty_false s Hs).
    cbn [negb]. cbv iota. unfold set_table_program, with_table_program.
    run_monad. rewrite insert_insert_eq. reflexivity.
Qed.

Lemma compile_program_outcomes_witness :
  setupTable_prep
    (font_of (Some (PyDict [("formatVersion", PyStr "1");
                            ("controlValueProgram", PyStr "SVTCA[0]")])) [])
    sample_world
  = (inr tt,
     mkWorld (with_table_program "prep" (Program_assembly "SVTCA[0]") sample_otf)
       []).
Proof.
  destruct (compile_program_outcomes
              (font_of (Some (PyDict [("formatVersion", PyStr "1");
                                      ("controlValueProgram", PyStr "SVTCA[0]")]))
                 [])
              "controlValueProgram" "prep"
              [("formatVersion", PyStr "1");
               ("controlValueProgram", PyStr "SVTCA[0]")]
              sample_world)
    as (_ & _ & Htext).
  - left. reflexivity.
  - reflexivity.
  - reflexivity.
  - apply (Htext "SVTCA[0]"); [reflexivity | discriminate].
Defined.

(** X11: a source font without a font-level hint record, or with one that is
    empty (or otherwise false: the Format Guard is not asked), gets no
    [fpgm], [prep] or [cvt] table: each of the three builders returns
    without a change and without a message. *)
Theorem no_font_record_no_tables
    (ufo : Font) (int : string -> option Z) (w : World) :
  truthy (dict_get (font_lib ufo) TRUETYPE_INSTRUCTIONS_KEY PyNone) = false ->
  setupTable_fpgm ufo w = (inr tt, w) /\
  setupTable_prep ufo w = (inr tt, w) /\
  setupTable_cvt ufo int w = (inr tt, w).
Proof.
  intros Hrec. unfold setupTable_fpgm, setupTable_prep, _compile_program,
    setupTable_cvt.
  rewrite Hrec. repeat split; reflexivity.
Qed.

Lemma no_font_record_no_tables_witness :
  setupTable_fpgm (font_of (Some (PyDict [])) []) sample_world
  = (inr tt, sample_world) /\
  setupTable_prep (font_of (Some (PyDict [])) []) sample_world
  = (inr tt, sample_world) /\
  setupTable_cvt (font_of (Some (PyDict [])) []) int_ascii sample_world
  = (inr tt, sample_world).
Proof.
  apply (no_font_record_no_tables (font_of (Some (PyDict [])) []) int_ascii
           sample_world).
  reflexivity.
Defined.

(** ** Failures of the control-value table builder *)

Lemma int_keys_fail (int : string -> option Z) (cv : pydict) :
  Exists (fun kv => int (fst kv) = None) cv ->
  forall acc : gmap Z pyval,
  exists msg, int_keys int cv acc = inl (ValueError msg).
Proof.
  induction 1 as [[k v] cv Hk | [k v] cv _ IH]; intros acc; simpl in *.
  - rewrite Hk. eexists. reflexivity.
  - destruct (int k); [apply IH | eexists; reflexivity].
Qed.

(** X12: a key of the control-value mapping that [int] does not accept makes
    the builder raise [ValueError] before anything is written: the font and
    the log are unchanged, whatever the other entries are. *)
Theorem setupTable_cvt_key_not_a_number
    (ufo : Font) (int : string -> option Z) (w : World) (d cv : pydict) :
  dict_lookup TRUETYPE_INSTRUCTIONS_KEY (font_lib ufo) = Some (PyDict d) ->
  supported_version d ->
  dict_lookup "controlValue" d = Some (PyDict cv) ->
  Exists (fun kv => int (fst kv) = None) cv ->
  exists msg, setupTable_cvt ufo int w = (inl (ValueError msg), w).
Proof.
  intros Hrec Hver Hcv Hbad.
  assert (Hd : d <> []) by (intros ->; discriminate).
  assert (Hne : cv <> []) by (intros ->; inversion Hbad).
  destruct (int_keys_fail int cv Hbad ∅) as (msg & Hmsg).
  exists msg. unfold setupTable_cvt, dict_get. rewrite Hrec.
  rewrite (nonempty_dict_truthy d Hd).
  apply bind_inl.
  erewrite bind_inr by (apply check_tt_data_format_accepts; exact Hver).
  unfold py_get, dict_get. rewrite Hcv.
  erewrite bind_inr by reflexivity.
  rewrite (nonempty_dict_truthy cv Hne).
  erewrite bind_inr by reflexivity.
  rewrite Hmsg. reflexivity.
Qed.

Lemma setupTable_cvt_key_not_a_number_witness :
  exists msg,
    setupTable_cvt (cvt_font [("1", PyInt 500); ("two", PyInt 750)]) int_ascii
      sample_world
    = (inl (ValueError msg), sample_world).
Proof.
  apply (setupTable_cvt_key_not_a_number
           (cvt_font [("1", PyInt 500); ("two", PyInt 750)]) int_ascii
           sample_world
           [("formatVersion", PyStr "1");
            ("controlValue", PyDict [("1", PyInt 500); ("two", PyInt 750)])]
           [("1", PyInt 500); ("two", PyInt 750)]).
  - reflexivity.
  - reflexivity.
  - reflexivity.
  - apply Exists_cons_tl. apply Exists_cons_hd. vm_compute. reflexivity.
Defined.

Lemma array_h_overflow (l : list pyval) :
  Forall (fun v => exists z, v = PyInt z) l ->
  Exists (fun v => exists z, v = PyInt z /\ ~ (-32768 <= z <= 32767)%Z) l ->
  array_h l = inl OverflowError.
Proof.
  induction 1 as [ | v l [z ->] Hl IH]; intros Hex; [inversion Hex|].
  simpl.
  destruct ((-32768 <=? z) && (z <=? 32767))%Z eqn:Hrange; [|reflexivity].
  apply andb_true_iff in Hrange. destruct Hrange as [H1 H2].
  apply Z.leb_le in H1, H2.
  inversion Hex as [? ? (z' & Hz' & Hout) | ? ? Hex']; subst.
  - inversion Hz'; subst. lia.
  - rewrite (IH Hex'). reflexivity.
Qed.

(** X13: when the keys of the control-value mapping are numbers, the largest
    of them not negative, and the values are integers, one value of the
    table outside the signed 16-bit range makes the builder raise
    [OverflowError]; by then the font holds a new control-value table
    without values, in place of any former one.  Nothing is logged. *)
Theorem setupTable_cvt_value_out_of_range
    (ufo : Font) (int : string -> option Z) (w : World) (d cv : pydict)
    (mx i z : Z) :
  dict_lookup TRUETYPE_INSTRUCTIONS_KEY (font_lib ufo) = Some (PyDict d) ->
  supported_version d ->
  dict_lookup "controlValue" d = Some (PyDict cv) ->
  Forall (fun kv => is_Some (int (fst kv)) /\ exists n, snd kv = PyInt n) cv ->
  is_max_key int cv mx ->
  (0 <= i <= mx)%Z ->
  cvt_entry int i cv = Some (PyInt z) ->
  ~ (-32768 <= z <= 32767)%Z ->
  setupTable_cvt ufo int w
  = (inl OverflowError, mkWorld (with_cvt (Some (mk_cvt None)) (otf w)) (log w)).
Proof.
  intros Hrec Hver Hcv Hwf [Hmx Hmax] Hi Hentry Hout.
  assert (Hd : d <> []) by (intros ->; discriminate).
  assert (Hne : cv <> []).
  { intros ->. discriminate. }
  assert (Hkeys : Forall (fun kv => is_Some (int (fst kv))) cv).
  { eapply Forall_impl; [exact Hwf|]. intros kv [H _]. exact H. }
  assert (Hints : forall j v, cvt_entry int j cv = Some v -> exists n, v = PyInt n).
  { clear -Hwf. induction Hwf as [ | [k v0] cv [_ [n Hn]] _ IH]; intros j v;
      simpl; [discriminate|].
    destruct (cvt_entry int j cv) as [v'|] eqn:E.
    - intros H. inversion H; subst. eapply IH. exact E.
    - destruct (decide (int k = Some j)); [|discriminate].
      intros H. inversion H; subst. exists n. exact Hn. }
  destruct (int_keys_lookup int cv Hkeys ∅) as (km & Hkm & Hlook).
  assert (Hkm' : forall j, km !! j = cvt_entry int j cv).
  { intros j. rewrite Hlook. destruct (cvt_entry int j cv); [reflexivity|].
    apply lookup_empty. }
  assert (Hkne : int_dict_keys km <> []).
  { intros E. assert (Hin : mx ∈ int_dict_keys km).
    { apply elem_of_int_dict_keys. rewrite Hkm'. exact Hmx. }
    rewrite E in Hin. inversion Hin. }
  destruct (py_max_spec _ Hkne) as (mx' & Hpy & Hin & Hall).
  assert (mx' = mx).
  { apply Z.le_antisymm.
    - apply Hmax. rewrite <- Hkm'. apply elem_of_int_dict_keys. exact Hin.
    - apply Hall. apply elem_of_int_dict_keys. rewrite Hkm'. exact Hmx. }
  subst mx'.
  unfold setupTable_cvt, dict_get. rewrite Hrec.
  rewrite (nonempty_dict_truthy d Hd).
  erewrite bind_inr.
  2:{ erewrite bind_inr by (apply check_tt_data_format_accepts; exact Hver).
      unfold py_get, dict_get. rewrite Hcv.
      erewrite bind_inr by reflexivity.
      rewrite (nonempty_dict_truthy cv Hne).
      erewrite bind_inr by reflexivity.
      rewrite Hkm. erewrite bind_inr by reflexivity.
      rewrite Hpy. erewrite bind_inr by reflexivity.
      reflexivity. }
  remember ((fun j => default (PyInt 0) (km !! j)) <$> seqZ 0 (mx + 1))
    as cvts eqn:Ecvts.
  assert (Harr : array_h cvts = inl OverflowError).
  { subst cvts. apply array_h_overflow.
    - apply Forall_fmap. apply Forall_forall. intros j _. simpl.
      rewrite Hkm'. destruct (cvt_entry int j cv) as [v|] eqn:E; simpl.
      + eapply Hints. exact E.
      + eexists. reflexivity.
    - apply Exists_exists. exists (PyInt z). split.
      + apply list_elem_of_fmap. exists i. split.
        * rewrite Hkm', Hentry. reflexivity.
        * apply elem_of_seqZ. lia.
      + exists z. split; [reflexivity | exact Hout]. }
  destruct cvts as [ | c cvts'].
  { apply (f_equal length) in Ecvts.
    rewrite length_fmap, length_seqZ in Ecvts. simpl in Ecvts. lia. }
  unfold bind, get_otf, put_otf, lift. simpl otf. simpl log.
  rewrite Harr. reflexivity.
Qed.

Lemma setupTable_cvt_value_out_of_range_witness :
  setupTable_cvt (cvt_font [("0", PyInt 7); ("2", PyInt 40000)]) int_ascii
    sample_world
  = (inl OverflowError,
     mkWorld (with_cvt (Some (mk_cvt None)) (otf sample_world)) (log sample_world)).
Proof.
  apply (setupTable_cvt_value_out_of_range
           (cvt_font [("0", PyInt 7); ("2", PyInt 40000)]) int_ascii sample_world
           [("formatVersion", PyStr "1");
            ("controlValue", PyDict [("0", PyInt 7); ("2", PyInt 40000)])]
           [("0", PyInt 7); ("2", PyInt 40000)] 2 2 40000).
  - reflexivity.
  - reflexivity.
  - reflexivity.
  - repeat constructor; try (eexists; reflexivity).
  - split.
    + eexists. vm_compute. reflexivity.
    + intros j [v Hv]. simpl in Hv.
      destruct (decide (int_ascii "2" = Some j)) as [E | E].
      * vm_compute in E. inversion E. lia.
      * destruct (decide (int_ascii "0" = Some j)) as [E0 | E0];
          [|discriminate].
        vm_compute in E0. inversion E0. lia.
  - lia.
  - vm_compute. reflexivity.
  - lia.
Defined.

(** ** The flags of each component *)

Lemma component_lib_flags_round (auto : bool) (glyph : Glyph) (ttglyph : string)
    (i : nat) (umm : option string) (id : string) :
  exists r h l,
    pure_step ttglyph i
      (bind (has_component_lib glyph id)
         (fun has_lib =>
            if has_lib then component_lib_flags auto glyph ttglyph i umm id
            else ret umm)) r h l /\
    (forall u, r = inr u ->
     forall z, Z.testbit (h z) 2
               = match lib_round_rule glyph id with
                 | Some b => b
                 | None => Z.testbit z 2
                 end).
Proof.
  unfold has_component_lib, component_lib_flags, lib_round_rule.
  unfold py_in, py_getitem, py_get, set_flag, clear_flag, dict_mem, dict_get.
  repeat (rewrite ?bind_ret_l, ?bind_raise_l; cbv beta; case_match).
  all: rewrite ?bind_ret_l, ?bind_raise_l.
  all: try match goal with
           | H : false = true |- _ => discriminate H
           | H : true = false |- _ => discriminate H
           end.
  all: do 3 eexists; (split; [pure_tac|]).
  all: intros u Hu z; try discriminate Hu.
  all: simplify_eq.
  all: cbn [orb truthy].
  all: repeat match goal with
              | H : ?x = _ |- context [?x] => rewrite H
              end.
  all: bits.
Qed.

Lemma upd_flags_ext (ttglyph : string) (i : nat) (h h' : Z -> Z) (f : TTFont) :
  (forall z, h z = h' z) -> upd_flags ttglyph i h f = upd_flags ttglyph i h' f.
Proof.
  intros Hh. unfold upd_flags. f_equal. apply alter_ext. intros g _.
  unfold update_component. destruct (geometry g); [reflexivity|].
  f_equal. f_equal. apply list_alter_ext; [|reflexivity].
  intros c _. unfold with_flags. rewrite Hh. reflexivity.
Qed.

Lemma pure_step_ext {A} (ttglyph : string) (i : nat) (m : M A) r h h' l :
  (forall z, h z = h' z) ->
  pure_step ttglyph i m r h l -> pure_step ttglyph i m r h' l.
Proof.
  intros Hh Hm w. rewrite (Hm w). unfold apply_step.
  rewrite (upd_flags_ext ttglyph i h h' (otf w) Hh). reflexivity.
Qed.

(** A step determines its result, its messages and its change of the
    flags. *)
Lemma pure_step_unique {A} (ttglyph : string) (i : nat) (m : M A)
    r r' h h' l l' :
  pure_step ttglyph i m r h l -> pure_step ttglyph i m r' h' l' ->
  r = r' /\ l = l' /\ forall z, h z = h' z.
Proof.
  intros H1 H2.
  assert (Hw : forall w, (r, apply_step ttglyph i h l w)
                         = (r', apply_step ttglyph i h' l' w)).
  { intros w. rewrite <- (H1 w), <- (H2 w). reflexivity. }
  pose (probe z :=
          mkWorld
            (mkTTFont
               {[ ttglyph :=
                    mkTTGlyph
                      (Components (replicate i (mkGlyphComponent "" 0 0 0)
                                   ++ [mkGlyphComponent "" 0 0 z]))
                      None ]} ∅ ∅ ∅ None) []).
  assert (Hflags : forall z k,
             flags_at (upd_flags ttglyph i k (otf (probe z))) ttglyph i
             = Some (k z)).
  { intros z k. rewrite upd_flags_upd_all, flags_at_upd_all.
    rewrite decide_True by reflexivity.
    unfold flags_at, probe. simpl. rewrite lookup_singleton_eq. simpl.
    rewrite lookup_app_r by (rewrite length_replicate; lia).
    rewrite length_replicate, Nat.sub_diag. reflexivity. }
  split; [|split].
  - specialize (Hw (probe 0%Z)). congruence.
  - specialize (Hw (probe 0%Z)). unfold apply_step in Hw. simpl in Hw.
    congruence.
  - intros z. specialize (Hw (probe z)). unfold apply_step in Hw.
    assert (E : upd_flags ttglyph i h (otf (probe z))
                = upd_flags ttglyph i h' (otf (probe z))) by congruence.
    apply (f_equal (fun f => flags_at f ttglyph i)) in E.
    rewrite !Hflags in E. congruence.
Qed.

Lemma resolver_bit_dec (n : Z) : resolver_bit n \/ ~ resolver_bit n.
Proof. unfold resolver_bit. lia. Qed.

Lemma flag_edit_id : flag_edit (fun z => z).
Proof. intros n. left. intros z. reflexivity. Qed.

Lemma flag_edit_compose (h1 h2 : Z -> Z) :
  flag_edit h1 -> flag_edit h2 -> flag_edit (fun z => h2 (h1 z)).
Proof.
  intros H1 H2 n. destruct (H2 n) as [K2 | [Hn [b Hb]]].
  - destruct (H1 n) as [K1 | [Hn [b Hb]]].
    + left. intros z. rewrite K2. apply K1.
    + right. split; [exact Hn|]. exists b. intros z. rewrite K2. apply Hb.
  - right. split; [exact Hn|]. exists b. intros z. apply Hb.
Qed.

Lemma flag_edit_ext (h h' : Z -> Z) :
  (forall z, h z = h' z) -> flag_edit h -> flag_edit h'.
Proof.
  intros Hh He n. destruct (He n) as [K | [Hn [b Hb]]].
  - left. intros z. rewrite <- Hh. apply K.
  - right. split; [exact Hn|]. exists b. intros z. rewrite <- Hh. apply Hb.
Qed.

Lemma flag_edit_set (mask : Z) :
  mask = ROUND_XY_TO_GRID \/ mask = USE_MY_METRICS \/ mask = OVERLAP_COMPOUND ->
  flag_edit (fun fl => Z.lor fl mask).
Proof.
  intros Hmask n. destruct (resolver_bit_dec n) as [Hn | Hn].
  - destruct (Z.testbit mask n) eqn:E.
    + right. split; [exact Hn|]. exists true. intros z.
      rewrite Z.lor_spec, E. apply orb_true_r.
    + left. intros z. rewrite Z.lor_spec, E. apply orb_false_r.
  - left. intros z. apply lor_mask_other_bits; assumption.
Qed.

Lemma flag_edit_clear (mask : Z) :
  mask = ROUND_XY_TO_GRID \/ mask = USE_MY_METRICS \/ mask = OVERLAP_COMPOUND ->
  flag_edit (fun fl => Z.land fl (Z.lnot mask)).
Proof.
  intros Hmask n. destruct (resolver_bit_dec n) as [Hn | Hn].
  - assert (Hpos : (0 <= n)%Z) by (unfold resolver_bit in Hn; lia).
    destruct (Z.testbit mask n) eqn:E.
    + right. split; [exact Hn|]. exists false. intros z.
      rewrite Z.land_spec, Z.lnot_spec, E by exact Hpos. apply andb_false_r.
    + left. intros z.
      rewrite Z.land_spec, Z.lnot_spec, E by exact Hpos. apply andb_true_r.
  - left. intros z. apply clear_mask_other_bits; assumption.
Qed.

(** An edit applied twice is the edit applied once. *)
Lemma flag_edit_idempotent (h : Z -> Z) (z : Z) : flag_edit h -> h (h z) = h z.
Proof.
  intros He. apply Z.bits_inj'. intros n _.
  destruct (He n) as [K | [_ [b Hb]]].
  - apply K.
  - rewrite !Hb. reflexivity.
Qed.

Section StepsAs.

Variable P : (Z -> Z) -> Prop.
Variable ttglyph : string.
Variable i : nat.
Hypothesis P_id : P (fun z => z).
Hypothesis P_compose : forall h1 h2, P h1 -> P h2 -> P (fun z => h2 (h1 z)).

Lemma steps_ret {A} (a : A) : steps_as P ttglyph i (ret a).
Proof. eexists _, _, _. split; [apply pure_ret | exact P_id]. Qed.

Lemma steps_raise {A} (e : exn) : steps_as P ttglyph i (raise e : M A).
Proof. eexists _, _, _. split; [apply pure_raise | exact P_id]. Qed.

Lemma steps_logger (lvl : level) (msg : string) :
  steps_as P ttglyph i (logger lvl msg).
Proof. eexists _, _, _. split; [apply pure_logger | exact P_id]. Qed.

Lemma steps_update_flags (h : Z -> Z) :
  P h -> steps_as P ttglyph i (update_flags ttglyph i h).
Proof. intros Hh. eexists _, _, _. split; [apply pure_update_flags | exact Hh]. Qed.

Lemma steps_bind {A B} (m : M A) (k : A -> M B) :
  steps_as P ttglyph i m -> (forall a, steps_as P ttglyph i (k a)) ->
  steps_as P ttglyph i (bind m k).
Proof.
  intros (r & h & l & Hm & Hh) Hk. destruct r as [e | a].
  - exists (inl e), h, l. split; [apply pure_bind_inl; exact Hm | exact Hh].
  - destruct (Hk a) as (r2 & h2 & l2 & Hk2 & Hh2).
    eexists _, _, _. split.
    + eapply pure_bind_inr; [exact Hm | exact Hk2].
    + apply P_compose; assumption.
Qed.

Lemma steps_py_get (obj : pyval) (k : string) (dflt : pyval) :
  steps_as P ttglyph i (py_get obj k dflt).
Proof. destruct obj; first [apply steps_ret | apply steps_raise]. Qed.

Lemma steps_py_in (k : string) (obj : pyval) : steps_as P ttglyph i (py_in k obj).
Proof. destruct obj; first [apply steps_ret | apply steps_raise]. Qed.

Lemma steps_py_getitem (obj : pyval) (k : string) :
  steps_as P ttglyph i (py_getitem obj k).
Proof.
  destruct obj; simpl; try apply steps_raise.
  destruct (dict_lookup k d); [apply steps_ret | apply steps_raise].
Qed.

End StepsAs.

Ltac steps_edit :=
  lazymatch goal with
  | |- steps_as _ _ _ (bind _ _) =>
      apply steps_bind;
      [exact flag_edit_compose | | intros ?]
  | |- steps_as _ _ _ (ret _) => apply steps_ret; exact flag_edit_id
  | |- steps_as _ _ _ (raise _) => apply steps_raise; exact flag_edit_id
  | |- steps_as _ _ _ (logger _ _) => apply steps_logger; exact flag_edit_id
  | |- steps_as _ _ _ (py_get _ _ _) => apply steps_py_get; exact flag_edit_id
  | |- steps_as _ _ _ (py_in _ _) => apply steps_py_in; exact flag_edit_id
  | |- steps_as _ _ _ (py_getitem _ _) =>
      apply steps_py_getitem; exact flag_edit_id
  | |- steps_as _ _ _ (set_flag _ _ _) =>
      apply steps_update_flags; apply flag_edit_set; tauto
  | |- steps_as _ _ _ (clear_flag _ _ _) =>
      apply steps_update_flags; apply flag_edit_clear; tauto
  | |- _ => case_match
  end.

(** One turn of the loop is an edit of the resolver's flags, whatever its
    outcome. *)
Lemma component_flags_edits (auto : bool) (glyph : Glyph) (ttglyph : string)
    (i : nat) (umm : option string) :
  steps_as flag_edit ttglyph i (component_flags auto glyph ttglyph i umm).
Proof.
  unfold component_flags, has_component_lib, component_lib_flags,
    overlap_compound_flag.
  repeat steps_edit.
Qed.

(** ** The resolver, component by component *)

Lemma upd_all_ext (ttglyph : string) (H H' : nat -> Z -> Z) (f : TTFont) :
  (forall j z, H j z = H' j z) -> upd_all ttglyph H f = upd_all ttglyph H' f.
Proof.
  intros HH. unfold upd_all. f_equal. apply alter_ext. intros g _.
  unfold map_flags. destruct (geometry g); [reflexivity|].
  f_equal. f_equal. apply imap_ext. intros j c _. unfold with_flags.
  rewrite HH. reflexivity.
Qed.

(** The loop looks at the compiled components only to count them. *)
Lemma flags_loop_length (auto : bool) (glyph : Glyph) (ttglyph : string)
    (cs cs' : list GlyphComponent) :
  length cs = length cs' ->
  forall i umm w,
    flags_loop auto glyph ttglyph i cs umm w
    = flags_loop auto glyph ttglyph i cs' umm w.
Proof.
  revert cs'. induction cs as [ | c cs IH]; intros [ | c' cs'] Hlen i umm w;
    simpl in *; try discriminate; [reflexivity|].
  rewrite !bind_unfold.
  destruct (component_flags auto glyph ttglyph i umm w) as [[e | claimed] w1];
    [reflexivity|].
  apply IH. lia.
Qed.

(** The loop as a sequence of steps: its change of the flags of component
    [j] is an edit, and when the loop ends normally it is the change of the
    step made for [j], the log being the messages of the steps in order. *)
Lemma flags_loop_steps (auto : bool) (glyph : Glyph) (ttglyph : string)
    (cs : list GlyphComponent) :
  forall (i : nat) (umm : option string),
  exists r H l,
    (forall w, flags_loop auto glyph ttglyph i cs umm w
               = (r, mkWorld (upd_all ttglyph H (otf w)) (log w ++ l))) /\
    (forall j, flag_edit (H j)) /\
    (forall j, j < i \/ i + length cs <= j -> forall z, H j z = z) /\
    (well_typed_object_libs glyph ->
     i + length cs <= length (components glyph) -> r = inr tt) /\
    (r = inr tt ->
     exists ls : list (list (level * string)),
       l = concat ls /\ length ls = length cs /\
       forall k lk, ls !! k = Some lk ->
         exists umm_k u_k h_k,
           pure_step ttglyph (i + k)
             (component_flags auto glyph ttglyph (i + k) umm_k)
             (inr u_k) h_k lk /\
           forall z, H (i + k) z = h_k z).
Proof.
  induction cs as [ | c cs IH]; intros i umm.
  - exists (inr tt), (fun _ fl => fl), [].
    split.
    { intros w. simpl. rewrite upd_all_id, app_nil_r. destruct w; reflexivity. }
    split; [intros j; apply flag_edit_id|].
    split; [reflexivity|]. split; [reflexivity|].
    intros _. exists []. split; [reflexivity|]. split; [reflexivity|].
    intros k lk Hk. discriminate.
  - destruct (component_flags_pure auto glyph ttglyph i umm)
      as (r1 & h & l1 & Hstep & _ & _ & Hwt & _).
    assert (Hedit : flag_edit h).
    { destruct (component_flags_edits auto glyph ttglyph i umm)
        as (r2 & h2 & l2 & Hstep2 & He2).
      destruct (pure_step_unique _ _ _ _ _ _ _ _ _ Hstep2 Hstep) as (_ & _ & Hh).
      exact (flag_edit_ext h2 h Hh He2). }
    destruct r1 as [e | umm'].
    + exists (inl e), (fun j => if decide (j = i) then h else fun fl => fl), l1.
      split.
      { intros w. simpl. unfold bind. rewrite Hstep. unfold apply_step.
        rewrite upd_flags_upd_all. reflexivity. }
      split.
      { intros j. destruct (decide (j = i)); [exact Hedit | apply flag_edit_id]. }
      split.
      { intros j Hj z. destruct (decide (j = i)); [simpl in Hj; lia | reflexivity]. }
      split; [|discriminate].
      intros Hw Hlen. destruct Hwt as [u Hu]; [exact Hw | | discriminate].
      apply lookup_lt_is_Some. simpl in Hlen. lia.
    + destruct (IH (S i) umm') as (r & H & l & Hrun & Hed & Hid & Hnormal & Hsteps).
      exists r, (fun j fl => H j ((if decide (j = i) then h else fun fl => fl) fl)),
             (l1 ++ l)%list.
      split.
      { intros w. simpl. unfold bind. rewrite Hstep, Hrun. unfold apply_step.
        simpl. rewrite upd_flags_upd_all, upd_all_compose, app_assoc.
        reflexivity. }
      split.
      { intros j. apply flag_edit_compose; [|apply Hed].
        destruct (decide (j = i)); [exact Hedit | apply flag_edit_id]. }
      split.
      { intros j Hj z. simpl in Hj.
        destruct (decide (j = i)); [lia|]. apply Hid. lia. }
      split.
      { intros Hw Hlen. apply Hnormal; [exact Hw|]. simpl in Hlen. lia. }
      intros Hr. destruct (Hsteps Hr) as (ls & Hl & Hlen & Hk).
      exists (l1 :: ls). split; [simpl; rewrite Hl; reflexivity|].
      split; [simpl; rewrite Hlen; reflexivity|].
      intros [ | k] lk Hlk; simpl in Hlk.
      * inversion Hlk; subst lk. exists umm, umm', h.
        rewrite Nat.add_0_r. split; [exact Hstep|].
        intros z. rewrite decide_True by reflexivity. apply Hid. lia.
      * destruct (Hk k lk Hlk) as (umm_k & u_k & h_k & Hpk & Hhk).
        exists umm_k, u_k, h_k.
        replace (i + S k) with (S i + k) by lia.
        split; [exact Hpk|].
        intros z. rewrite decide_False by lia. apply Hhk.
Qed.

Lemma apply_overlap_bit10 (glyph : Glyph) (j : nat) (z : Z) :
  Z.testbit (apply_overlap glyph j z) 10
  = match j, overlap_flag glyph with
    | 0, Some b => b
    | _, _ => Z.testbit z 10
    end.
Proof.
  unfold apply_overlap. destruct j as [ | j]; [|reflexivity].
  destruct (overlap_flag glyph) as [[ | ]|]; [| |reflexivity]; bits.
Qed.

Lemma apply_overlap_other_bits (glyph : Glyph) (j : nat) (z n : Z) :
  n <> 10%Z -> Z.testbit (apply_overlap glyph j z) n = Z.testbit z n.
Proof.
  intros Hn. unfold apply_overlap. destruct j as [ | j]; [|reflexivity].
  destruct (overlap_flag glyph) as [[ | ]|]; [| |reflexivity].
  - rewrite Z.lor_spec. change OVERLAP_COMPOUND with (2 ^ 10)%Z.
    destruct (Z.ltb_spec n 0) as [Hneg | Hpos].
    + rewrite !Z.testbit_neg_r by assumption. reflexivity.
    + rewrite Z.pow2_bits_eqb by lia.
      replace (10 =? n)%Z with false by (symmetry; apply Z.eqb_neq; lia).
      apply orb_false_r.
  - destruct (Z.ltb_spec n 0) as [Hneg | Hpos].
    + rewrite !Z.testbit_neg_r by assumption. reflexivity.
    + rewrite Z.land_spec, Z.lnot_spec by assumption.
      change OVERLAP_COMPOUND with (2 ^ 10)%Z.
      rewrite Z.pow2_bits_eqb by lia.
      replace (10 =? n)%Z with false by (symmetry; apply Z.eqb_neq; lia).
      apply andb_true_r.
Qed.

(** The block of the overlap flag, exactly. *)
Lemma overlap_compound_flag_exact (glyph : Glyph) (ttglyph : string) (i : nat) :
  pure_step ttglyph i (overlap_compound_flag glyph ttglyph i) (inr tt)
    (apply_overlap glyph i) [].
Proof.
  unfold overlap_compound_flag, apply_overlap, overlap_flag, dict_mem, dict_get,
    set_flag, clear_flag.
  destruct i as [ | i]; cbn [Nat.eqb andb]; [|apply pure_ret].
  destruct (dict_lookup TRUETYPE_OVERLAP_KEY (lib glyph)) as [ov|];
    cbn [fmap option_fmap option_map]; [|apply pure_ret].
  destruct (truthy ov); apply pure_update_flags.
Qed.

(** One turn of the loop and ROUND_XY_TO_GRID. *)
Lemma component_flags_round (auto : bool) (glyph : Glyph) (ttglyph : string)
    (i : nat) (umm : option string) :
  exists r h l,
    pure_step ttglyph i (component_flags auto glyph ttglyph i umm) r h l /\
    (forall u, r = inr u ->
     forall z, Z.testbit (h z) 2
               = match round_rule glyph i with
                 | Some b => b
                 | None => Z.testbit z 2
                 end).
Proof.
  pose proof (overlap_compound_flag_exact glyph ttglyph i) as HC.
  unfold component_flags, round_rule.
  destruct (components glyph !! i) as [uc|] eqn:Huc.
  2:{ exists (inl IndexError), (fun fl => fl), [].
      split; [rewrite bind_raise_l; apply pure_raise|].
      intros u Hu. discriminate. }
  rewrite bind_ret_l.
  destruct (identifier uc) as [id|] eqn:Hid.
  - destruct (component_lib_flags_round auto glyph ttglyph i umm id)
      as (rB & hB & lB & HB & HB2).
    destruct rB as [e | u].
    + exists (inl e), hB, lB.
      split; [apply pure_bind_inl; exact HB|].
      intros u Hu. discriminate.
    + eexists (inr u), _, _. split.
      { eapply pure_bind_inr; [exact HB|]. cbv beta.
        eapply pure_bind_inr; [exact HC|]. apply pure_ret. }
      cbv beta. intros u' _ z.
      rewrite apply_overlap_other_bits by lia. apply (HB2 u eq_refl).
  - eexists (inr umm), _, _. split.
    { eapply pure_bind_inr.
      - eapply pure_bind_inr; [apply pure_update_flags | apply pure_ret].
      - cbv beta. eapply pure_bind_inr; [exact HC | apply pure_ret]. }
    cbv beta. intros u _ z.
    rewrite apply_overlap_other_bits by lia. bits.
Qed.

(** What a step that ends normally does to each bit of the flags, and what
    it logs when the metrics are chosen automatically. *)
Lemma component_flags_bits (auto : bool) (glyph : Glyph) (ttglyph : string)
    (j : nat) (umm u : option string) (h : Z -> Z) (l : list (level * string)) :
  pure_step ttglyph j (component_flags auto glyph ttglyph j umm) (inr u) h l ->
  (forall z, Z.testbit (h z) 2
             = match round_rule glyph j with
               | Some b => b
               | None => Z.testbit z 2
               end) /\
  (auto = true \/ requests_metrics glyph j = false -> keeps_bit 9 h) /\
  (forall z, Z.testbit (h z) 10 = Z.testbit (apply_overlap glyph j z) 10) /\
  (forall n, ~ resolver_bit n -> keeps_bit n h) /\
  (auto = true -> count_warnings l = 0).
Proof.
  intros Hstep.
  destruct (component_flags_pure auto glyph ttglyph j umm)
    as (r1 & h1 & l1 & Hs1 & H10 & H10' & _ & Hmetrics).
  destruct (pure_step_unique _ _ _ _ _ _ _ _ _ Hs1 Hstep) as (-> & -> & Hh1).
  destruct (Hmetrics u eq_refl) as (_ & H9 & Hwarn).
  destruct (component_flags_round auto glyph ttglyph j umm)
    as (r2 & h2 & l2 & Hs2 & H2).
  destruct (pure_step_unique _ _ _ _ _ _ _ _ _ Hs2 Hstep) as (-> & _ & Hh2).
  destruct (component_flags_edits auto glyph ttglyph j umm)
    as (r3 & h3 & l3 & Hs3 & He3).
  destruct (pure_step_unique _ _ _ _ _ _ _ _ _ Hs3 Hstep) as (_ & _ & Hh3).
  assert (Hedit : flag_edit h) by exact (flag_edit_ext h3 h Hh3 He3).
  split; [|split; [|split; [|split]]].
  - intros z. rewrite <- Hh2. apply (H2 u eq_refl).
  - intros Hcase z. rewrite <- Hh1, H9.
    destruct Hcase as [-> | ->]; [rewrite andb_false_r | ]; reflexivity.
  - intros z. rewrite <- Hh1, apply_overlap_bit10.
    destruct j as [ | j].
    + rewrite H10' by eauto. destruct (overlap_flag glyph); reflexivity.
    + apply H10. lia.
  - intros n Hn. destruct (Hedit n) as [K | [Hres _]]; [exact K | contradiction].
  - intros ->. rewrite Hwarn, andb_false_r. reflexivity.
Qed.

Lemma count_warnings_concat (ls : list (list (level * string))) :
  Forall (fun lk => count_warnings lk = 0) ls -> count_warnings (concat ls) = 0.
Proof.
  induction 1 as [ | lk ls Hlk _ IH]; [reflexivity|].
  simpl. rewrite count_warnings_app, Hlk, IH. reflexivity.
Qed.

(** The resolver on a composite glyph with as many components as its
    source: it returns when the metadata is well typed, and what it does to
    each bit of each component. *)
Lemma set_composite_flags_bits (auto : bool) (glyph : Glyph) (ttglyph : string)
    (w : World) (g : TTGlyph) (cs : list GlyphComponent) :
  glyf (otf w) !! ttglyph = Some g ->
  geometry g = Components cs ->
  length cs = length (components glyph) ->
  well_typed_object_libs glyph ->
  exists H l,
    _set_composite_flags auto glyph ttglyph w
    = (inr tt, mkWorld (upd_all ttglyph H (otf w)) (log w ++ l)) /\
    (forall j, j < length cs ->
       (forall z, Z.testbit (H j z) 2
                  = match round_rule glyph j with
                    | Some b => b
                    | None => Z.testbit z 2
                    end) /\
       (auto = true \/ requests_metrics glyph j = false -> keeps_bit 9 (H j)) /\
       (forall z, Z.testbit (H j z) 10 = Z.testbit (apply_overlap glyph j z) 10) /\
       (forall n, ~ resolver_bit n -> keeps_bit n (H j))) /\
    (auto = true -> count_warnings l = 0).
Proof.
  intros Hg Hgeo Hlen Hwt.
  destruct (flags_loop_steps auto glyph ttglyph cs 0 None)
    as (r & H & l & Hrun & _ & _ & Hnormal & Hsteps).
  assert (Hr : r = inr tt) by (apply Hnormal; [exact Hwt | simpl; lia]).
  subst r. destruct (Hsteps eq_refl) as (ls & Hl & Hlens & Hk).
  exists H, l. split.
  { unfold _set_composite_flags, deref. run_monad. rewrite Hg. simpl.
    rewrite Hgeo. rewrite Hlen, Nat.eqb_refl. simpl. apply Hrun. }
  split.
  - intros j Hj.
    destruct (lookup_lt_is_Some_2 ls j) as [lk Hlk]; [lia|].
    destruct (Hk j lk Hlk) as (umm_j & u_j & h_j & Hstep & Hh).
    simpl in Hstep, Hh.
    destruct (component_flags_bits auto glyph ttglyph j umm_j u_j h_j lk Hstep)
      as (B2 & B9 & B10 & Bother & _).
    split; [|split; [|split]].
    + intros z. rewrite Hh. apply B2.
    + intros Hcase z. rewrite Hh. apply B9. exact Hcase.
    + intros z. rewrite Hh. apply B10.
    + intros n Hn z. rewrite Hh. apply Bother. exact Hn.
  - intros Hauto. subst l. apply count_warnings_concat.
    { apply Forall_lookup. intros k lk Hlk.
      destruct (Hk k lk Hlk) as (umm_k & u_k & h_k & Hstep & _).
      simpl in Hstep.
      destruct (component_flags_bits auto glyph ttglyph k umm_k u_k h_k lk Hstep)
        as (_ & _ & _ & _ & Hw).
      apply Hw. exact Hauto. }
Qed.

Lemma has_flag_ROUND_XY_TO_GRID (fl : Z) :
  has_flag ROUND_XY_TO_GRID fl = Z.testbit fl 2.
Proof. apply (has_flag_pow2 fl 2). lia. Qed.

Lemma flags_at_lookup (f : TTFont) (ttglyph : string) (g : TTGlyph)
    (cs : list GlyphComponent) (j : nat) :
  glyf f !! ttglyph = Some g -> geometry g = Components cs -> j < length cs ->
  exists fl, flags_at f ttglyph j = Some fl.
Proof.
  intros Hg Hgeo Hj. unfold flags_at. rewrite Hg, Hgeo.
  destruct (lookup_lt_is_Some_2 cs j Hj) as [c Hc]. rewrite Hc.
  eexists. reflexivity.
Qed.

(** X14: ROUND_XY_TO_GRID after the resolver, for a composite with as many
    components as its source and well-typed metadata.  A component
    without an identifier has the flag set.  A component whose identifier
    has metadata with a rounding or a metrics entry has the flag as the
    rounding entry says, set when there is no rounding entry.  Any other
    component keeps the flag as it was. *)
Theorem round_xy_to_grid_rule
    (auto : bool) (glyph : Glyph) (ttglyph : string) (w : World) (g : TTGlyph)
    (cs : list GlyphComponent) :
  glyf (otf w) !! ttglyph = Some g ->
  geometry g = Components cs ->
  length cs = length (components glyph) ->
  well_typed_object_libs glyph ->
  fst (_set_composite_flags auto glyph ttglyph w) = inr tt /\
  forall j, j < length cs ->
    has_flag ROUND_XY_TO_GRID
      <$> flags_at (otf (snd (_set_composite_flags auto glyph ttglyph w))) ttglyph j
    = (fun fl => match round_rule glyph j with
                 | Some b => b
                 | None => has_flag ROUND_XY_TO_GRID fl
                 end) <$> flags_at (otf w) ttglyph j.
Proof.
  intros Hg Hgeo Hlen Hwt.
  destruct (set_composite_flags_bits auto glyph ttglyph w g cs Hg Hgeo Hlen Hwt)
    as (H & l & Hrun & Hbits & _).
  rewrite Hrun. cbn [fst snd otf]. split; [reflexivity|].
  intros j Hj. rewrite flags_at_upd_all.
  destruct (flags_at_lookup _ _ _ _ j Hg Hgeo Hj) as [fl ->]. simpl. f_equal.
  destruct (Hbits j Hj) as (B2 & _).
  rewrite !has_flag_ROUND_XY_TO_GRID. apply B2.
Qed.

Lemma round_xy_to_grid_rule_witness :
  (fun j => has_flag ROUND_XY_TO_GRID
              <$> flags_at (otf (snd (_set_composite_flags false unrounded_h "h"
                                        sample_world))) "h" j) <$> [0; 1]
  = [Some true; Some false].
Proof.
  destruct (round_xy_to_grid_rule false unrounded_h "h" sample_world sample_h
              [mkGlyphComponent "a" 0 0 0; mkGlyphComponent "a" 120 0 0])
    as [_ Hrule].
  - reflexivity.
  - reflexivity.
  - reflexivity.
  - intros id v Hv. simpl in Hv.
    repeat match type of Hv with
           | context [String.eqb ?a ?b] =>
               destruct (String.eqb a b); [inversion Hv; eauto|]
           end.
    discriminate.
  - cbn [fmap list_fmap]. rewrite (Hrule 0), (Hrule 1) by (simpl; lia).
    reflexivity.
Defined.

(** X15: USE_MY_METRICS is changed only on request.  For a composite with as
    many components as its source and well-typed metadata, a component
    keeps the flag as it was when the metrics are chosen automatically or
    when its metadata does not request the flag; and with automatic choice
    the resolver logs no warning. *)
Theorem use_my_metrics_kept_unless_requested
    (auto : bool) (glyph : Glyph) (ttglyph : string) (w : World) (g : TTGlyph)
    (cs : list GlyphComponent) :
  glyf (otf w) !! ttglyph = Some g ->
  geometry g = Components cs ->
  length cs = length (components glyph) ->
  well_typed_object_libs glyph ->
  (forall j, j < length cs ->
     auto = true \/ requests_metrics glyph j = false ->
     has_flag USE_MY_METRICS
       <$> flags_at (otf (snd (_set_composite_flags auto glyph ttglyph w))) ttglyph j
     = has_flag USE_MY_METRICS <$> flags_at (otf w) ttglyph j) /\
  (auto = true ->
   count_warnings (log (snd (_set_composite_flags auto glyph ttglyph w)))
   = count_warnings (log w)).
Proof.
  intros Hg Hgeo Hlen Hwt.
  destruct (set_composite_flags_bits auto glyph ttglyph w g cs Hg Hgeo Hlen Hwt)
    as (H & l & Hrun & Hbits & Hwarn).
  rewrite Hrun. cbn [fst snd otf log]. split.
  - intros j Hj Hcase. rewrite flags_at_upd_all.
    destruct (flags_at_lookup _ _ _ _ j Hg Hgeo Hj) as [fl ->]. simpl. f_equal.
    destruct (Hbits j Hj) as (_ & B9 & _).
    rewrite !has_flag_USE_MY_METRICS. apply B9. exact Hcase.
  - intros Hauto. rewrite count_warnings_app, (Hwarn Hauto). lia.
Qed.

Lemma use_my_metrics_kept_unless_requested_witness :
  (fun j => has_flag USE_MY_METRICS
              <$> flags_at (otf (snd (_set_composite_flags true
                     (glyph_of "h" None (metrics_libs ["component0"; "component1"])
                        [Some "component0"; Some "component1"])
                     "h" sample_world))) "h" j) <$> [0; 1]
  = [Some false; Some false].
Proof.
  destruct (use_my_metrics_kept_unless_requested true
              (glyph_of "h" None (metrics_libs ["component0"; "component1"])
                 [Some "component0"; Some "component1"])
              "h" sample_world sample_h
              [mkGlyphComponent "a" 0 0 0; mkGlyphComponent "a" 120 0 0])
    as [Hkept _].
  - reflexivity.
  - reflexivity.
  - reflexivity.
  - intros id v Hv. simpl in Hv.
    repeat match type of Hv with
           | context [String.eqb ?a ?b] =>
               destruct (String.eqb a b); [inversion Hv; eauto|]
           end.
    discriminate.
  - cbn [fmap list_fmap].
    rewrite (Hkept 0), (Hkept 1) by first [simpl; lia | left; reflexivity].
    reflexivity.
Defined.

Lemma lib_round_rule_none_no_request (glyph : Glyph) (j : nat) (uc : Component)
    (id : string) :
  components glyph !! j = Some uc -> identifier uc = Some id ->
  lib_round_rule glyph id = None ->
  round_rule glyph j = None /\ requests_metrics glyph j = false.
Proof.
  intros Huc Hid Hrule. unfold round_rule, requests_metrics, component_lib.
  rewrite Huc, Hid. split; [exact Hrule|].
  unfold lib_round_rule in Hrule.
  destruct (dict_lookup OBJECT_LIBS_KEY (lib glyph)) as [[ | | | | libs]|];
    try reflexivity.
  destruct (dict_lookup id libs) as [[ | | | | cl]|]; try reflexivity.
  destruct (dict_mem TRUETYPE_ROUND_KEY cl || dict_mem TRUETYPE_METRICS_KEY cl)
    eqn:E; [discriminate|].
  apply orb_false_iff in E. destruct E as [_ E].
  unfold dict_mem in E. unfold dict_get.
  destruct (dict_lookup TRUETYPE_METRICS_KEY cl); [discriminate | reflexivity].
Qed.

(** X16: the flags of a component without metadata, for a composite with as
    many components as its source and well-typed metadata.  A component
    without an identifier ends with its former flags and ROUND_XY_TO_GRID;
    a component whose identifier has no metadata with a rounding or a
    metrics entry ends with its former flags; in both cases up to what the
    glyph-level overlap flag makes of OVERLAP_COMPOUND on component 0. *)
Theorem flags_without_metadata
    (auto : bool) (glyph : Glyph) (ttglyph : string) (w : World) (g : TTGlyph)
    (cs : list GlyphComponent) :
  glyf (otf w) !! ttglyph = Some g ->
  geometry g = Components cs ->
  length cs = length (components glyph) ->
  well_typed_object_libs glyph ->
  forall j uc,
    components glyph !! j = Some uc ->
    (identifier uc = None ->
     flags_at (otf (snd (_set_composite_flags auto glyph ttglyph w))) ttglyph j
     = (fun fl => apply_overlap glyph j (Z.lor fl ROUND_XY_TO_GRID))
         <$> flags_at (otf w) ttglyph j) /\
    (forall id, identifier uc = Some id -> lib_round_rule glyph id = None ->
     flags_at (otf (snd (_set_composite_flags auto glyph ttglyph w))) ttglyph j
     = apply_overlap glyph j <$> flags_at (otf w) ttglyph j).
Proof.
  intros Hg Hgeo Hlen Hwt j uc Huc.
  assert (Hj : j < length cs).
  { rewrite Hlen. apply lookup_lt_is_Some. eauto. }
  destruct (set_composite_flags_bits auto glyph ttglyph w g cs Hg Hgeo Hlen Hwt)
    as (H & l & Hrun & Hbits & _).
  rewrite Hrun. cbn [fst snd otf]. rewrite flags_at_upd_all.
  destruct (flags_at_lookup _ _ _ _ j Hg Hgeo Hj) as [fl ->]. simpl.
  destruct (Hbits j Hj) as (B2 & B9 & B10 & Bother).
  split.
  - intros Hid. f_equal. apply Z.bits_inj'. intros n _.
    assert (Hround : round_rule glyph j = Some true)
      by (unfold round_rule; rewrite Huc, Hid; reflexivity).
    assert (Hreq : requests_metrics glyph j = false)
      by (unfold requests_metrics, component_lib; rewrite Huc, Hid; reflexivity).
    destruct (Z.eq_dec n 10) as [-> | Hn10].
    { rewrite B10, !apply_overlap_bit10.
      destruct j, (overlap_flag glyph); try reflexivity; bits. }
    rewrite apply_overlap_other_bits by exact Hn10.
    destruct (Z.eq_dec n 2) as [-> | Hn2].
    { rewrite B2, Hround. bits. }
    destruct (Z.eq_dec n 9) as [-> | Hn9].
    { rewrite (B9 (or_intror Hreq)). bits. }
    rewrite Bother by (unfold resolver_bit; lia).
    symmetry. apply lor_mask_other_bits; [tauto | unfold resolver_bit; lia].
  - intros id Hid Hrule. f_equal. apply Z.bits_inj'. intros n _.
    destruct (lib_round_rule_none_no_request glyph j uc id Huc Hid Hrule)
      as [Hround Hreq].
    destruct (Z.eq_dec n 10) as [-> | Hn10]; [apply B10|].
    rewrite apply_overlap_other_bits by exact Hn10.
    destruct (Z.eq_dec n 2) as [-> | Hn2].
    { rewrite B2, Hround. reflexivity. }
    destruct (Z.eq_dec n 9) as [-> | Hn9].
    { apply (B9 (or_intror Hreq)). }
    apply Bother. unfold resolver_bit. lia.
Qed.

Lemma flags_without_metadata_witness :
  (fun j => flags_at (otf (snd (_set_composite_flags false plain_h "h"
                                  sample_world))) "h" j) <$> [0; 1]
  = [Some ROUND_XY_TO_GRID; Some 0%Z].
Proof.
  pose proof (flags_without_metadata false plain_h "h" sample_world sample_h
                [mkGlyphComponent "a" 0 0 0; mkGlyphComponent "a" 120 0 0]
                eq_refl eq_refl eq_refl I) as Hflags.
  destruct (Hflags 0 (mkComponent "a" None) eq_refl) as [H0 _].
  destruct (Hflags 1 (mkComponent "a" (Some "c1")) eq_refl) as [_ H1].
  cbn [fmap list_fmap]. rewrite (H0 eq_refl), (H1 "c1" eq_refl eq_refl).
  reflexivity.
Defined.

Lemma set_composite_flags_unfold (auto : bool) (glyph : Glyph)
    (ttglyph : string) (w : World) :
  _set_composite_flags auto glyph ttglyph w
  = match glyf (otf w) !! ttglyph with
    | None =>
        (inl (AttributeError "'NoneType' object has no attribute 'components'"), w)
    | Some g =>
        match geometry g with
        | Outline _ _ =>
            (inl (AttributeError "'Glyph' object has no attribute 'components'"),
             w)
        | Components cs =>
            if negb (Nat.eqb (length cs) (length (components glyph))) then
              logger ERROR
                ("Number of components differ between UFO and TTF in glyph '" +:+
                 name glyph +:+ "' (" +:+ pretty (length (components glyph)) +:+
                 " vs. " +:+ pretty (length cs) +:+
                 ", not setting component flags fromUFO. They may still be set heuristically.")
                w
            else flags_loop auto glyph ttglyph 0 cs None w
        end
    end.
Proof.
  unfold _set_composite_flags, deref. rewrite !bind_unfold.
  unfold get_otf at 1. cbv beta iota.
  destruct (glyf (otf w) !! ttglyph) as [g|]; [|reflexivity].
  unfold ret at 1. cbv beta iota.
  destruct (geometry g) as [pts ends | cs]; [reflexivity|].
  destruct (negb _); reflexivity.
Qed.

(** X17: resolving the flags of a glyph twice gives the font that resolving
    them once gives, and the same outcome: the decisions are taken from the
    source glyph alone and each of them sets a flag to a value or leaves it
    alone. *)
Theorem set_composite_flags_idempotent
    (auto : bool) (glyph : Glyph) (ttglyph : string) (w : World) :
  let once := _set_composite_flags auto glyph ttglyph w in
  let twice := _set_composite_flags auto glyph ttglyph (snd once) in
  fst twice = fst once /\ otf (snd twice) = otf (snd once).
Proof.
  cbv zeta. rewrite (set_composite_flags_unfold auto glyph ttglyph w).
  destruct (glyf (otf w) !! ttglyph) as [g|] eqn:Hg.
  2:{ cbn [snd fst]. rewrite set_composite_flags_unfold, Hg.
      split; reflexivity. }
  destruct (geometry g) as [pts ends | cs] eqn:Hgeo.
  { cbn [snd fst]. rewrite set_composite_flags_unfold, Hg, Hgeo.
    split; reflexivity. }
  destruct (negb (Nat.eqb (length cs) (length (components glyph)))) eqn:Hlen.
  { match goal with
    | |- context [logger ERROR ?msg w] =>
        change (logger ERROR msg w)
          with (inr tt : exn + unit, mkWorld (otf w) (log w ++ [(ERROR, msg)]))
    end.
    cbn [snd fst].
    rewrite set_composite_flags_unfold. cbn [otf]. rewrite Hg, Hgeo, Hlen.
    split; reflexivity. }
  destruct (flags_loop_steps auto glyph ttglyph cs 0 None)
    as (r & H & l & Hrun & Hedit & _).
  rewrite (Hrun w). cbn [snd fst].
  assert (Hgeo' : geometry (map_flags H g)
                  = Components (imap (fun j => with_flags (H j)) cs))
    by (unfold map_flags; rewrite Hgeo; reflexivity).
  assert (Htwice :
    _set_composite_flags auto glyph ttglyph
      (mkWorld (upd_all ttglyph H (otf w)) (log w ++ l))
    = (r, mkWorld (upd_all ttglyph H (upd_all ttglyph H (otf w)))
            ((log w ++ l) ++ l))).
  { rewrite set_composite_flags_unfold. cbn [otf].
    rewrite glyf_upd_all_eq, Hg. cbn [fmap option_fmap option_map].
    rewrite Hgeo', length_imap, Hlen.
    rewrite (flags_loop_length auto glyph ttglyph _ cs (length_imap _ cs)).
    apply Hrun. }
  rewrite Htwice. cbn [snd fst otf]. split; [reflexivity|].
  rewrite upd_all_compose. apply upd_all_ext.
  intros j z. apply flag_edit_idempotent. apply Hedit.
Qed.

(** ** A program that does not assemble *)

Lemma program_sizes_fail (assemble : string -> option (list Byte.byte))
    (gs : list TTGlyph) :
  (exists g p e, g ∈ gs /\ program g = Some p /\
                 getBytecode assemble p = inl e) ->
  exists e' g' p',
    program_sizes assemble gs = inl e' /\
    g' ∈ gs /\ program g' = Some p' /\ getBytecode assemble p' = inl e'.
Proof.
  induction gs as [ | g0 gs IH]; intros (g & p & e & Hin & Hp & He).
  { inversion Hin. }
  simpl. destruct (program g0) as [p0|] eqn:Hp0.
  - destruct (getBytecode assemble p0) as [e0 | bc] eqn:Hb0.
    + exists e0, g0, p0. split; [reflexivity|]. split; [left|]. split; assumption.
    + apply elem_of_cons in Hin as [-> | Hin]; [congruence|].
      destruct IH as (e' & g' & p' & Hrun & Hin' & Hp' & He').
      { exists g, p, e. auto. }
      exists e', g', p'. rewrite Hrun. split; [reflexivity|].
      split; [right; exact Hin' | split; assumption].
  - apply elem_of_cons in Hin as [-> | Hin]; [congruence|].
    destruct IH as (e' & g' & p' & Hrun & Hin' & Hp' & He').
    { exists g, p, e. auto. }
    exists e', g', p'. split; [exact Hrun|].
    split; [right; exact Hin' | split; assumption].
Qed.

(** X18: the text of a glyph program is assembled only when [update_maxp]
    asks for its bytecode.  When some glyph program of the font does not
    assemble, [update_maxp] raises the error of such a program; by then the
    capacity fields of the record have been copied, and the derived field
    and everything else are as before.  The font-level record is absent or
    a dictionary. *)
Theorem update_maxp_program_not_assembled
    (ufo : Font) (assemble : string -> option (list Byte.byte)) (w : World)
    (k : string) (g : TTGlyph) (p : Program) (e : exn) :
  let record := dict_get (font_lib ufo) TRUETYPE_INSTRUCTIONS_KEY PyNone in
  (record = PyNone \/ exists d, record = PyDict d) ->
  glyf (otf w) !! k = Some g ->
  program g = Some p ->
  getBytecode assemble p = inl e ->
  exists e' m',
    update_maxp ufo assemble w
    = (inl e', mkWorld (with_maxp m' (otf w)) (log w)) /\
    (exists k' g' p',
        glyf (otf w) !! k' = Some g' /\ program g' = Some p' /\
        getBytecode assemble p' = inl e') /\
    (forall n, n ∈ maxp_names ->
       m' !! n = match authored_field record n with
                 | Some v => Some v
                 | None => maxp (otf w) !! n
                 end) /\
    (forall n, n ∉ maxp_names -> m' !! n = maxp (otf w) !! n).
Proof.
  intros record Hrec Hk Hp He.
  assert (Hcopy : exists m1,
    (if truthy record then copy_maxp record maxp_names else ret tt) w
    = (inr tt, mkWorld (with_maxp m1 (otf w)) (log w)) /\
    forall n, m1 !! n = match authored_field record n with
                        | Some v => if bool_decide (n ∈ maxp_names) then Some v
                                    else maxp (otf w) !! n
                        | None => maxp (otf w) !! n
                        end).
  { destruct Hrec as [-> | [d ->]].
    - exists (maxp (otf w)). split; [destruct w as [[] ?]; reflexivity|].
      intros n. reflexivity.
    - destruct d as [ | kv d].
      + exists (maxp (otf w)). split; [destruct w as [[] ?]; reflexivity|].
        intros n. reflexivity.
      + apply copy_maxp_run. }
  destruct Hcopy as (m1 & Hcopy & Hm1).
  destruct (program_sizes_fail assemble (glyf_values (otf w)))
    as (e' & g' & p' & Hsz & Hin' & Hp' & He').
  { exists g, p, e. split; [|split; assumption].
    apply elem_of_glyf_values. eauto. }
  exists e', m1. split; [|split; [|split]].
  - unfold update_maxp. fold record. erewrite bind_inr by exact Hcopy.
    erewrite bind_inr by reflexivity.
    cbn [otf]. change (glyf_values (with_maxp m1 (otf w))) with (glyf_values (otf w)).
    rewrite Hsz. reflexivity.
  - apply elem_of_glyf_values in Hin' as [k' Hk']. exists k', g', p'. auto.
  - intros n Hn. rewrite Hm1. rewrite bool_decide_eq_true_2 by exact Hn.
    reflexivity.
  - intros n Hn. rewrite Hm1. rewrite bool_decide_eq_false_2 by exact Hn.
    destruct (authored_field record n); reflexivity.
Qed.

Lemma update_maxp_program_not_assembled_witness :
  exists e' m',
    update_maxp limits_font assemble_one misspelt_world
    = (inl e', mkWorld (with_maxp m' (otf misspelt_world)) (log misspelt_world)) /\
    m' !! "maxZones" = Some (PyInt 2) /\
    m' !! "maxSizeOfInstructions" = Some (PyInt 0).
Proof.
  destruct (update_maxp_program_not_assembled limits_font assemble_one
              misspelt_world "h"
              (mkTTGlyph (Components [mkGlyphComponent "a" 0 0 0])
                 (Some (Program_assembly "IUP[]")))
              (Program_assembly "IUP[]") tt_instructions_error)
    as (e' & m' & Hrun & _ & Hcopied & Hrest).
  - right. eexists. reflexivity.
  - reflexivity.
  - reflexivity.
  - reflexivity.
  - exists e', m'. split; [exact Hrun|]. split.
    + rewrite Hcopied; [reflexivity|].
      unfold maxp_names. rewrite !elem_of_cons. tauto.
    + rewrite Hrest; [reflexivity|].
      unfold maxp_names. rewrite !elem_of_cons, elem_of_nil.
      intros H. repeat destruct H as [H | H]; try discriminate H. exact H.
Defined.

(** ** Glyphs without a hint record *)

(** X19: what [compileGlyphInstructions] does when there is nothing to
    compile.  A name that is not in the source font is passed over with one
    informational message and nothing else.  For a glyph of the source
    without a hint record, a simple glyph is left exactly as it is, an
    empty program included, and nothing is logged; a composite glyph has an
    empty program removed, with one debug message, a program that is not
    empty kept, and then its flags resolved. *)
Theorem compileGlyphInstructions_without_record
    (ufo : Font) (auto : bool)
    (hash : Z -> TTFont -> TTGlyph -> exn + string)
    (ttglyph nm : string) (w : World) :
  (glyphs ufo !! nm = None ->
   compileGlyphInstructions ufo auto hash ttglyph nm w
   = (inr tt,
      logged w INFO ("Skipping compilation of instructions for glyph '" +:+ nm
                     +:+ "' because it is not in the input UFO."))) /\
  (forall glyph g,
      glyphs ufo !! nm = Some glyph ->
      dict_get (lib glyph) TRUETYPE_INSTRUCTIONS_KEY PyNone = PyNone ->
      glyf (otf w) !! ttglyph = Some g ->
      (isComposite g = false ->
       compileGlyphInstructions ufo auto hash ttglyph nm w = (inr tt, w)) /\
      (isComposite g = true ->
       compileGlyphInstructions ufo auto hash ttglyph nm w
       = _set_composite_flags auto glyph ttglyph
           (match program g with
            | Some p =>
                if Program_bool p then w
                else mkWorld (with_program_at ttglyph None (otf w))
                       (log w ++ [(DEBUG,
                                   "Removing empty program from composite glyph '"
                                   +:+ nm +:+ "'")])
            | None => w
            end))).
Proof.
  split.
  - intros Hnone. unfold compileGlyphInstructions. rewrite Hnone. reflexivity.
  - intros glyph g Hglyph Hrec Hg.
    assert (Hrun : compileGlyphInstructions ufo auto hash ttglyph nm w
      = (if isComposite g then
           bind (match program g with
                 | Some p =>
                     if negb (Program_bool p) then
                       bind (logger DEBUG
                               ("Removing empty program from composite glyph '"
                                +:+ nm +:+ "'"))
                         (fun _ => set_program ttglyph None)
                     else ret tt
                 | None => ret tt
                 end)
             (fun _ => _set_composite_flags auto glyph ttglyph)
         else ret tt) w).
    { unfold compileGlyphInstructions. rewrite Hglyph. cbv zeta. rewrite Hrec.
      cbn [is_None negb]. rewrite bind_ret_l.
      unfold deref. rewrite !bind_unfold. unfold get_otf at 1. cbv beta iota.
      rewrite Hg. reflexivity. }
    rewrite Hrun. clear Hrun.
    split; intros Hcomp; rewrite Hcomp; [reflexivity|].
    rewrite bind_unfold.
    destruct (program g) as [p|]; [|reflexivity].
    destruct (Program_bool p); cbn [negb]; cbv iota; [reflexivity|].
    rewrite bind_unfold. unfold logger at 1. cbv beta iota.
    rewrite set_program_run. reflexivity.
Qed.

Lemma compileGlyphInstructions_without_record_witness :
  compileGlyphInstructions (font_of None [plain_h]) false hash_by_width
    "a" "h" sample_world
  = (inr tt, sample_world).
Proof.
  destruct (compileGlyphInstructions_without_record (font_of None [plain_h])
              false hash_by_width "a" "h" sample_world) as [_ Hrec].
  destruct (Hrec plain_h sample_a eq_refl eq_refl eq_refl) as [Hsimple _].
  apply Hsimple. reflexivity.
Defined.
